(** * smartExpenseTracker: the SMS-to-transaction pipeline

    A shallow embedding of the mobile client's ingestion core:
    - [SmartSmsProcessor.ts]: the sender/content classifier, the merchant
      learner, the account resolver and the unnamed-merchant query;
    - [ExpenseParser.ts]: the field extractor;
    - [database.ts]: the SQLite statements the pipeline issues;
    - the subscription detection service: the recurring-payment heuristic.

    Text is modelled as [string] (8-bit characters).  SQLite's [UPPER], the
    [/i] flag and the character classes of the patterns act on the ASCII
    characters only, and are modelled on every text.  JavaScript's
    [toUpperCase], [toLowerCase], [\s] and [trim] also act beyond ASCII
    ([toUpperCase] folds letters such as e-acute, [\s] and [trim] take
    U+00A0 and U+FEFF for white space); they are modelled on ASCII text,
    and the statements that depend on them for a free text
    ([saveMerchantName], [getSuggestedName], the gates of the extractor)
    ask for [is_ascii_text].
    A JavaScript number is a double, kept as the rational it denotes;
    [parseFloat] rounds the numeral it reads to the nearest double
    ([round_double]); [NaN] is an explicit extra value where the code can
    produce it.  The means and ratios of the subscription detector are
    taken exactly, without the rounding of each operation.
    Dates are read on a device whose time zone is at a fixed offset at or
    east of UTC (as IST is); [calculateNextDate_zone] gives the general
    case of a fixed offset.  A timestamp outside the range of [Date] makes
    [toISOString] throw; [parseExpenseWithRegex_end] has that exception,
    [parseExpenseWithRegex] is the function on the other timestamps. *)

From Stdlib Require Import Bool Arith List String Ascii ZArith QArith Qabs Lia DecimalString.
From Stdlib Require Import Permutation Sorted Lqa.
From Stdlib Require DecimalNat DecimalFacts.
Import ListNotations.
Local Open Scope string_scope.
Local Open Scope nat_scope.

Set Implicit Arguments.

(* ================================================================== *)
(** ** Characters and strings *)
(* ================================================================== *)

Module Str.

Definition code (c : ascii) : nat := nat_of_ascii c.

Definition between (lo hi c : ascii) : bool :=
  (code lo <=? code c) && (code c <=? code hi).

Definition is_digit (c : ascii) : bool := between "0" "9" c.
Definition is_upper (c : ascii) : bool := between "A" "Z" c.
Definition is_lower (c : ascii) : bool := between "a" "z" c.
Definition is_alpha (c : ascii) : bool := is_upper c || is_lower c.

(** [\w] of a JavaScript pattern. *)
Definition is_word (c : ascii) : bool :=
  is_alpha c || is_digit c || Ascii.eqb c "_".

(** [\s] of a JavaScript pattern, and the characters [trim] removes, among
    the ASCII characters: space, TAB, LF, VT, FF, CR.  (Beyond ASCII
    JavaScript also counts U+00A0, U+FEFF and the other Unicode spaces.) *)
Definition is_space (c : ascii) : bool :=
  Ascii.eqb c " " || ((9 <=? code c) && (code c <=? 13)).

Definition upc (c : ascii) : ascii :=
  if is_lower c then ascii_of_nat (code c - 32) else c.

Definition lowc (c : ascii) : ascii :=
  if is_upper c then ascii_of_nat (code c + 32) else c.

Fixpoint map (f : ascii -> ascii) (s : string) : string :=
  match s with
  | EmptyString => EmptyString
  | String c s' => String (f c) (map f s')
  end.

(** [UPPER(s)] of SQLite, which folds the 26 ASCII letters and nothing else;
    and [s.toUpperCase()] on ASCII text, where the two agree. *)
Definition toUpperCase : string -> string := map upc.
Definition toLowerCase : string -> string := map lowc.

Fixpoint forallb (p : ascii -> bool) (s : string) : bool :=
  match s with
  | EmptyString => true
  | String c s' => p c && forallb p s'
  end.

Fixpoint existsb (p : ascii -> bool) (s : string) : bool :=
  match s with
  | EmptyString => false
  | String c s' => p c || existsb p s'
  end.

Fixpoint filter (p : ascii -> bool) (s : string) : string :=
  match s with
  | EmptyString => EmptyString
  | String c s' => if p c then String c (filter p s') else filter p s'
  end.

(** [s.includes(t)]. *)
Fixpoint includes (t s : string) : bool :=
  prefix t s ||
  match s with
  | EmptyString => false
  | String _ s' => includes t s'
  end.

Fixpoint rev_onto (s acc : string) : string :=
  match s with
  | EmptyString => acc
  | String c s' => rev_onto s' (String c acc)
  end.

Definition rev (s : string) : string := rev_onto s EmptyString.

Fixpoint trimStart (s : string) : string :=
  match s with
  | EmptyString => EmptyString
  | String c s' => if is_space c then trimStart s' else s
  end.

(** [s.trim()]. *)
Definition trim (s : string) : string := rev (trimStart (rev (trimStart s))).

(** [s.split(sep)] for a one-character separator string. *)
Fixpoint split_at (sep : ascii) (cur : string) (s : string) : list string :=
  match s with
  | EmptyString => [rev cur]
  | String c s' =>
      if Ascii.eqb c sep then rev cur :: split_at sep EmptyString s'
      else split_at sep (String c cur) s'
  end.

Definition split (sep : ascii) (s : string) : list string :=
  split_at sep EmptyString s.

(** [parts.join(sep)]. *)
Fixpoint join (sep : string) (parts : list string) : string :=
  match parts with
  | [] => EmptyString
  | [p] => p
  | p :: rest => p ++ sep ++ join sep rest
  end.

(** [w.charAt(0).toUpperCase() + w.slice(1).toLowerCase()]. *)
Definition capitalize (w : string) : string :=
  match w with
  | EmptyString => EmptyString
  | String c w' => String (upc c) (toLowerCase w')
  end.

Definition take (n : nat) (s : string) : string := substring 0 n s.

End Str.

(* ================================================================== *)
(** ** Regular expressions: a backtracking matcher

    The patterns of the source are written as terms of [regex]; the
    matcher follows the ECMAScript backtracking order (alternatives left
    to right, greedy or lazy repetition, leftmost start position). *)
(* ================================================================== *)

Module Re.

Inductive regex : Type :=
| Empty
| Chr (p : ascii -> bool)
| Seq (a b : regex)
| Alt (a b : regex)
| Star (a : regex)
| LazyStar (a : regex)
| Group (i : nat) (a : regex)
| Bol
| Eol
| WordB.

(** The matcher's position: the character before it (none at the
    start of the input), the unread input and the captures so far. *)
Record mstate : Type := MState {
  prev : option ascii;
  rest : string;
  caps : list (nat * string)
}.

Definition cont : Type := mstate -> option mstate.

Definition consumed (before after : string) : string :=
  Str.take (String.length before - String.length after) before.

Definition set_cap (i : nat) (v : string) (st : mstate) : mstate :=
  MState (prev st) (rest st) ((i, v) :: caps st).

Definition word_before (st : mstate) : bool :=
  match prev st with Some c => Str.is_word c | None => false end.

Definition word_after (st : mstate) : bool :=
  match rest st with String c _ => Str.is_word c | EmptyString => false end.

Definition shorter (st' st : mstate) : bool :=
  String.length (rest st') <? String.length (rest st).

(** Greedy repetition: try one more round of [body] first, stop otherwise.
    A round that consumes nothing is refused, so [n] rounds suffice for an
    input of [n] characters. *)
Fixpoint star_loop (body : cont -> cont) (k : cont) (n : nat) (st : mstate)
  : option mstate :=
  match n with
  | O => k st
  | S n' =>
      match body (fun st' => if shorter st' st then star_loop body k n' st' else None) st with
      | Some res => Some res
      | None => k st
      end
  end.

(** Lazy repetition: stop first, try one more round otherwise. *)
Fixpoint lazy_loop (body : cont -> cont) (k : cont) (n : nat) (st : mstate)
  : option mstate :=
  match n with
  | O => k st
  | S n' =>
      match k st with
      | Some res => Some res
      | None => body (fun st' => if shorter st' st then lazy_loop body k n' st' else None) st
      end
  end.

Fixpoint rmatch (r : regex) (k : cont) (st : mstate) : option mstate :=
  match r with
  | Empty => k st
  | Chr p =>
      match rest st with
      | String c s' => if p c then k (MState (Some c) s' (caps st)) else None
      | EmptyString => None
      end
  | Seq a b => rmatch a (rmatch b k) st
  | Alt a b =>
      match rmatch a k st with
      | Some res => Some res
      | None => rmatch b k st
      end
  | Star a => star_loop (rmatch a) k (S (String.length (rest st))) st
  | LazyStar a => lazy_loop (rmatch a) k (S (String.length (rest st))) st
  | Group i a =>
      rmatch a (fun st' => k (set_cap i (consumed (rest st) (rest st')) st')) st
  | Bol => match prev st with None => k st | Some _ => None end
  | Eol => match rest st with EmptyString => k st | String _ _ => None end
  | WordB => if xorb (word_before st) (word_after st) then k st else None
  end.

(** [matches r st st']: pattern [r] can take the matcher from position [st]
    to position [st']. *)
Inductive matches : regex -> mstate -> mstate -> Prop :=
| M_Empty st : matches Empty st st
| M_Chr p pv c s cs : p c = true ->
    matches (Chr p) (MState pv (String c s) cs) (MState (Some c) s cs)
| M_Seq a b st1 st2 st3 : matches a st1 st2 -> matches b st2 st3 -> matches (Seq a b) st1 st3
| M_AltL a b st st' : matches a st st' -> matches (Alt a b) st st'
| M_AltR a b st st' : matches b st st' -> matches (Alt a b) st st'
| M_StarNil a st : matches (Star a) st st
| M_StarCons a st1 st2 st3 :
    matches a st1 st2 -> matches (Star a) st2 st3 -> matches (Star a) st1 st3
| M_LazyNil a st : matches (LazyStar a) st st
| M_LazyCons a st1 st2 st3 :
    matches a st1 st2 -> matches (LazyStar a) st2 st3 -> matches (LazyStar a) st1 st3
| M_Group i a st st' : matches a st st' ->
    matches (Group i a) st (set_cap i (consumed (rest st) (rest st')) st')
| M_Bol st : prev st = None -> matches Bol st st
| M_Eol st : rest st = EmptyString -> matches Eol st st
| M_WordB st : xorb (word_before st) (word_after st) = true -> matches WordB st st.

(** One attempt at the current position; group 0 is the whole match. *)
Definition match_here (r : regex) (p : option ascii) (s : string) : option mstate :=
  rmatch (Group 0 r) (fun st => Some st) (MState p s []).

(** [regex.exec(s)]: the leftmost match, with the text skipped before it. *)
Fixpoint exec_from (r : regex) (p : option ascii) (skipped : string) (s : string)
  : option (string * mstate) :=
  match match_here r p s with
  | Some st => Some (Str.rev skipped, st)
  | None =>
      match s with
      | String c s' => exec_from r (Some c) (String c skipped) s'
      | EmptyString => None
      end
  end.

Definition exec (r : regex) (s : string) : option (string * mstate) :=
  exec_from r None EmptyString s.

(** [regex.test(s)]. *)
Definition test (r : regex) (s : string) : bool :=
  match exec r s with Some _ => true | None => false end.

Fixpoint lookup (i : nat) (cs : list (nat * string)) : option string :=
  match cs with
  | [] => None
  | (j, v) :: cs' => if Nat.eqb i j then Some v else lookup i cs'
  end.

(** [s.match(regex)[i]] for a pattern without the [g] flag. *)
Definition capture (i : nat) (r : regex) (s : string) : option string :=
  match exec r s with
  | Some (_, st) => lookup i (caps st)
  | None => None
  end.

(** *** Pattern combinators *)

Definition lit1 (c : ascii) : regex := Chr (Ascii.eqb c).
Definition lit1_i (c : ascii) : regex :=
  Chr (fun x => Ascii.eqb (Str.lowc x) (Str.lowc c)).

Fixpoint lit (s : string) : regex :=
  match s with
  | EmptyString => Empty
  | String c EmptyString => lit1 c
  | String c s' => Seq (lit1 c) (lit s')
  end.

(** A literal under the [/i] flag. *)
Fixpoint lit_i (s : string) : regex :=
  match s with
  | EmptyString => Empty
  | String c EmptyString => lit1_i c
  | String c s' => Seq (lit1_i c) (lit_i s')
  end.

Fixpoint seqs (rs : list regex) : regex :=
  match rs with
  | [] => Empty
  | [r] => r
  | r :: rs' => Seq r (seqs rs')
  end.

Fixpoint alts (rs : list regex) : regex :=
  match rs with
  | [] => Chr (fun _ => false)
  | [r] => r
  | r :: rs' => Alt r (alts rs')
  end.

Definition opt (r : regex) : regex := Alt r Empty.
Definition plus (r : regex) : regex := Seq r (Star r).
Definition lazy_plus (r : regex) : regex := Seq r (LazyStar r).

Fixpoint rep (n : nat) (r : regex) : regex :=
  match n with
  | O => Empty
  | S n' => Seq r (rep n' r)
  end.

(** [r{0,n}], greedy. *)
Fixpoint upto (n : nat) (r : regex) : regex :=
  match n with
  | O => Empty
  | S n' => opt (Seq r (upto n' r))
  end.

(** [r{n,m}] and [r{n,}]. *)
Definition range (n m : nat) (r : regex) : regex := Seq (rep n r) (upto (m - n) r).
Definition at_least (n : nat) (r : regex) : regex := Seq (rep n r) (Star r).

Definition digit : regex := Chr Str.is_digit.
Definition space : regex := Chr Str.is_space.
Definition one_of (s : string) : regex :=
  Chr (fun c => Str.existsb (Ascii.eqb c) s).
Definition none_of (s : string) : regex :=
  Chr (fun c => negb (Str.existsb (Ascii.eqb c) s)).

End Re.

(* ================================================================== *)
(** ** SmartSmsProcessor.ts: the sender/content classifier *)
(* ================================================================== *)

Import Re.

Record SmsValidationResult : Type := {
  isValid : bool;
  isTransaction : bool;
  confidence : Q;
  reason : string
}.

(** [[\d,]+] *)
Definition digits_commas : regex := plus (Chr (fun c => Str.is_digit c || Ascii.eqb c ",")).

Definition BANK_INDICATORS : list regex := [
  (* /Rs\.?\s*[\d,]+/i *)
  seqs [lit_i "Rs"; opt (lit1 "."); Star space; digits_commas];
  (* /INR\s*[\d,]+/i *)
  seqs [lit_i "INR"; Star space; digits_commas];
  (* /debited|credited|spent|received|auto-?debit|auto-?pay|subscription|membership
      |paid|sent|transfer|withdrawn|withdraw|payment|Dr\.?|Cr\.?/i *)
  alts [lit_i "debited"; lit_i "credited"; lit_i "spent"; lit_i "received";
        seqs [lit_i "auto"; opt (lit1 "-"); lit_i "debit"];
        seqs [lit_i "auto"; opt (lit1 "-"); lit_i "pay"];
        lit_i "subscription"; lit_i "membership"; lit_i "paid"; lit_i "sent";
        lit_i "transfer"; lit_i "withdrawn"; lit_i "withdraw"; lit_i "payment";
        seqs [lit_i "Dr"; opt (lit1 ".")];
        seqs [lit_i "Cr"; opt (lit1 ".")]];
  (* /A\/c|account|card|bank|wallet/i *)
  alts [lit_i "A/c"; lit_i "account"; lit_i "card"; lit_i "bank"; lit_i "wallet"];
  (* /UPI|IMPS|NEFT|RTGS|Ref\s?No|Reference/i *)
  alts [lit_i "UPI"; lit_i "IMPS"; lit_i "NEFT"; lit_i "RTGS";
        seqs [lit_i "Ref"; opt space; lit_i "No"]; lit_i "Reference"];
  (* /transaction|txn/i *)
  alts [lit_i "transaction"; lit_i "txn"]
].

Definition BANK_SENDER_IDS : list regex := [
  alts [lit_i "BOBSMS"; lit_i "BOBTXN"; lit_i "BOBMS"];
  alts [lit_i "HDFCBK"; lit_i "HDFCBN"];
  alts [lit_i "SBIN"; lit_i "SBIUPI"; lit_i "SBIMPS"];
  lit_i "ICICIB";
  alts [lit_i "AXISBK"; lit_i "AXIS"];
  lit_i "KOTAK";
  alts [lit_i "PNBSMS"; lit_i "PNB"];
  alts [lit_i "IDFCFB"; lit_i "IDFC"];
  lit_i "YESBNK";
  lit_i "CANARA";
  lit_i "UNIONB";
  lit_i "MAHABK";
  lit_i "RBL";
  lit_i "INDZB";
  lit_i "CBSSMS"
].

Definition SPAM_INDICATORS : list regex := [
  (* /click here|tap here|http/i *)
  alts [lit_i "click here"; lit_i "tap here"; lit_i "http"];
  (* /win|won|lottery|prize/i *)
  alts [lit_i "win"; lit_i "won"; lit_i "lottery"; lit_i "prize"];
  (* /offer expires|limited time/i *)
  alts [lit_i "offer expires"; lit_i "limited time"];
  (* /verify your|confirm your/i *)
  alts [lit_i "verify your"; lit_i "confirm your"];
  (* /suspicious activity/i *)
  lit_i "suspicious activity";
  (* /(\d{4,8}\s+is\s+your\s+OTP)|(OTP\s+for)/i *)
  Alt (Group 1 (seqs [range 4 8 digit; plus space; lit_i "is"; plus space;
                      lit_i "your"; plus space; lit_i "OTP"]))
      (Group 2 (seqs [lit_i "OTP"; plus space; lit_i "for"]))
].

(** [/-[P]($|[A-Z])/i]: the promotional route marker of a sender header. *)
Definition PROMO_SENDER : regex :=
  seqs [lit1 "-"; lit1_i "P"; Group 1 (Alt Eol (Chr Str.is_alpha))].

(** The counting loops [for (const pattern of ...) if (pattern.test(sms)) n++]. *)
Definition count_matches (patterns : list regex) (sms : string) : nat :=
  List.length (List.filter (fun pattern => test pattern sms) patterns).

(** [BANK_SENDER_IDS.some(regex => regex.test(sender))]. *)
Definition isKnownBankSender (sender : string) : bool :=
  List.existsb (fun re => test re sender) BANK_SENDER_IDS.

Definition validateTransactionSms (sms sender : string) : SmsValidationResult :=
  if test PROMO_SENDER sender then
    {| isValid := false; isTransaction := false; confidence := 0%Q;
       reason := "Ignored Promotional Sender (-P)" |}
  else
    let isKnownBank := isKnownBankSender sender in
    let confidence0 : Q := (if isKnownBank then 0 + (1 # 2) else 0)%Q in
    let reasons0 := if isKnownBank then ["Known Bank Sender"] else [] in
    let bankMatches := count_matches BANK_INDICATORS sms in
    let confidence1 : Q := if 2 <=? bankMatches then (confidence0 + (1 # 2))%Q else confidence0 in
    let reasons1 :=
      if 2 <=? bankMatches then (reasons0 ++ ["Contains transaction keywords"])%list
      else reasons0 in
    let spamMatches := count_matches SPAM_INDICATORS sms in
    if 0 <? spamMatches then
      {| isValid := false; isTransaction := false; confidence := 0%Q;
         reason := "Contains spam keywords" |}
    else
      let threshold : Q := (if isKnownBank then 4 # 10 else 8 # 10)%Q in
      {| isValid := Qle_bool threshold confidence1;
         isTransaction := 2 <=? bankMatches;
         confidence := confidence1;
         reason := Str.join "; " reasons1 |}.


(* ================================================================== *)
(** ** ExpenseParser.ts: the field extractor *)
(* ================================================================== *)

(** A JavaScript number: a finite double, kept as the rational it denotes,
    or [NaN].  There is no [Infinity]: the numerals the statements speak of
    are bounded in length. *)
Inductive number : Type :=
| NaN
| Num (q : Q).

Inductive TxType : Type := debit | credit.

Record ParsedExpense : Type := {
  pe_amount : number;
  pe_merchant : string;
  pe_type : TxType;
  pe_date : string;
  pe_accountLast4 : option string
}.

(** The "Smart" knowledge base, in the insertion order [Object.entries] yields. *)
Definition COMMON_MERCHANTS : list (string * string) := [
  ("ZOMATO", "Zomato"); ("SWIGGY", "Swiggy"); ("UBER", "Uber"); ("OLA", "Ola");
  ("AMAZON", "Amazon"); ("FLIPKART", "Flipkart"); ("MYNTRA", "Myntra");
  ("NETFLIX", "Netflix"); ("SPOTIFY", "Spotify"); ("APPLE", "Apple");
  ("GOOGLE", "Google"); ("JIO", "Jio"); ("AIRTEL", "Airtel"); ("VI", "Vi");
  ("PAYTM", "Paytm"); ("PHONEPE", "PhonePe"); ("RAZORPAY", "Razorpay");
  ("DMART", "DMart"); ("STARBUCKS", "Starbucks"); ("MCDONALDS", "McDonalds");
  ("KFC", "KFC"); ("DOMINOS", "Dominos"); ("PIZZA", "Pizza Hut");
  ("IRCTC", "IRCTC"); ("INDIGO", "IndiGo"); ("AIRINDIA", "Air India");
  ("DTH", "DTH Recharge"); ("BESCOM", "Electricity Bill");
  ("BWSSB", "Water Bill"); ("ACT", "ACT Fibernet")
].

(** [[X*]+] under the [/i] flag. *)
Definition mask : regex := plus (one_of "Xx*").

(** [(?:no\.|ending)?\s*[:\-\s]?\s*] *)
Definition account_label_tail : list regex :=
  [opt (alts [lit_i "no."; lit_i "ending"]); Star space;
   opt (Chr (fun c => Ascii.eqb c ":" || Ascii.eqb c "-" || Str.is_space c));
   Star space].

Definition ACCOUNT_PATTERNS : list regex := [
  (* /(?:A\/c|Acct|Account)\s+(?:no\.|ending)?\s*[:\-\s]?\s*(?:[X*]+)(\d{3,4})/i *)
  seqs ([alts [lit_i "A/c"; lit_i "Acct"; lit_i "Account"]; plus space]
        ++ account_label_tail ++ [mask; Group 1 (range 3 4 digit)]);
  (* /(?:Card)\s+(?:no\.|ending)?\s*[:\-\s]?\s*(?:[X*]+)(\d{3,4})/i *)
  seqs ([lit_i "Card"; plus space]
        ++ account_label_tail ++ [mask; Group 1 (range 3 4 digit)]);
  (* /(?:A\/c|Acct|Card)\s+(?:[X*]+)(\d{3,4})/i *)
  seqs [alts [lit_i "A/c"; lit_i "Acct"; lit_i "Card"]; plus space;
        mask; Group 1 (range 3 4 digit)]
].

(** *** IEEE 754 binary64

    A finite double is [m * 2^p] for integers [|m| < 2^53] and
    [p >= -1074].  The conversion of a decimal numeral takes the double
    nearest to its value, a tie going to the even [m]. *)

(** [floor (log2 (n / d))] for positive [n] and [d]. *)
Definition log2_floor (n d : Z) : Z :=
  let e := (Z.log2 n - Z.log2 d)%Z in
  if (0 <=? e)%Z
  then (if (d * 2 ^ e <=? n)%Z then e else e - 1)%Z
  else (if (d <=? n * 2 ^ (- e))%Z then e else e - 1)%Z.

(** The integer nearest to [n / d], a tie going to the even one. *)
Definition round_half_even (n d : Z) : Z :=
  let q := (n / d)%Z in
  match (2 * (n mod d) ?= d)%Z with
  | Lt => q
  | Gt => (q + 1)%Z
  | Eq => if Z.even q then q else (q + 1)%Z
  end.

(** The double nearest to [x], in lowest terms. *)
Definition round_double (x : Q) : Q :=
  let n := Z.abs (Qnum x) in
  let d := Zpos (Qden x) in
  if (n =? 0)%Z then 0%Q
  else
    (* the exponent of the last place: 52 places below the leading bit,
       but never below that of the subnormal numbers *)
    let p := Z.max (log2_floor n d - 52) (-1074) in
    let m := if (0 <=? p)%Z then round_half_even n (d * 2 ^ p)
             else round_half_even (n * 2 ^ (- p)) d in
    let r := if (0 <=? p)%Z then inject_Z (m * 2 ^ p)
             else Qred (Qmake m (Z.to_pos (2 ^ (- p)))) in
    if (Qnum x <? 0)%Z then Qopp r else r.

(** *** [parseFloat] on the text the amount pattern captures

    The argument is built from digits and at most one dot, so the sign,
    exponent and [Infinity] forms of [parseFloat] cannot occur; the value is
    that of the longest prefix [digits], [digits.digits] or [.digits],
    rounded to the nearest double, and [NaN] when that prefix holds no
    digit.  (ECMAScript fixes the rounding for numerals of up to 20
    significant digits, and makes a numeral from 2^1024 on [Infinity].) *)

Definition digit_val (c : ascii) : Z := Z.of_nat (Str.code c - Str.code "0").

(** The leading run of digits of [s], as a number and a digit count, and what follows it. *)
Fixpoint leading_digits (acc : Z) (n : nat) (s : string) : Z * nat * string :=
  match s with
  | String c s' =>
      if Str.is_digit c then leading_digits (10 * acc + digit_val c)%Z (S n) s'
      else (acc, n, s)
  | EmptyString => (acc, n, s)
  end.

Definition parseFloat (s : string) : number :=
  let '(ip, ni, after) := leading_digits 0 0 (Str.trimStart s) in
  match after with
  | String "." frac =>
      let '(fp, nf, _) := leading_digits 0 0 frac in
      if (ni =? 0) && (nf =? 0) then NaN
      else Num (round_double (inject_Z ip + Qmake fp (Pos.of_nat (10 ^ nf))))
  | _ => if ni =? 0 then NaN else Num (round_double (inject_Z ip))
  end.

(** [amountStr.replace(/,/g, '')] *)
Definition strip_commas (s : string) : string :=
  Str.filter (fun c => negb (Ascii.eqb c ",")) s.

Definition parseAmount (amountStr : string) : number :=
  parseFloat (strip_commas amountStr).

(** [parseInt] on a run of digits. *)
Definition parseInt (s : string) : Z :=
  let '(v, _, _) := leading_digits 0 0 s in v.

Definition nat_to_string (n : nat) : string :=
  DecimalString.NilEmpty.string_of_uint (Nat.to_uint n).

(** *** [replace] *)

(** [s.replace(r, rep)] for a pattern without the [g] flag. *)
Definition replace_first (r : regex) (rep : string) (s : string) : string :=
  match exec r s with
  | Some (before, st) => before ++ rep ++ rest st
  | None => s
  end.

(** [s.replace(r, rep)] for a pattern with the [g] flag that matches no
    empty string: the matches are taken left to right, without overlap. *)
Fixpoint replace_all_from (fuel : nat) (r : regex) (rep : string)
         (p : option ascii) (s : string) : string :=
  match fuel with
  | O => s
  | S fuel' =>
      let copy :=
        match s with
        | String c s' => String c (replace_all_from fuel' r rep (Some c) s')
        | EmptyString => EmptyString
        end in
      match match_here r p s with
      | Some st =>
          if String.length (rest st) <? String.length s
          then rep ++ replace_all_from fuel' r rep (prev st) (rest st)
          else copy
      | None => copy
      end
  end.

Definition replace_all (r : regex) (rep : string) (s : string) : string :=
  replace_all_from (S (String.length s)) r rep None s.

Definition getTransactionType (smsOrType : string) : TxType :=
  let lower := Str.toLowerCase smsOrType in
  if Str.includes "Dr." smsOrType && Str.includes "Cr." smsOrType then debit
  else if Str.includes "Dr." smsOrType then debit
  else if Str.includes "Cr." smsOrType then credit
  (* /\b(credited|received|deposited|added\s+to|refund|inward|reversal)\b/ *)
  else if test (seqs [WordB;
                      Group 1 (alts [lit "credited"; lit "received"; lit "deposited";
                                     seqs [lit "added"; plus space; lit "to"];
                                     lit "refund"; lit "inward"; lit "reversal"]);
                      WordB]) lower then credit
  (* /\b(debited|spent|paid|sent|withdrawn|withdraw|transfer\s+to|purchase)\b/ *)
  else if test (seqs [WordB;
                      Group 1 (alts [lit "debited"; lit "spent"; lit "paid"; lit "sent";
                                     lit "withdrawn"; lit "withdraw";
                                     seqs [lit "transfer"; plus space; lit "to"];
                                     lit "purchase"]);
                      WordB]) lower then debit
  else if Str.includes "credited" lower || Str.includes "deposit" lower then credit
  else debit.

(** [/(\d{2})[-\/](\d{2})[-\/](\d{2,4})/] *)
Definition DATE_PATTERN : regex :=
  seqs [Group 1 (rep 2 digit); one_of "-/"; Group 2 (rep 2 digit); one_of "-/";
        Group 3 (range 2 4 digit)].

Definition extractAccountInfo (sms : string) : option string :=
  List.fold_right
    (fun pattern later =>
       match exec pattern sms with
       | Some (_, st) => lookup 1 (caps st)
       | None => later
       end)
    None ACCOUNT_PATTERNS.

(** [!last4] for [last4 : string | undefined]. *)
Definition falsy (v : option string) : bool :=
  match v with
  | None => true
  | Some s => String.eqb s ""
  end.

(** [/^(VPS|IPS|REV|UPI|IMPS|NEFT|RTGS)[\/-]?/i] *)
Definition BANKING_PREFIX : regex :=
  seqs [Bol;
        Group 1 (alts [lit_i "VPS"; lit_i "IPS"; lit_i "REV"; lit_i "UPI";
                       lit_i "IMPS"; lit_i "NEFT"; lit_i "RTGS"]);
        opt (one_of "/-")].

Definition cleanMerchantName (raw : string) : string :=
  let name := Str.trim raw in
  if Str.includes "@" name && negb (Str.includes " " name) then name
  else
    match List.find (fun kv => Str.includes (fst kv) (Str.toUpperCase name)) COMMON_MERCHANTS with
    | Some (_, displayName) => displayName
    | None =>
        let name1 := replace_first BANKING_PREFIX "" name in
        let name2 := replace_first (at_least 6 digit) "" name1 in      (* /\d{6,}/ *)
        let name3 := replace_all (one_of "/-") " " name2 in            (* /[\/-]/g *)
        let name4 := replace_all (plus space) " " name3 in             (* /\s+/g *)
        let name5 := Str.trim name4 in
        let cleaned := Str.join " " (List.map Str.capitalize (Str.split " " name5)) in
        (* cleaned.match(/^On \d{4}/) *)
        if (30 <? String.length cleaned)
           || test (seqs [Bol; lit "On "; rep 4 digit]) cleaned
        then "Unknown Merchant"
        else cleaned
    end.

(** [/[\d]+/.test(sms) && /(?:credited|debited|paid|spent|received|withdrawn
     |dr\.|cr\.|transfer|sent|payment)/i.test(sms)] *)
Definition TRANSACTION_VERBS : list string :=
  ["credited"; "debited"; "paid"; "spent"; "received"; "withdrawn";
   "dr."; "cr."; "transfer"; "sent"; "payment"].

Definition isValidTransaction (sms : string) : bool :=
  test (plus digit) sms && test (alts (List.map lit_i TRANSACTION_VERBS)) sms.

(** [/(?:Rs\.?|INR)\s*([\d,]+(?:\.\d{2})?)/i] *)
Definition AMOUNT_PATTERN : regex :=
  seqs [Alt (Seq (lit_i "Rs") (opt (lit1 "."))) (lit_i "INR"); Star space;
        Group 1 (Seq digits_commas (opt (Seq (lit1 ".") (rep 2 digit))))].

(** [/([a-zA-Z0-9.\-_]+@[a-zA-Z]+)/] *)
Definition is_handle_char (c : ascii) : bool :=
  Str.is_alpha c || Str.is_digit c || Ascii.eqb c "." || Ascii.eqb c "-" || Ascii.eqb c "_".

Definition UPI_PATTERN : regex :=
  Group 1 (seqs [plus (Chr is_handle_char); lit1 "@"; plus (Chr Str.is_alpha)]).

(** [/(?:to|at|via|spent on|paid to|sent to|by|from)\s+([^,.;]+?)
      (?:\s+(?:on|Ref|Avl|Bal|end|txn)|$|\.)/i] *)
Definition MERCHANT_PATTERN : regex :=
  seqs [alts [lit_i "to"; lit_i "at"; lit_i "via"; lit_i "spent on"; lit_i "paid to";
              lit_i "sent to"; lit_i "by"; lit_i "from"];
        plus space;
        Group 1 (lazy_plus (none_of ",.;"));
        alts [Seq (plus space)
                  (alts [lit_i "on"; lit_i "Ref"; lit_i "Avl"; lit_i "Bal"; lit_i "end"; lit_i "txn"]);
              Eol; lit1 "."]].

Definition or_default (s dflt : string) : string :=
  if String.eqb s "" then dflt else s.

Section Parser.

(** The platform functions the extractor calls: [String.prototype.normalize('NFKC')],
    the current day [new Date().toISOString().split('T')[0]] and the day
    [new Date(ms).toISOString().split('T')[0]] of a timestamp within the
    range of [Date].  (Outside that range [toISOString] throws; see
    [parseExpenseWithRegex_end].) *)
Variable nfkc : string -> string.
Variable today : string.
Variable isoDateOfMillis : Z -> string.

Definition normalizeMessage (sms : string) : string := nfkc sms.

Definition extractDate (sms : string) : string :=
  match exec DATE_PATTERN sms with
  | Some (_, st) =>
      match lookup 1 (caps st), lookup 2 (caps st), lookup 3 (caps st) with
      | Some d, Some m, Some y =>
          let year := parseInt y in
          let year := if (year <? 100)%Z then (year + 2000)%Z else year in
          nat_to_string (Z.to_nat year) ++ "-" ++ m ++ "-" ++ d
      | _, _, _ => today
      end
  | None => today
  end.

Definition parseExpenseWithRegex (rawSms : string) (isKnownBank : bool)
           (smsTimestamp : option Z) : option ParsedExpense :=
  let sms := normalizeMessage rawSms in
  if negb (isValidTransaction sms) then None
  else
    let last4 := extractAccountInfo sms in
    if falsy last4 && negb isKnownBank then None
    else
      match capture 1 AMOUNT_PATTERN sms with
      | None => None
      | Some amountStr =>
          let amount := parseAmount amountStr in
          let type := getTransactionType sms in
          let upiMatch := capture 1 UPI_PATTERN sms in
          let merchant :=
            match upiMatch with
            | Some handle =>
                if negb (Str.includes ".com" handle) then handle
                else match capture 1 MERCHANT_PATTERN sms with
                     | Some m => m
                     | None => "General Expense"
                     end
            | None =>
                match capture 1 MERCHANT_PATTERN sms with
                | Some m => m
                | None => "General Expense"
                end
            end in
          let merchant := or_default (cleanMerchantName merchant) "General Expense" in
          let dateStr :=
            match smsTimestamp with
            | Some ts => if (ts =? 0)%Z then extractDate sms else isoDateOfMillis ts
            | None => extractDate sms
            end in
          Some {| pe_amount := amount; pe_merchant := merchant; pe_type := type;
                  pe_date := dateStr; pe_accountLast4 := last4 |}
      end.

(** [parseExpense]: "Direct regex only". *)
Definition parseExpense := parseExpenseWithRegex.

End Parser.

(* ================================================================== *)
(** ** database.ts: the store and the statements issued against it *)
(* ================================================================== *)

(** The insert payload, [Omit<Transaction, 'id' | 'createdAt'>]; a field the
    caller leaves out is [undefined], bound as SQL [NULL]. *)
Record Transaction : Type := {
  amount : number;
  type : TxType;
  merchant : string;
  categoryId : option Z;
  accountId : option Z;
  userId : Z;
  date : string;
  rawSms : option string;
  notes : option string;
  originalMerchant : option string
}.

(** A row of [transactions] ([created_at] is never read by the pipeline). *)
Record TransactionRow : Type := {
  t_id : Z;
  t_amount : Q;
  t_type : TxType;
  t_merchant : string;
  t_category_id : option Z;
  t_account_id : option Z;
  t_user_id : option Z;
  t_date : string;
  t_raw_sms : option string;
  t_notes : option string;
  t_original_merchant : option string
}.

(** A row of [merchant_mapping], [UNIQUE(sms_name, user_id)]. *)
Record MerchantMapping : Type := {
  m_id : Z;
  smsName : string;
  displayName : string;
  m_categoryId : option Z;
  m_userId : option Z
}.

(** A row of [accounts], [UNIQUE(bank_name, last_4, user_id)]. *)
Record Account : Type := {
  a_id : Z;
  a_name : string;
  bankName : string;
  last4 : string;
  a_type : string;
  a_userId : option Z
}.

(** A row of [categories] (icon, colour and budget are not read here). *)
Record Category : Type := {
  c_id : Z;
  c_name : string;
  c_userId : option Z
}.

(** The tables, each in rowid order, with the [AUTOINCREMENT] high-water
    marks of [sqlite_sequence]. *)
Record Database : Type := {
  transactions : list TransactionRow;
  merchant_mapping : list MerchantMapping;
  accounts : list Account;
  categories : list Category;
  seq_transactions : Z;
  seq_merchant_mapping : Z;
  seq_accounts : Z
}.

(** A statement either completes, or throws with the store as it was then. *)
Inductive outcome (A : Type) : Type :=
| Done (a : A) (db : Database)
| Thrown (message : string) (db : Database).

Arguments Thrown {A} message db.

Definition M (A : Type) : Type := Database -> outcome A.

Definition ret {A : Type} (a : A) : M A := fun db => Done a db.

Definition bind {A B : Type} (m : M A) (f : A -> M B) : M B :=
  fun db =>
    match m db with
    | Done a db' => f a db'
    | Thrown msg db' => Thrown msg db'
    end.

Definition throw {A : Type} (msg : string) : M A := fun db => Thrown msg db.

(** [try { m } catch (error) { handler(error.message) }] *)
Definition try_catch {A : Type} (m : M A) (handler : string -> M A) : M A :=
  fun db =>
    match m db with
    | Done a db' => Done a db'
    | Thrown msg db' => handler msg db'
    end.

Definition get : M Database := fun db => Done db db.
Definition put (db' : Database) : M unit := fun _ => Done tt db'.

Declare Scope monad_scope.
Delimit Scope monad_scope with monad.
Notation "x <- m ;; k" := (bind m (fun x => k))
  (at level 61, m at next level, right associativity) : monad_scope.
Notation "m ;;; k" := (bind m (fun _ => k))
  (at level 61, right associativity) : monad_scope.
Local Open Scope monad_scope.

(** SQL [column = ?] on a nullable integer column: [NULL] equals nothing. *)
Definition col_is (column : option Z) (v : Z) : bool :=
  match column with
  | Some x => Z.eqb x v
  | None => false
  end.

(** [UPPER(a) = UPPER(b)] *)
Definition upper_eq (a b : string) : bool :=
  String.eqb (Str.toUpperCase a) (Str.toUpperCase b).

Definition type_eqb (a b : TxType) : bool :=
  match a, b with
  | debit, debit | credit, credit => true
  | _, _ => false
  end.

(** The next [AUTOINCREMENT] id: one more than the largest id ever used. *)
Definition next_id (ids : list Z) (seq : Z) : Z :=
  (List.fold_right Z.max seq ids + 1)%Z.

(** The [WHERE] clause of the duplicate check: [user_id = ? AND amount = ?
    AND date = ? AND type = ? AND merchant = ?]. *)
Definition same_transaction (t : Transaction) (r : TransactionRow) : bool :=
  col_is (t_user_id r) (userId t)
  && match amount t with Num q => Qeq_bool (t_amount r) q | NaN => false end
  && String.eqb (t_date r) (date t)
  && type_eqb (t_type r) (type t)
  && String.eqb (t_merchant r) (merchant t).

(** The row [INSERT INTO transactions (amount, type, merchant, category_id,
    account_id, user_id, date, raw_sms, notes, original_merchant)] adds. *)
Definition new_row (transaction : Transaction) (q : Q) (insertId : Z) : TransactionRow :=
  {| t_id := insertId;
     t_amount := q;
     t_type := type transaction;
     t_merchant := merchant transaction;
     t_category_id := categoryId transaction;
     t_account_id := accountId transaction;
     t_user_id := Some (userId transaction);
     t_date := date transaction;
     t_raw_sms := rawSms transaction;
     t_notes := notes transaction;
     t_original_merchant := originalMerchant transaction |}.

Definition add_transaction (row : TransactionRow) (db : Database) : Database :=
  {| transactions := transactions db ++ [row];
     merchant_mapping := merchant_mapping db;
     accounts := accounts db;
     categories := categories db;
     seq_transactions := t_id row;
     seq_merchant_mapping := seq_merchant_mapping db;
     seq_accounts := seq_accounts db |}.

(** A [NaN] amount reaches SQLite as [NULL], which [amount REAL NOT NULL] rejects. *)
Definition insertTransaction (transaction : Transaction) (checkDuplicates : bool) : M Z :=
  db <- get ;;
  let existing :=
    if checkDuplicates
    then List.filter (same_transaction transaction) (transactions db)
    else [] in
  match existing with
  | row :: _ => ret (t_id row)
  | [] =>
      match amount transaction with
      | NaN => throw "NOT NULL constraint failed: transactions.amount"
      | Num q =>
          let insertId := next_id (List.map t_id (transactions db)) (seq_transactions db) in
          put (add_transaction (new_row transaction q insertId) db) ;;;
          ret insertId
      end
  end.

(** [SELECT * FROM merchant_mapping WHERE UPPER(sms_name) = UPPER(?) AND user_id = ?],
    first row. *)
Definition mapping_matches (name : string) (user : Z) (m : MerchantMapping) : bool :=
  upper_eq (smsName m) name && col_is (m_userId m) user.

Definition getMerchantMapping (name : string) (user : Z) : M (option MerchantMapping) :=
  db <- get ;;
  ret (List.find (mapping_matches name user) (merchant_mapping db)).

Definition set_merchant_mapping (rows : list MerchantMapping) (seq : Z) (db : Database) : Database :=
  {| transactions := transactions db;
     merchant_mapping := rows;
     accounts := accounts db;
     categories := categories db;
     seq_transactions := seq_transactions db;
     seq_merchant_mapping := seq;
     seq_accounts := seq_accounts db |}.

Definition set_transactions (rows : list TransactionRow) (db : Database) : Database :=
  {| transactions := rows;
     merchant_mapping := merchant_mapping db;
     accounts := accounts db;
     categories := categories db;
     seq_transactions := seq_transactions db;
     seq_merchant_mapping := seq_merchant_mapping db;
     seq_accounts := seq_accounts db |}.

Definition set_accounts (rows : list Account) (seq : Z) (db : Database) : Database :=
  {| transactions := transactions db;
     merchant_mapping := merchant_mapping db;
     accounts := rows;
     categories := categories db;
     seq_transactions := seq_transactions db;
     seq_merchant_mapping := seq_merchant_mapping db;
     seq_accounts := seq |}.

(** [INSERT INTO merchant_mapping (sms_name, display_name, category_id, user_id)]. *)
Definition insertMerchantMapping (name display : string) (category : option Z) (user : Z) : M Z :=
  db <- get ;;
  if List.existsb (fun m => String.eqb (smsName m) name && col_is (m_userId m) user)
                  (merchant_mapping db)
  then throw "UNIQUE constraint failed: merchant_mapping.sms_name, merchant_mapping.user_id"
  else
    let insertId := next_id (List.map m_id (merchant_mapping db)) (seq_merchant_mapping db) in
    let row := {| m_id := insertId; smsName := name; displayName := display;
                  m_categoryId := category; m_userId := Some user |} in
    put (set_merchant_mapping (merchant_mapping db ++ [row]) insertId db) ;;;
    ret insertId.

(** [SELECT * FROM categories WHERE user_id = ? ORDER BY name ASC] *)
Fixpoint insert_by_name (c : Category) (sorted : list Category) : list Category :=
  match sorted with
  | [] => [c]
  | x :: rest =>
      if String.leb (c_name x) (c_name c) then x :: insert_by_name c rest
      else c :: sorted
  end.

Definition is_null {A : Type} (column : option A) : bool :=
  match column with Some _ => false | None => true end.

Definition getCategories (user : Z) : M (list Category) :=
  db <- get ;;
  let selected :=
    if Z.eqb user 0
    then List.filter (fun c => is_null (c_userId c)) (categories db)
    else List.filter (fun c => col_is (c_userId c) user) (categories db) in
  ret (List.fold_left (fun sorted c => insert_by_name c sorted) selected []).

(* ================================================================== *)
(** ** SmartSmsProcessor.ts: the merchant learner

    The [TRANSACTION_UPDATED] broadcast and the new-merchant callback only
    reach the user interface and are left out. *)
(* ================================================================== *)

(** [UPDATE transactions SET merchant = ?, category_id = ?
     WHERE UPPER(merchant) = UPPER(?)] *)
Definition relabel (display : string) (category : option Z) (r : TransactionRow) : TransactionRow :=
  {| t_id := t_id r;
     t_amount := t_amount r;
     t_type := t_type r;
     t_merchant := display;
     t_category_id := category;
     t_account_id := t_account_id r;
     t_user_id := t_user_id r;
     t_date := t_date r;
     t_raw_sms := t_raw_sms r;
     t_notes := t_notes r;
     t_original_merchant := t_original_merchant r |}.

Definition updateAllTransactionsForMerchant (rawName display : string) (category : option Z)
  : M unit :=
  db <- get ;;
  put (set_transactions
         (List.map (fun r => if upper_eq (t_merchant r) rawName
                             then relabel display category r else r)
                   (transactions db))
         db).

(** [UPDATE transactions SET merchant = ?, category_id = ? WHERE id = ?] *)
Definition updateTransactionMerchant (transactionId : Z) (display : string) (category : option Z)
  : M unit :=
  db <- get ;;
  put (set_transactions
         (List.map (fun r => if Z.eqb (t_id r) transactionId
                             then relabel display category r else r)
                   (transactions db))
         db).

(** [UPDATE merchant_mapping SET display_name = ?, category_id = ? WHERE id = ?] *)
Definition update_mapping (id : Z) (display : string) (category : option Z) : M unit :=
  db <- get ;;
  put (set_merchant_mapping
         (List.map (fun m => if Z.eqb (m_id m) id
                             then {| m_id := m_id m; smsName := smsName m;
                                     displayName := display; m_categoryId := category;
                                     m_userId := m_userId m |}
                             else m)
                   (merchant_mapping db))
         (seq_merchant_mapping db) db).

(** [rawName.toUpperCase()] is the fold of [Str.toUpperCase] for a raw name
    of ASCII characters; the lookup and the batch update compare with
    SQLite's [UPPER]. *)
Definition saveMerchantName (rawName display : string) (category : option Z) (user : Z)
  : M unit :=
  existing <- getMerchantMapping rawName user ;;
  match existing with
  | Some e => update_mapping (m_id e) display category
  | None =>
      insertMerchantMapping (Str.toUpperCase rawName) display category user ;;; ret tt
  end ;;;
  updateAllTransactionsForMerchant rawName display category.

(** [s.split(/[\s_-]+/)]: the pieces between maximal runs of separators. *)
Fixpoint split_on_runs (sep : ascii -> bool) (in_run : bool) (cur : string) (s : string)
  : list string :=
  match s with
  | EmptyString => [Str.rev cur]
  | String c s' =>
      if sep c then
        if in_run then split_on_runs sep true EmptyString s'
        else Str.rev cur :: split_on_runs sep true EmptyString s'
      else split_on_runs sep false (String c cur) s'
  end.

(** For a raw name of ASCII characters ([\w], [\s], [toUpperCase] and
    [toLowerCase] are modelled there). *)
Definition getSuggestedName (rawName : string) : string :=
  (* .replace(/[^\w\s]/g, '') *)
  let stripped := Str.filter (fun c => Str.is_word c || Str.is_space c) rawName in
  let words := split_on_runs (fun c => Str.is_space c || Ascii.eqb c "_" || Ascii.eqb c "-")
                             false EmptyString stripped in
  Str.trim (Str.join " " (List.map Str.capitalize words)).

(** [categoryKeywords] of [autoCategorizeMerchant], in entry order. *)
Definition categoryKeywords : list (string * list string) := [
  ("Food & Dining", ["zomato"; "swiggy"; "dominos"; "pizza"; "restaurant"; "kfc"; "burger";
                     "cafe"; "coffee"; "bakery"; "hotel"]);
  ("Transportation", ["uber"; "ola"; "rapido"; "petrol"; "fuel"; "shell"; "hpcl"; "bpcl";
                      "metro"; "cab"; "auto"; "parking"]);
  ("Shopping", ["amazon"; "flipkart"; "myntra"; "shop"; "decathlon"; "nike"; "adidas"; "mall";
                "mart"; "retail"; "clothing"; "fashion"]);
  ("Groceries", ["bigbasket"; "blinkit"; "zepto"; "dmart"; "fresh"; "vegetable"; "fruit";
                 "dairy"; "milk"; "grocery"; "supermarket"]);
  ("Entertainment", ["netflix"; "spotify"; "hotstar"; "prime"; "youtube"; "cinema";
                     "bookmyshow"; "multiplex"; "game"; "subscription"]);
  ("Bills & Utilities", ["bescom"; "bwssb"; "electricity"; "water"; "gas"; "bill"; "act"; "jio";
                         "airtel"; "vi"; "vodafone"; "bsnl"; "recharge"; "broadband"; "mobile"]);
  ("Medical", ["pharmacy"; "hospital"; "clinic"; "medplus"; "apollo"; "doctor"; "health";
               "medical"]);
  ("Travel", ["irctc"; "flight"; "booking"; "makemytrip"; "hotel"; "train"; "bus"]);
  ("Other", ["atm"; "withdrawal"; "transfer"; "upi"; "general"; "misc"])
].

Definition autoCategorizeMerchant (merchantName : string) (user : Z) : M (option Z) :=
  cats <- getCategories user ;;
  let lowerMerchant := Str.toLowerCase merchantName in
  let by_keyword :=
    List.fold_right
      (fun entry later =>
         let '(categoryName, keywords) := entry in
         if List.existsb (fun keyword => Str.includes keyword lowerMerchant) keywords then
           match List.find (fun c => String.eqb (Str.toLowerCase (c_name c))
                                                (Str.toLowerCase categoryName)) cats with
           | Some category => Some (c_id category)
           | None => later
           end
         else later)
      None categoryKeywords in
  match by_keyword with
  | Some id => ret (Some id)
  | None =>
      if Str.includes "upi" lowerMerchant then
        ret (option_map c_id (List.find (fun c => String.eqb (c_name c) "Other") cats))
      else ret None
  end.

(** *** The account resolver *)

(** [sender.replace(/^[A-Z]{2}-/, '')] *)
Definition bank_of_sender (sender : string) : string :=
  replace_first (seqs [Bol; rep 2 (Chr Str.is_upper); lit1 "-"]) "" sender.

(** [INSERT INTO accounts (name, bank_name, last_4, type, user_id)] *)
Definition insertAccount (name bank digits kind : string) (user : Z) : M Z :=
  db <- get ;;
  if List.existsb (fun a => String.eqb (bankName a) bank && String.eqb (last4 a) digits
                            && col_is (a_userId a) user) (accounts db)
  then throw "UNIQUE constraint failed: accounts.bank_name, accounts.last_4, accounts.user_id"
  else
    let insertId := next_id (List.map a_id (accounts db)) (seq_accounts db) in
    let row := {| a_id := insertId; a_name := name; bankName := bank; last4 := digits;
                  a_type := kind; a_userId := Some user |} in
    put (set_accounts (accounts db ++ [row]) insertId db) ;;;
    ret insertId.

(** The least id of the selected rows ([ORDER BY id ASC LIMIT 1]). *)
Definition least_id (rows : list Account) : option Z :=
  match List.map a_id rows with
  | [] => None
  | i :: ids => Some (List.fold_left Z.min ids i)
  end.

Definition first_id (rows : list Account) : option Z :=
  match rows with
  | [] => None
  | a :: _ => Some (a_id a)
  end.

Definition select_account (bank digits : string) (user : Z) (db : Database) : list Account :=
  List.filter (fun a => String.eqb (bankName a) bank && String.eqb (last4 a) digits
                        && col_is (a_userId a) user) (accounts db).

Definition resolveAccountId (digits : option string) (sender : string) (user : Z)
  : M (option Z) :=
  let bank := bank_of_sender sender in
  try_catch
    (db <- get ;;
     if falsy digits then
       match least_id (List.filter (fun a => String.eqb (bankName a) bank
                                             && col_is (a_userId a) user) (accounts db)) with
       | Some id => ret (Some id)
       | None =>
           id <- insertAccount (bank ++ " Main Account") bank "XXXX" "debit" user ;;
           ret (Some id)
       end
     else
       let d := match digits with Some d => d | None => "" end in
       match first_id (select_account bank d user db) with
       | Some id => ret (Some id)
       | None =>
           id <- insertAccount (bank ++ " debit - " ++ d ++ " ") bank d "debit" user ;;
           ret (Some id)
       end)
    (fun message =>
       if Str.includes "UNIQUE constraint failed" message || Str.includes "code 2067" message
       then
         db <- get ;;
         let queryLast4 := match digits with
                           | Some d => if String.eqb d "" then "XXXX" else d
                           | None => "XXXX"
                           end in
         ret (first_id (select_account bank queryLast4 user db))
       else ret None).

(** *** The entry point *)

Record UnknownMerchant : Type := {
  rawName : string;
  suggestedName : string;
  um_amount : number;
  um_transactionId : Z;
  um_categoryId : option Z
}.

Record ProcessResult : Type := {
  success : bool;
  transactionId : option Z;
  needsNaming : option bool;
  newMerchant : option UnknownMerchant;
  error : option string
}.

Definition failed (message : string) : ProcessResult :=
  {| success := false; transactionId := None; needsNaming := None;
     newMerchant := None; error := Some message |}.

Section Processor.

Variable nfkc : string -> string.
Variable today : string.
Variable isoDateOfMillis : Z -> string.
(** The user id kept in [AsyncStorage] under [expense-tracker-storage], if any. *)
Variable storedUser : option Z.

(** [!currentUserId] *)
Definition no_user (u : option Z) : bool :=
  match u with
  | None => true
  | Some id => Z.eqb id 0
  end.

Definition processSmartSms (sms sender : string) (user : option Z)
           (smsTimestamp : option Z) (suppressNotification : bool) : M ProcessResult :=
  let currentUserId := if no_user user then storedUser else user in
  match currentUserId with
  | None => ret (failed "User not logged in")
  | Some currentUserId =>
      if Z.eqb currentUserId 0 then ret (failed "User not logged in")
      else
        let validation := validateTransactionSms sms sender in
        if negb (isValid validation) then
          ret (failed ("Not a valid transaction: " ++ reason validation ++ " "))
        else if negb (isTransaction validation) then
          ret (failed "Not a transaction SMS")
        else
          let isKnownBank := isKnownBankSender sender in
          match parseExpense nfkc today isoDateOfMillis sms isKnownBank smsTimestamp with
          | None => ret (failed "Could not parse transaction details")
          | Some parsed =>
              mapping <- getMerchantMapping (pe_merchant parsed) currentUserId ;;
              resolved <-
                match mapping with
                | Some m => ret (displayName m, m_categoryId m)
                | None =>
                    cat <- autoCategorizeMerchant (pe_merchant parsed) currentUserId ;;
                    ret (getSuggestedName (pe_merchant parsed), cat)
                end ;;
              let '(display, category) := resolved in
              account <- resolveAccountId (pe_accountLast4 parsed) sender currentUserId ;;
              id <- insertTransaction
                      {| amount := pe_amount parsed;
                         type := pe_type parsed;
                         merchant := display;
                         categoryId := category;
                         accountId := account;
                         userId := currentUserId;
                         date := pe_date parsed;
                         rawSms := Some sms;
                         notes := None;
                         originalMerchant := None |}
                      true ;;
              match mapping with
              | None =>
                  let unknownMerchant :=
                    {| rawName := pe_merchant parsed; suggestedName := display;
                       um_amount := pe_amount parsed; um_transactionId := id;
                       um_categoryId := category |} in
                  ret {| success := true; transactionId := Some id;
                         needsNaming := Some true; newMerchant := Some unknownMerchant;
                         error := None |}
              | Some _ =>
                  ret {| success := true; transactionId := Some id;
                         needsNaming := Some false; newMerchant := None; error := None |}
              end
          end
  end.

End Processor.

(** *** Unnamed-merchant discovery *)

Record UnnamedMerchant : Type := {
  un_rawName : string;
  un_count : nat;
  un_lastAmount : Q
}.

(** Rows collected under one [GROUP BY] key, in the order they are visited. *)
Fixpoint add_to_group {A : Type} (k : string) (r : A) (groups : list (string * list A))
  : list (string * list A) :=
  match groups with
  | [] => [(k, [r])]
  | (k', rs) :: groups' =>
      if String.eqb k k' then (k', (rs ++ [r])%list) :: groups'
      else (k', rs) :: add_to_group k r groups'
  end.

Definition group_by {A : Type} (key : A -> string) (rows : list A) : list (string * list A) :=
  List.fold_left (fun groups r => add_to_group (key r) r groups) rows [].

(** [ORDER BY count DESC].  SQL leaves the order among equal counts open;
    the model puts them in the reverse of the order of the groups, and the
    statements use only that the result is a permutation in descending
    order of count. *)
Fixpoint insert_by_count {A : Type} (count : A -> nat) (x : A) (sorted : list A) : list A :=
  match sorted with
  | [] => [x]
  | y :: rest =>
      if count x <=? count y then y :: insert_by_count count x rest
      else x :: sorted
  end.

Definition order_by_count_desc {A : Type} (count : A -> nat) (l : list A) : list A :=
  List.fold_right (insert_by_count count) [] l.

Definition Qlt_bool (x y : Q) : bool := negb (Qle_bool y x).

(** The row [MAX(t.amount)] comes from: the first one holding the largest
    amount.  SQLite takes the bare column [t.merchant] from that row. *)
Fixpoint max_row (best : TransactionRow) (rows : list TransactionRow) : TransactionRow :=
  match rows with
  | [] => best
  | r :: rows' => max_row (if Qlt_bool (t_amount best) (t_amount r) then r else best) rows'
  end.

(** [SELECT t.merchant as raw_name, COUNT( * ) as count, MAX(t.amount) as last_amount
     FROM transactions t
     LEFT JOIN merchant_mapping m ON UPPER(t.merchant) = UPPER(m.sms_name) AND m.user_id = ?
     WHERE m.id IS NULL AND t.user_id = ?
     GROUP BY UPPER(t.merchant)
     ORDER BY count DESC] *)
Definition has_mapping (user : Z) (mappings : list MerchantMapping) (t : TransactionRow) : bool :=
  List.existsb (fun m => upper_eq (t_merchant t) (smsName m) && col_is (m_userId m) user)
               mappings.

Definition unnamed_rows (user : Z) (db : Database) : list TransactionRow :=
  List.filter (fun t => negb (has_mapping user (merchant_mapping db) t)
                        && col_is (t_user_id t) user)
              (transactions db).

Definition unnamed_of_group (g : string * list TransactionRow) : list UnnamedMerchant :=
  match snd g with
  | [] => []
  | r :: rs =>
      let top := max_row r rs in
      [{| un_rawName := t_merchant top;
          un_count := List.length (snd g);
          un_lastAmount := t_amount top |}]
  end.

Definition getUnnamedMerchants (user : Z) : M (list UnnamedMerchant) :=
  db <- get ;;
  let groups := group_by (fun t => Str.toUpperCase (t_merchant t)) (unnamed_rows user db) in
  ret (order_by_count_desc un_count (List.flat_map unnamed_of_group groups)).

(* ================================================================== *)
(** ** The subscription detection service: the recurring-payment heuristic

    Dates are the ["YYYY-MM-DD"] strings of the [date] column, which
    [new Date(s)] reads as midnight UTC; any other text is an invalid date.
    The local-time setters of [calculateNextDate] are evaluated in a zone at
    a fixed offset at or east of UTC (such as IST), where the local calendar
    day of a UTC midnight is the UTC day. *)
(* ================================================================== *)

Inductive Frequency : Type := weekly | monthly | yearly.

Record Pattern : Type := {
  p_amount : Q;
  p_frequency : Frequency;
  p_confidence : Q;
  p_nextDate : string
}.

Record DetectedSubscription : Type := {
  s_merchant : string;
  s_amount : Q;
  s_frequency : Frequency;
  s_confidence : Q;
  s_nextExpectedDate : string;
  s_transactions : list Z
}.

Local Open Scope Z_scope.

Definition is_leap (y : Z) : bool :=
  ((y mod 4 =? 0) && negb (y mod 100 =? 0)) || (y mod 400 =? 0).

Definition days_in_month (y m : Z) : Z :=
  if m =? 2 then (if is_leap y then 29 else 28)
  else if (m =? 4) || (m =? 6) || (m =? 9) || (m =? 11) then 30
  else 31.

(** Days from 1970-01-01 to the civil day [y-m-d] (proleptic Gregorian). *)
Definition days_from_civil (y m d : Z) : Z :=
  let y' := if m <=? 2 then y - 1 else y in
  let era := y' / 400 in
  let yoe := y' - era * 400 in
  let mp := (m + 9) mod 12 in
  let doy := (153 * mp + 2) / 5 + d - 1 in
  let doe := yoe * 365 + yoe / 4 - yoe / 100 + doy in
  era * 146097 + doe - 719468.

Fixpoint digits_value (acc : Z) (s : string) : option Z :=
  match s with
  | EmptyString => Some acc
  | String c s' =>
      if Str.is_digit c then digits_value (10 * acc + digit_val c) s' else None
  end.

(** [new Date("YYYY-MM-DD")] as a civil day, [None] for an invalid date.
    A day past the end of its month (2024-02-31) is taken for invalid, as
    the specification of [Date.parse] has it; an engine that carries such a
    day into the next month differs there, and the statements speak of
    days that exist. *)
Definition parse_date (s : string) : option (Z * Z * Z) :=
  if (String.length s =? 10)%nat
     && String.eqb (substring 4 1 s) "-" && String.eqb (substring 7 1 s) "-"
  then
    match digits_value 0 (substring 0 4 s),
          digits_value 0 (substring 5 2 s),
          digits_value 0 (substring 8 2 s) with
    | Some y, Some m, Some d =>
        if (1 <=? m) && (m <=? 12) && (1 <=? d) && (d <=? days_in_month y m)
        then Some (y, m, d) else None
    | _, _, _ => None
    end
  else None.

(** [date.getTime() / (1000 * 60 * 60 * 24)] *)
Definition day_number (s : string) : option Z :=
  match parse_date s with
  | Some (y, m, d) => Some (days_from_civil y m d)
  | None => None
  end.

(** Carrying a month index past December and a day past the end of its
    month, as the [Date] setters do. *)
Fixpoint roll_days (fuel : nat) (y m d : Z) : Z * Z * Z :=
  match fuel with
  | O => (y, m, d)
  | S fuel' =>
      if d <=? days_in_month y m then (y, m, d)
      else if m =? 12 then roll_days fuel' (y + 1) 1 (d - days_in_month y m)
      else roll_days fuel' y (m + 1) (d - days_in_month y m)
  end.

Definition roll (y m d : Z) : Z * Z * Z :=
  if 12 <? m then roll_days 2 (y + 1) (m - 12) d else roll_days 2 y m d.

Definition pad (width : nat) (n : Z) : string :=
  let s := nat_to_string (Z.to_nat n) in
  let s := if (String.length s =? 0)%nat then "0"%string else s in
  (Str.map (fun _ => "0"%char) (Str.take (width - String.length s) "000000") ++ s)%string.

(** [date.toISOString().split('T')[0]] *)
Definition iso_date (ymd : Z * Z * Z) : string :=
  let '(y, m, d) := ymd in
  let year := if 9999 <? y then String "+" (pad 6 y) else pad 4 y in
  (year ++ "-" ++ pad 2 m ++ "-" ++ pad 2 d)%string.

(** [calculateNextDate] on a device whose time zone is at a fixed offset at
    or east of UTC: there the local day of [new Date(lastDate)] is the day
    written, and the setters work on it.  [None] stands for the
    [RangeError] of [toISOString] on an invalid date. *)
Definition calculateNextDate (lastDate : string) (frequency : Frequency) : option string :=
  match parse_date lastDate with
  | None => None
  | Some (y, m, d) =>
      Some (iso_date
              match frequency with
              | weekly => roll y m (d + 7)          (* setDate(getDate() + 7) *)
              | monthly => roll y (m + 1) d         (* setMonth(getMonth() + 1) *)
              | yearly => roll (y + 1) m d          (* setFullYear(getFullYear() + 1) *)
              end)
  end.

Local Open Scope Q_scope.

Definition Qsum (l : list Q) : Q := List.fold_left Qplus l 0.

Definition Qmean (l : list Q) : Q := Qsum l / inject_Z (Z.of_nat (List.length l)).

(** The absolute day differences of consecutive dates; [NaN] as soon as one
    date is invalid. *)
Fixpoint intervals (dates : list string) : list number :=
  match dates with
  | d1 :: ((d2 :: _) as rest) =>
      match day_number d1, day_number d2 with
      | Some n1, Some n2 => Num (inject_Z (Z.abs (n2 - n1)))
      | _, _ => NaN
      end :: intervals rest
  | _ => []
  end.

(** [intervals.reduce((a, b) => a + b, 0) / intervals.length] *)
Fixpoint finite (l : list number) : option (list Q) :=
  match l with
  | [] => Some []
  | NaN :: _ => None
  | Num q :: l' => option_map (cons q) (finite l')
  end.

Definition average (l : list number) : number :=
  match finite l with
  | Some [] => NaN                                    (* 0 / 0 *)
  | Some qs => Num (Qmean qs)
  | None => NaN
  end.

(** [Math.abs(a - avgAmount) / avgAmount < 0.05]; a zero mean divides by
    zero, and neither [Infinity] nor [NaN] is below 0.05. *)
Definition within_5_percent (avgAmount a : Q) : bool :=
  if Qeq_bool avgAmount 0 then false
  else Qlt_bool (Qabs (a - avgAmount) / avgAmount) (5 # 100).

Definition in_band (lo hi : Z) (x : Q) : bool :=
  Qle_bool (inject_Z lo) x && Qle_bool x (inject_Z hi).

Definition band_confidence (period : Z) (avgInterval : Q) : Q :=
  1 - Qabs (avgInterval - inject_Z period) / inject_Z period.

Definition last_of (dates : list string) : string := List.last dates ""%string.

Definition detectPatternHeuristic (amounts : list Q) (dates : list string) : option Pattern :=
  if (List.length amounts <? 2)%nat then None
  else
    let avgAmount := Qmean amounts in
    if negb (List.forallb (within_5_percent avgAmount) amounts) then None
    else
      match average (intervals dates) with
      | NaN => None
      | Num avgInterval =>
          let classified :=
            if in_band 5 9 avgInterval then Some (weekly, band_confidence 7 avgInterval)
            else if in_band 25 35 avgInterval then Some (monthly, band_confidence 30 avgInterval)
            else if in_band 350 380 avgInterval then Some (yearly, band_confidence 365 avgInterval)
            else None in
          match classified with
          | None => None
          | Some (frequency, confidence) =>
              if Qlt_bool confidence (6 # 10) then None
              else
                match calculateNextDate (last_of dates) frequency with
                | Some nextDate =>
                    Some {| p_amount := avgAmount; p_frequency := frequency;
                            p_confidence := confidence; p_nextDate := nextDate |}
                | None => None
                end
          end
      end.

(** [COALESCE(original_merchant, merchant)] *)
Definition merchant_key (r : TransactionRow) : string :=
  match t_original_merchant r with
  | Some o => o
  | None => t_merchant r
  end.

(** [WHERE type = 'debit' AND user_id = ? AND date >= ?] *)
Definition in_window (user : Z) (startDate : string) (r : TransactionRow) : bool :=
  type_eqb (t_type r) debit && col_is (t_user_id r) user && String.leb startDate (t_date r).

Definition subscription_of_group (g : string * list TransactionRow) : list DetectedSubscription :=
  match detectPatternHeuristic (List.map t_amount (snd g)) (List.map t_date (snd g)) with
  | Some pattern =>
      [{| s_merchant := fst g;
          s_amount := p_amount pattern;
          s_frequency := p_frequency pattern;
          s_confidence := p_confidence pattern;
          s_nextExpectedDate := p_nextDate pattern;
          s_transactions := List.map t_id (snd g) |}]
  | None => []
  end.

(** [startDate] is the day six months before now.  The [GROUP_CONCAT] lists
    are read back with [split(',')]; the model hands the columns over directly. *)
Definition detectSubscriptions (startDate : string) (user : Z) : M (list DetectedSubscription) :=
  db <- get ;;
  let rows := List.filter (in_window user startDate) (transactions db) in
  let groups := List.filter (fun g => (2 <=? List.length (snd g))%nat)
                            (group_by merchant_key rows) in
  let ordered := order_by_count_desc (fun g => List.length (snd g)) groups in
  ret (List.flat_map subscription_of_group ordered).

Local Close Scope Q_scope.
Local Close Scope Z_scope.

(* ================================================================== *)
(** ** database.ts: the owner-scoped writes

    [REFERENCES] clauses are not enforced: no statement of the program turns
    [PRAGMA foreign_keys] on. *)
(* ================================================================== *)

(** [Partial<Transaction>] as far as [updateTransaction] reads it; [None] is
    a field left [undefined]. *)
Record TransactionUpdates : Type := {
  u_amount : option number;
  u_type : option TxType;
  u_merchant : option string;
  u_categoryId : option (option Z);
  u_date : option string;
  u_notes : option (option string)
}.

Definition or_keep {A : Type} (update : option A) (old : A) : A :=
  match update with Some v => v | None => old end.

(** The [SET] list built from the fields that are not [undefined]. *)
Definition apply_updates (updates : TransactionUpdates) (newAmount : option Q)
           (r : TransactionRow) : TransactionRow :=
  {| t_id := t_id r;
     t_amount := or_keep newAmount (t_amount r);
     t_type := or_keep (u_type updates) (t_type r);
     t_merchant := or_keep (u_merchant updates) (t_merchant r);
     t_category_id := or_keep (u_categoryId updates) (t_category_id r);
     t_account_id := t_account_id r;
     t_user_id := t_user_id r;
     t_date := or_keep (u_date updates) (t_date r);
     t_raw_sms := t_raw_sms r;
     t_notes := or_keep (u_notes updates) (t_notes r);
     t_original_merchant := t_original_merchant r |}.

(** [WHERE id = ? AND user_id = ?] *)
Definition owned_row (id user : Z) (r : TransactionRow) : bool :=
  Z.eqb (t_id r) id && col_is (t_user_id r) user.

(** [UPDATE transactions SET ... WHERE id = ? AND user_id = ?]; a [NaN] amount
    is bound as [NULL] and fails on the first row it would be written to. *)
Definition updateTransaction (id user : Z) (updates : TransactionUpdates) : M unit :=
  if is_null (u_amount updates) && is_null (u_type updates) && is_null (u_merchant updates)
     && is_null (u_categoryId updates) && is_null (u_date updates)
     && is_null (u_notes updates)
  then ret tt                                         (* fields.length > 0 *)
  else
    db <- get ;;
    match u_amount updates with
    | Some NaN =>
        if List.existsb (owned_row id user) (transactions db)
        then throw "NOT NULL constraint failed: transactions.amount"
        else ret tt
    | Some (Num q) =>
        put (set_transactions
               (List.map (fun r => if owned_row id user r
                                   then apply_updates updates (Some q) r else r)
                         (transactions db)) db)
    | None =>
        put (set_transactions
               (List.map (fun r => if owned_row id user r
                                   then apply_updates updates None r else r)
                         (transactions db)) db)
    end.

(** [DELETE FROM transactions WHERE id = ? AND user_id = ?] *)
Definition deleteTransaction (id user : Z) : M unit :=
  db <- get ;;
  put (set_transactions
         (List.filter (fun r => negb (owned_row id user r)) (transactions db)) db).

(** [DELETE FROM merchant_mapping WHERE id = ? AND user_id = ?] *)
Definition deleteMerchantMapping (id user : Z) : M unit :=
  db <- get ;;
  put (set_merchant_mapping
         (List.filter (fun m => negb (Z.eqb (m_id m) id && col_is (m_userId m) user))
                      (merchant_mapping db))
         (seq_merchant_mapping db) db).

Definition set_categories (rows : list Category) (db : Database) : Database :=
  {| transactions := transactions db;
     merchant_mapping := merchant_mapping db;
     accounts := accounts db;
     categories := rows;
     seq_transactions := seq_transactions db;
     seq_merchant_mapping := seq_merchant_mapping db;
     seq_accounts := seq_accounts db |}.

(** [category_id = ?] *)
Definition in_category (column : option Z) (id : Z) : bool := col_is column id.

(** The three statements of the [deleteCategory] transaction, in order. *)
Definition deleteCategory (id user : Z) : M unit :=
  (* UPDATE transactions SET category_id = NULL WHERE category_id = ? AND user_id = ? *)
  (db <- get ;;
   put (set_transactions
          (List.map (fun r => if in_category (t_category_id r) id && col_is (t_user_id r) user
                              then {| t_id := t_id r; t_amount := t_amount r;
                                      t_type := t_type r; t_merchant := t_merchant r;
                                      t_category_id := None;
                                      t_account_id := t_account_id r;
                                      t_user_id := t_user_id r; t_date := t_date r;
                                      t_raw_sms := t_raw_sms r; t_notes := t_notes r;
                                      t_original_merchant := t_original_merchant r |}
                              else r)
                    (transactions db)) db)) ;;;
  (* UPDATE merchant_mapping SET category_id = NULL WHERE category_id = ? AND user_id = ? *)
  (db <- get ;;
   put (set_merchant_mapping
          (List.map (fun m => if in_category (m_categoryId m) id && col_is (m_userId m) user
                              then {| m_id := m_id m; smsName := smsName m;
                                      displayName := displayName m; m_categoryId := None;
                                      m_userId := m_userId m |}
                              else m)
                    (merchant_mapping db))
          (seq_merchant_mapping db) db)) ;;;
  (* DELETE FROM categories WHERE id = ? AND user_id = ? *)
  (db <- get ;;
   put (set_categories
          (List.filter (fun c => negb (Z.eqb (c_id c) id && col_is (c_userId c) user))
                       (categories db)) db)).

(** [SELECT * FROM transactions WHERE id = ?]: the owner is not asked for. *)
Definition getTransactionById (id : Z) : M (option TransactionRow) :=
  db <- get ;;
  ret (List.find (fun r => Z.eqb (t_id r) id) (transactions db)).

(* ================================================================== *)
(** ** Vocabulary of the statements *)
(* ================================================================== *)

(** [t] occurs in [s], letter case aside. *)
Definition includes_ci (t s : string) : bool :=
  Str.includes (Str.toLowerCase t) (Str.toLowerCase s).

Definition is_some {A : Type} (o : option A) : bool :=
  match o with Some _ => true | None => false end.

(** Reading the literal [v] at the current position, letter case aside. *)
Fixpoint eat_ci (v : string) (st : mstate) : option mstate :=
  match v with
  | EmptyString => Some st
  | String c v' =>
      match rest st with
      | String x s' =>
          if Ascii.eqb (Str.lowc x) (Str.lowc c)
          then eat_ci v' (MState (Some x) s' (caps st))
          else None
      | EmptyString => None
      end
  end.

(** The value of a decimal numeral, digit by digit. *)
Fixpoint decimal (s : string) : Z :=
  match s with
  | EmptyString => 0%Z
  | String c s' => (digit_val c * 10 ^ Z.of_nat (String.length s') + decimal s')%Z
  end.

Definition is_digit_or_comma (c : ascii) : bool := Str.is_digit c || Ascii.eqb c ",".

(** The rows collected under key [k]. *)
Definition group_of {A : Type} (k : string) (groups : list (string * list A)) : list A :=
  match List.find (fun g => String.eqb k (fst g)) groups with
  | Some g => snd g
  | None => []
  end.

(** The batch rewrite as a function of the table. *)
Definition relabel_all (rawName display : string) (category : option Z)
           (rows : list TransactionRow) : list TransactionRow :=
  List.map (fun r => if upper_eq (t_merchant r) rawName then relabel display category r else r)
           rows.

(** The display name [processSmartSms] stores: the owner's mapping if there
    is one, the suggested name otherwise. *)
Definition resolved_name (raw : string) (user : Z) (db : Database) : string :=
  match List.find (mapping_matches raw user) (merchant_mapping db) with
  | Some m => displayName m
  | None => getSuggestedName raw
  end.

(** The part of [processSmartSms] before the store is consulted: the owner
    and the parsed record of a message that is accepted. *)
Definition accepted_sms (nfkc : string -> string) (today : string) (clock : Z -> string)
           (stored : option Z) (sms sender : string) (user ts : option Z)
  : option (Z * ParsedExpense) :=
  match (if no_user user then stored else user) with
  | None => None
  | Some owner =>
      if Z.eqb owner 0 then None
      else if negb (isValid (validateTransactionSms sms sender)) then None
      else if negb (isTransaction (validateTransactionSms sms sender)) then None
      else match parseExpense nfkc today clock sms (isKnownBankSender sender) ts with
           | Some parsed => Some (owner, parsed)
           | None => None
           end
  end.

(** The record [processSmartSms] hands to [insertTransaction]. *)
Definition sms_payload (parsed : ParsedExpense) (owner : Z) (display : string)
           (category account : option Z) (sms : string) : Transaction :=
  {| amount := pe_amount parsed;
     type := pe_type parsed;
     merchant := display;
     categoryId := category;
     accountId := account;
     userId := owner;
     date := pe_date parsed;
     rawSms := Some sms;
     notes := None;
     originalMerchant := None |}.

(** The bank codes of [BANK_SENDER_IDS], one by one. *)
Definition BANK_CODES : list string :=
  ["BOBSMS"; "BOBTXN"; "BOBMS"; "HDFCBK"; "HDFCBN"; "SBIN"; "SBIUPI"; "SBIMPS"; "ICICIB";
   "AXISBK"; "AXIS"; "KOTAK"; "PNBSMS"; "PNB"; "IDFCFB"; "IDFC"; "YESBNK"; "CANARA";
   "UNIONB"; "MAHABK"; "RBL"; "INDZB"; "CBSSMS"].

(* ================================================================== *)
(** ** Sample data *)
(* ================================================================== *)

Definition example_cash : Transaction :=
  {| amount := Num 2000; type := debit; merchant := "ATM Cash"; categoryId := None;
     accountId := None; userId := 1; date := "2024-01-05"; rawSms := None;
     notes := None; originalMerchant := None |}.

Definition example_store : Database :=
  {| transactions := [new_row example_cash 2000 1]; merchant_mapping := [];
     accounts := []; categories := [];
     seq_transactions := 1; seq_merchant_mapping := 0; seq_accounts := 0 |}.

Definition sample_row (id : Z) (user : Z) (name : string) (amt : Q) (day : string)
           (category : option Z) : TransactionRow :=
  {| t_id := id; t_amount := amt; t_type := debit; t_merchant := name;
     t_category_id := category; t_account_id := None; t_user_id := Some user;
     t_date := day; t_raw_sms := None; t_notes := None; t_original_merchant := None |}.

Definition store_of (rows : list TransactionRow) (mappings : list MerchantMapping) : Database :=
  {| transactions := rows; merchant_mapping := mappings; accounts := []; categories := [];
     seq_transactions := Z.of_nat (List.length rows);
     seq_merchant_mapping := Z.of_nat (List.length mappings);
     seq_accounts := 0 |}.

(** Two owners with the same raw merchant label, and no mapping yet. *)
Definition two_owner_store : Database :=
  store_of [sample_row 1 1 "UPI-ZOMATO-123" 250 "2024-01-05" None;
            sample_row 2 2 "upi-zomato-123" 410 "2024-01-06" (Some 9%Z);
            sample_row 3 1 "Uber" 120 "2024-01-07" None] [].

(** One owner, one unnamed label: 900 paid first, 100 paid a month later. *)
Definition backlog_store : Database :=
  store_of [sample_row 1 1 "FOO" 900 "2024-01-01" None;
            sample_row 2 1 "foo" 100 "2024-02-01" None] [].

(** Owner 1 has named STARBUCKS already. *)
Definition starbucks_store : Database :=
  store_of [] [{| m_id := 1; smsName := "STARBUCKS"; displayName := "Coffee Break";
                  m_categoryId := Some 4%Z; m_userId := Some 1%Z |}].

Definition starbucks_sms : string :=
  "Rs 500.00 debited from A/c XX1234 at STARBUCKS COFFEE on 05-01-24".

(** Plain ASCII text is its own NFKC form. *)
Definition identity (s : string) : string := s.

(** A day for timestamps in samples that pass none. *)
Definition no_clock (ms : Z) : string := "1970-01-01".


(** The same three debits, the latest one stored first. *)
Definition netflix_store_unordered : Database :=
  store_of [sample_row 1 1 "Netflix" 199 "2024-03-01" None;
            sample_row 2 1 "Netflix" 199 "2024-01-01" None;
            sample_row 3 1 "Netflix" 199 "2024-01-30" None] [].

(* ================================================================== *)
(** ** Further vocabulary *)
(* ================================================================== *)

(** The phrases of the first five [SPAM_INDICATORS], one by one. *)
Definition SPAM_PHRASES : list string :=
  ["click here"; "tap here"; "http"; "win"; "won"; "lottery"; "prize";
   "offer expires"; "limited time"; "verify your"; "confirm your"; "suspicious activity"].

(** The character before the position reached after reading [a]. *)
Fixpoint prev_after (p : option ascii) (a : string) : option ascii :=
  match a with
  | EmptyString => p
  | String c a' => prev_after (Some c) a'
  end.

(** The mapping table (and its high-water mark) that [saveMerchantName]
    leaves: the first row of the owner spelled like the raw token is
    rewritten by id, or a new row is added. *)
Definition saved_mappings (rawName display : string) (category : option Z) (user : Z)
           (db : Database) : list MerchantMapping * Z :=
  match List.find (mapping_matches rawName user) (merchant_mapping db) with
  | Some e =>
      (List.map (fun m => if Z.eqb (m_id m) (m_id e)
                          then {| m_id := m_id m; smsName := smsName m;
                                  displayName := display; m_categoryId := category;
                                  m_userId := m_userId m |}
                          else m)
                (merchant_mapping db),
       seq_merchant_mapping db)
  | None =>
      let insertId := next_id (List.map m_id (merchant_mapping db)) (seq_merchant_mapping db) in
      ((merchant_mapping db
          ++ [{| m_id := insertId; smsName := Str.toUpperCase rawName;
                 displayName := display; m_categoryId := category;
                 m_userId := Some user |}])%list,
       insertId)
  end.

(** The store after [saveMerchantName]. *)
Definition saved_store (rawName display : string) (category : option Z) (user : Z)
           (db : Database) : Database :=
  set_transactions
    (relabel_all rawName display category (transactions db))
    (set_merchant_mapping (fst (saved_mappings rawName display category user db))
                          (snd (saved_mappings rawName display category user db)) db).

(** A letter or a digit. *)
Definition is_alnum (c : ascii) : bool := Str.is_alpha c || Str.is_digit c.

(** The characters of a suggested name. *)
Definition is_name_char (c : ascii) : bool := is_alnum c || Ascii.eqb c " ".

(** Two owners with a category of the same name each, and a global one. *)
Definition category_store : Database :=
  {| transactions := []; merchant_mapping := []; accounts := [];
     categories := [{| c_id := 3; c_name := "Food & Dining"; c_userId := None |};
                    {| c_id := 7; c_name := "Food & Dining"; c_userId := Some 2%Z |};
                    {| c_id := 8; c_name := "food & dining"; c_userId := Some 1%Z |};
                    {| c_id := 9; c_name := "Other"; c_userId := Some 1%Z |}];
     seq_transactions := 0; seq_merchant_mapping := 0; seq_accounts := 0 |}.

(** A pattern without capture groups. *)
Fixpoint groupless (r : regex) : bool :=
  match r with
  | Seq a b | Alt a b => groupless a && groupless b
  | Star a | LazyStar a => groupless a
  | Group _ _ => false
  | _ => true
  end.

(** The year [extractDate] writes for the captured year text. *)
Definition full_year (y : string) : Z :=
  if (decimal y <? 100)%Z then (decimal y + 2000)%Z else decimal y.

(** The days from a civil day of month [m] in year [y] to the date
    [calculateNextDate] answers for it. *)
Definition days_until_next (frequency : Frequency) (y m : Z) : Z :=
  match frequency with
  | weekly => 7
  | monthly => days_in_month y m
  | yearly =>
      if (m <=? 2)%Z then (if is_leap y then 366 else 365)%Z
      else (if is_leap (y + 1) then 366 else 365)%Z
  end.


(** The store a statement leaves, completed or not. *)
Definition store_after {A : Type} (o : outcome A) : Database :=
  match o with
  | Done _ db => db
  | Thrown _ db => db
  end.

(** What the store holds for everybody but [user]. *)
Definition rows_of_others (user : Z) (db : Database)
  : list TransactionRow * list MerchantMapping * list Category * list Account :=
  (List.filter (fun r => negb (col_is (t_user_id r) user)) (transactions db),
   List.filter (fun m => negb (col_is (m_userId m) user)) (merchant_mapping db),
   List.filter (fun c => negb (col_is (c_userId c) user)) (categories db),
   List.filter (fun a => negb (col_is (a_userId a) user)) (accounts db)).


(** Text of ASCII characters only.  On such text JavaScript's [toUpperCase]
    is the fold of the 26 letters that [Str.toUpperCase] computes. *)
Definition is_ascii_text (s : string) : bool :=
  Str.forallb (fun c => Str.code c <? 128) s.

(** A time value [new Date(ms)] can hold: at most 8.64e15 ms either side of
    the epoch.  [toISOString] throws a [RangeError] on any other number. *)
Definition in_date_range (ms : Z) : bool := (Z.abs ms <=? 8640000000000000)%Z.

(** A receipt timestamp the extractor reads without throwing: none, 0 (which
    is falsy and sends it to the text) or a time value in range. *)
Definition usable_timestamp (smsTimestamp : option Z) : bool :=
  match smsTimestamp with
  | Some ts => Z.eqb ts 0 || in_date_range ts
  | None => true
  end.

(** The date the extractor reads for a message: the day of the receipt
    timestamp when one is passed, else the date group of the text, else the
    current day. *)
Definition message_date (nfkc : string -> string) (today : string) (clock : Z -> string)
           (sms : string) (smsTimestamp : option Z) : string :=
  match smsTimestamp with
  | Some ts => if Z.eqb ts 0 then extractDate today (nfkc sms) else clock ts
  | None => extractDate today (nfkc sms)
  end.

(** [2^e <= n / d], without division. *)
Definition le_pow (e n d : Z) : Prop :=
  if (0 <=? e)%Z then (d * 2 ^ e <= n)%Z else (d <= n * 2 ^ (- e))%Z.

(** The value of a numeral with a two-digit fraction. *)
Definition two_decimal_value (w : string) (d1 d2 : ascii) : Q :=
  inject_Z (decimal (strip_commas w)) + ((10 * digit_val d1 + digit_val d2) # 100).

(** Pieces of text put end to end. *)
Definition cat (parts : list string) : string := List.fold_right append "" parts.

(** A punctuation mark, to [getSuggestedName]: neither [\w] nor [\s]. *)
Definition is_punctuation (c : ascii) : bool := negb (Str.is_word c || Str.is_space c).

(** What separates the words of a suggested name: white space, underscore. *)
Definition is_word_break (c : ascii) : bool := Str.is_space c || Ascii.eqb c "_".

(** The duplicate key, field by field: the row has the record's owner,
    amount, date, direction and merchant. *)
Definition same_key (t : Transaction) (r : TransactionRow) : Prop :=
  t_user_id r = Some (userId t)
  /\ (exists q, amount t = Num q /\ (t_amount r == q)%Q)
  /\ t_date r = date t
  /\ t_type r = type t
  /\ t_merchant r = merchant t.

(** Two records that agree on the five key fields. *)
Definition same_key_fields (t t' : Transaction) : Prop :=
  userId t = userId t' /\ amount t = amount t' /\ date t = date t'
  /\ type t = type t' /\ merchant t = merchant t'.

(** Rows that each miss the key of [example_cash] in one field: the owner,
    the amount, the date, the direction, the merchant's letter case. *)
Definition near_miss_store : Database :=
  store_of [sample_row 1 2 "ATM Cash" 2000 "2024-01-05" None;
            sample_row 2 1 "ATM Cash" 2001 "2024-01-05" None;
            sample_row 3 1 "ATM Cash" 2000 "2024-01-06" None;
            {| t_id := 4; t_amount := 2000; t_type := credit; t_merchant := "ATM Cash";
               t_category_id := None; t_account_id := None; t_user_id := Some 1%Z;
               t_date := "2024-01-05"; t_raw_sms := None; t_notes := None;
               t_original_merchant := None |};
            sample_row 5 1 "ATM CASH" 2000 "2024-01-05" None] [].

(** The same withdrawal, entered with other notes, category and account. *)
Definition example_cash_again : Transaction :=
  {| amount := Num 2000; type := debit; merchant := "ATM Cash"; categoryId := Some 6%Z;
     accountId := Some 2%Z; userId := 1; date := "2024-01-05";
     rawSms := Some "Rs 2000 withdrawn"; notes := Some "again";
     originalMerchant := None |}.

(** A bank message that carries no date. *)
Definition undated_sms : string :=
  "Rs 500.00 debited from A/c XX1234 at STARBUCKS COFFEE".





(** The text begins with a date group: two digits, [-] or [/], two digits,
    [-] or [/], two digits. *)
Definition date_prefix (s : string) : bool :=
  match s with
  | String d1 (String d2 (String s1 (String m1 (String m2 (String s2
      (String y1 (String y2 _))))))) =>
      Str.is_digit d1 && Str.is_digit d2 && Str.existsb (Ascii.eqb s1) "-/"
      && Str.is_digit m1 && Str.is_digit m2 && Str.existsb (Ascii.eqb s2) "-/"
      && Str.is_digit y1 && Str.is_digit y2
  | _ => false
  end.

(** The text does not go on with a digit. *)
Definition no_digit_next (s : string) : bool :=
  match s with
  | String c _ => negb (Str.is_digit c)
  | EmptyString => true
  end.




(* ================================================================== *)
(** * Properties *)
(* ================================================================== *)

(** ** The classifier *)

Lemma validate_promotional (sms sender : string) :
  test PROMO_SENDER sender = true ->
  isValid (validateTransactionSms sms sender) = false.
Proof.
  intros H. unfold validateTransactionSms. rewrite H. reflexivity.
Qed.

(** Whatever the sender, the confidence is one of 0, 1/2 and 1. *)
Lemma confidence_values (sms sender : string) :
  let c := confidence (validateTransactionSms sms sender) in
  (c == 0 \/ c == 1 # 2 \/ c == 1)%Q.
Proof.
  unfold validateTransactionSms.
  destruct (test PROMO_SENDER sender); [left; reflexivity|].
  destruct (0 <? count_matches SPAM_INDICATORS sms); [left; reflexivity|].
  destruct (isKnownBankSender sender), (2 <=? count_matches BANK_INDICATORS sms); simpl.
  - right; right; reflexivity.
  - right; left; reflexivity.
  - right; left; reflexivity.
  - left; reflexivity.
Qed.

(** C9: a sender outside the bank allow-list is never accepted, whatever the
    body says: without the known-sender bonus the confidence is at most 1/2,
    strictly below the 0.8 asked of unknown senders. *)
Theorem unknown_sender_never_valid (sms sender : string) :
  isKnownBankSender sender = false ->
  isValid (validateTransactionSms sms sender) = false
  /\ (confidence (validateTransactionSms sms sender) <= 1 # 2)%Q
  /\ (1 # 2 < 8 # 10)%Q.
Proof.
  intros Hunknown. unfold validateTransactionSms. rewrite Hunknown.
  destruct (test PROMO_SENDER sender).
  - simpl. repeat split; discriminate.
  - destruct (0 <? count_matches SPAM_INDICATORS sms).
    + simpl. repeat split; discriminate.
    + destruct (2 <=? count_matches BANK_INDICATORS sms); simpl;
        repeat split; try reflexivity; discriminate.
Qed.

Lemma unknown_sender_never_valid_witness :
  isKnownBankSender "AD-FOOBAR" = false
  /\ isValid (validateTransactionSms
                "Rs 500.00 debited from A/c XX1234 via UPI txn 4455" "AD-FOOBAR") = false.
Proof.
  split.
  - vm_compute. reflexivity.
  - apply (unknown_sender_never_valid
             "Rs 500.00 debited from A/c XX1234 via UPI txn 4455" "AD-FOOBAR").
    vm_compute. reflexivity.
Defined.

(** C4: with exactly one bank-indicator category in the body, no spam
    indicator and no promotional marker on either sender, the same body is
    accepted from a known bank (confidence 1/2, threshold 0.4) and rejected
    from an unknown sender (confidence 0, threshold 0.8). *)
Theorem accept_threshold_depends_on_sender (sms known unknown : string) :
  count_matches BANK_INDICATORS sms = 1 ->
  count_matches SPAM_INDICATORS sms = 0 ->
  test PROMO_SENDER known = false ->
  test PROMO_SENDER unknown = false ->
  isKnownBankSender known = true ->
  isKnownBankSender unknown = false ->
  let accepted := validateTransactionSms sms known in
  let rejected := validateTransactionSms sms unknown in
  isValid accepted = true
  /\ (confidence accepted == 1 # 2)%Q /\ (4 # 10 <= confidence accepted)%Q
  /\ isValid rejected = false
  /\ (confidence rejected == 0)%Q /\ (confidence rejected < 8 # 10)%Q.
Proof.
  intros Hone Hspam Hp1 Hp2 Hk Hu. unfold validateTransactionSms.
  rewrite Hone, Hspam, Hp1, Hp2, Hk, Hu. simpl.
  repeat split; try reflexivity; discriminate.
Qed.

Lemma accept_threshold_depends_on_sender_witness :
  count_matches BANK_INDICATORS "Hello from your wallet" = 1
  /\ isValid (validateTransactionSms "Hello from your wallet" "AD-HDFCBK") = true
  /\ isValid (validateTransactionSms "Hello from your wallet" "AD-FOOBAR") = false.
Proof.
  pose proof (accept_threshold_depends_on_sender
                "Hello from your wallet" "AD-HDFCBK" "AD-FOOBAR") as H.
  split; [vm_compute; reflexivity|].
  destruct H as (Ha & _ & _ & Hr & _); try (vm_compute; reflexivity).
  split; assumption.
Defined.

(** ** The transaction persister *)

Lemma type_eqb_refl (a : TxType) : type_eqb a a = true.
Proof. destruct a; reflexivity. Qed.

Lemma col_is_refl (v : Z) : col_is (Some v) v = true.
Proof. simpl. apply Z.eqb_refl. Qed.

Lemma same_transaction_new_row (t : Transaction) (q : Q) (id : Z) :
  amount t = Num q -> same_transaction t (new_row t q id) = true.
Proof.
  intros Hq. unfold same_transaction. rewrite Hq. simpl.
  rewrite Z.eqb_refl, Qeq_bool_refl, !String.eqb_refl, type_eqb_refl. reflexivity.
Qed.

Lemma filter_head_in {A : Type} (f : A -> bool) (l : list A) (x : A) :
  In x l -> f x = true ->
  exists y rest, List.filter f l = y :: rest /\ In y l /\ f y = true.
Proof.
  induction l as [|a l IH]; simpl; [tauto|].
  intros Hin Hf. destruct (f a) eqn:Ha.
  - exists a, (List.filter f l). repeat split; auto.
  - destruct Hin as [->|Hin]; [congruence|].
    destruct (IH Hin Hf) as (y & rest & Heq & Hy & Hfy).
    exists y, rest. repeat split; auto.
Qed.

Lemma filter_app_single {A : Type} (f : A -> bool) (l : list A) (x : A) :
  List.filter f l = [] -> f x = true -> List.filter f (l ++ [x]) = [x].
Proof.
  intros Hnone Hx. rewrite List.filter_app, Hnone. simpl. rewrite Hx. reflexivity.
Qed.

(** What one call does: a duplicate found, a row appended, or the insert refused. *)
Lemma insertTransaction_cases (t : Transaction) (check : bool) (db : Database) :
  (exists row rest, check = true
      /\ List.filter (same_transaction t) (transactions db) = row :: rest
      /\ insertTransaction t check db = Done (t_id row) db)
  \/ (exists q, amount t = Num q
      /\ (check = true -> List.filter (same_transaction t) (transactions db) = [])
      /\ let id := next_id (List.map t_id (transactions db)) (seq_transactions db) in
         insertTransaction t check db = Done id (add_transaction (new_row t q id) db))
  \/ (amount t = NaN /\ exists msg, insertTransaction t check db = Thrown msg db).
Proof.
  unfold insertTransaction, bind, get, put, ret, throw.
  destruct check.
  - destruct (List.filter (same_transaction t) (transactions db)) as [|row rest] eqn:Hf.
    + destruct (amount t) as [|q] eqn:Hq.
      * right; right. eauto.
      * right; left. exists q. auto.
    + left. exists row, rest. auto.
  - destruct (amount t) as [|q] eqn:Hq.
    + right; right. eauto.
    + right; left. exists q. repeat split. discriminate.
Qed.


(** ** The merchant learner *)

Lemma upc_idempotent (c : ascii) : Str.upc (Str.upc c) = Str.upc c.
Proof. destruct c as [[] [] [] [] [] [] [] []]; reflexivity. Qed.

Lemma toUpperCase_idempotent (s : string) :
  Str.toUpperCase (Str.toUpperCase s) = Str.toUpperCase s.
Proof.
  unfold Str.toUpperCase. induction s as [|c s IH]; simpl; [reflexivity|].
  rewrite upc_idempotent, IH. reflexivity.
Qed.

Lemma upper_eq_toUpperCase (s : string) : upper_eq (Str.toUpperCase s) s = true.
Proof. unfold upper_eq. rewrite toUpperCase_idempotent. apply String.eqb_refl. Qed.

Lemma find_none_filter {A : Type} (f : A -> bool) (l : list A) :
  List.find f l = None -> List.filter f l = [].
Proof.
  induction l as [|a l IH]; simpl; [reflexivity|].
  destruct (f a); [discriminate|exact IH].
Qed.

Lemma find_some_filter {A : Type} (f : A -> bool) (l : list A) (x : A) :
  List.find f l = Some x -> 1 <= List.length (List.filter f l).
Proof.
  induction l as [|a l IH]; simpl; [discriminate|].
  destruct (f a); simpl; [lia|exact IH].
Qed.

Lemma filter_map_same {A : Type} (f : A -> bool) (g : A -> A) (l : list A) :
  (forall x, f (g x) = f x) ->
  List.length (List.filter f (List.map g l)) = List.length (List.filter f l).
Proof.
  intros Hfg. induction l as [|a l IH]; simpl; [reflexivity|].
  rewrite Hfg. destruct (f a); simpl; rewrite IH; reflexivity.
Qed.

(** [saveMerchantName] always completes; afterwards the owner has one mapping
    row for the raw token if it had at most one before (never a second one),
    and the transaction table is the batch rewrite of the old one. *)
Lemma saveMerchantName_completes (rawName display : string) (category : option Z)
      (user : Z) (db : Database) :
  exists db',
    saveMerchantName rawName display category user db = Done tt db'
    /\ transactions db' = relabel_all rawName display category (transactions db)
    /\ List.length (List.filter (mapping_matches rawName user) (merchant_mapping db'))
       = Nat.max 1 (List.length (List.filter (mapping_matches rawName user)
                                             (merchant_mapping db))).
Proof.
  unfold saveMerchantName, getMerchantMapping, updateAllTransactionsForMerchant,
    bind, get, put, ret.
  destruct (List.find (mapping_matches rawName user) (merchant_mapping db)) as [e|] eqn:Hfind.
  - unfold update_mapping, bind, get, put. eexists. split; [reflexivity|].
    split; [reflexivity|]. simpl.
    rewrite filter_map_same.
    + apply find_some_filter in Hfind.
      destruct (List.length (List.filter (mapping_matches rawName user) (merchant_mapping db)));
        [lia|reflexivity].
    + intros m. destruct (Z.eqb (m_id m) (m_id e)); reflexivity.
  - unfold insertMerchantMapping, bind, get, put, ret, throw.
    assert (Hfree : List.existsb
                      (fun m => String.eqb (smsName m) (Str.toUpperCase rawName)
                                && col_is (m_userId m) user) (merchant_mapping db) = false).
    { apply not_true_is_false. intros Hex. apply List.existsb_exists in Hex.
      destruct Hex as (m & Hin & Hm). apply andb_true_iff in Hm. destruct Hm as [Hname Huser].
      apply String.eqb_eq in Hname.
      apply (List.find_none _ _ Hfind) in Hin. unfold mapping_matches in Hin.
      rewrite Hname, upper_eq_toUpperCase, Huser in Hin. discriminate. }
    rewrite Hfree. eexists. split; [reflexivity|]. split; [reflexivity|]. simpl.
    rewrite List.filter_app, (find_none_filter _ _ Hfind). simpl.
    unfold mapping_matches at 1. simpl.
    rewrite upper_eq_toUpperCase, Z.eqb_refl. reflexivity.
Qed.

(** What the batch rewrite does to one row: a row whose label matches is
    relabelled whoever owns it, any other row is kept. *)
Lemma relabel_all_rows (rawName display : string) (category : option Z)
      (rows : list TransactionRow) (r' : TransactionRow) :
  In r' (relabel_all rawName display category rows) <->
  exists r, In r rows
    /\ ((upper_eq (t_merchant r) rawName = true /\ r' = relabel display category r)
        \/ (upper_eq (t_merchant r) rawName = false /\ r' = r)).
Proof.
  unfold relabel_all. rewrite List.in_map_iff. split.
  - intros (r & Hr & Hin). exists r. split; [exact Hin|].
    destruct (upper_eq (t_merchant r) rawName); [left|right]; auto.
  - intros (r & Hin & [[Hm ->]|[Hm ->]]); exists r; rewrite Hm; auto.
Qed.

(** C1: naming a merchant for owner 1 also rewrites the matching
    transaction of owner 2, whose merchant and category are replaced. *)
Theorem saveMerchantName_rewrites_other_owner :
  exists db',
    saveMerchantName "UPI-ZOMATO-123" "Zomato" (Some 7%Z) 1 two_owner_store = Done tt db'
    /\ List.map (fun r => (t_user_id r, t_merchant r, t_category_id r))
                (transactions two_owner_store)
       = [(Some 1%Z, "UPI-ZOMATO-123", None);
          (Some 2%Z, "upi-zomato-123", Some 9%Z);
          (Some 1%Z, "Uber", None)]
    /\ List.map (fun r => (t_user_id r, t_merchant r, t_category_id r)) (transactions db')
       = [(Some 1%Z, "Zomato", Some 7%Z);
          (Some 2%Z, "Zomato", Some 7%Z);
          (Some 1%Z, "Uber", None)].
Proof.
  eexists. split; [vm_compute; reflexivity|]. split; reflexivity.
Qed.

(** C8: for the label FOO, paid 900 and a month later 100, the entry carries
    900, the largest amount, not the 100 of the most recent occurrence. *)
Theorem getUnnamedMerchants_reports_largest_amount :
  getUnnamedMerchants 1 backlog_store
  = Done [{| un_rawName := "FOO"; un_count := 2; un_lastAmount := 900 |}] backlog_store
  /\ List.map (fun r => (t_date r, t_amount r)) (transactions backlog_store)
     = [("2024-01-01", 900%Q); ("2024-02-01", 100%Q)].
Proof.
  split; vm_compute; reflexivity.
Qed.

(** ** The entry point *)

Lemma bind_done {A B : Type} (m : M A) (f : A -> M B) (db db' : Database) (a : A) :
  m db = Done a db' -> bind m f db = f a db'.
Proof. intros H. unfold bind. rewrite H. reflexivity. Qed.

Lemma getMerchantMapping_run (name : string) (user : Z) (db : Database) :
  getMerchantMapping name user db
  = Done (List.find (mapping_matches name user) (merchant_mapping db)) db.
Proof. reflexivity. Qed.

Lemma autoCategorizeMerchant_reads (name : string) (user : Z) (db : Database) :
  exists category, autoCategorizeMerchant name user db = Done category db.
Proof.
  unfold autoCategorizeMerchant, getCategories, bind, get, ret.
  match goal with |- context [match ?x with Some _ => _ | None => _ end] => destruct x end.
  - eexists; reflexivity.
  - destruct (Str.includes "upi" (Str.toLowerCase name)); eexists; reflexivity.
Qed.

(** The account resolver never throws and touches the [accounts] table only. *)
Lemma resolveAccountId_frame (digits : option string) (sender : string) (user : Z)
      (db : Database) :
  exists account db',
    resolveAccountId digits sender user db = Done account db'
    /\ transactions db' = transactions db
    /\ merchant_mapping db' = merchant_mapping db
    /\ categories db' = categories db
    /\ seq_transactions db' = seq_transactions db.
Proof.
  unfold resolveAccountId, try_catch, insertAccount, bind, get, put, ret, throw.
  destruct (falsy digits).
  - match goal with |- context [least_id ?l] => destruct (least_id l) end.
    + do 2 eexists. split; [reflexivity|]. auto.
    + match goal with |- context [List.existsb ?f ?l] => destruct (List.existsb f l) end.
      * match goal with |- context [if ?c then _ else _] => destruct c end;
          do 2 eexists; (split; [reflexivity|]); auto.
      * do 2 eexists. split; [reflexivity|]. auto.
  - match goal with |- context [first_id ?l] => destruct (first_id l) end.
    + do 2 eexists. split; [reflexivity|]. auto.
    + match goal with |- context [List.existsb ?f ?l] => destruct (List.existsb f l) end.
      * match goal with |- context [if ?c then _ else _] => destruct c end;
          do 2 eexists; (split; [reflexivity|]); auto.
      * do 2 eexists. split; [reflexivity|]. auto.
Qed.


(** C3: the end-to-end message of a known bank, for an owner who has named
    STARBUCKS: the inserted row holds the display name in [merchant] and
    [NULL] in [original_merchant], although the parsed raw token is known. *)
Theorem processSmartSms_leaves_original_merchant_null :
  option_map pe_merchant (parseExpense identity "2026-01-01" no_clock starbucks_sms true None)
  = Some "Starbucks"
  /\ exists res db',
       processSmartSms identity "2026-01-01" no_clock None
                       starbucks_sms "AD-HDFCBK" (Some 1%Z) None false starbucks_store
       = Done res db'
       /\ success res = true
       /\ List.map (fun r => (t_merchant r, t_original_merchant r)) (transactions db')
          = [("Coffee Break", None)].
Proof.
  split; [vm_compute; reflexivity|].
  do 2 eexists. split; [vm_compute; reflexivity|]. split; reflexivity.
Qed.

(** ** The matcher is sound

    [matches r st st'] says that pattern [r] can take the matcher from
    position [st] to position [st'].  Whatever [rmatch] answers is reached
    along such a path. *)

Lemma rmatch_sound (r : regex) :
  forall (k : cont) (st res : mstate),
    rmatch r k st = Some res ->
    exists st', matches r st st' /\ k st' = Some res.
Proof.
  induction r as [|p|a IHa b IHb|a IHa b IHb|a IHa|a IHa|i a IHa| | |];
    intros k st res H; cbn [rmatch] in H.
  - exists st. split; [constructor|exact H].
  - destruct st as [pv s cs]. simpl in H. destruct s as [|c s]; [discriminate|].
    destruct (p c) eqn:Hp; [|discriminate].
    eexists. split; [constructor; exact Hp|exact H].
  - apply IHa in H. destruct H as (st2 & Ha & H).
    apply IHb in H. destruct H as (st3 & Hb & H).
    exists st3. split; [econstructor; eassumption|exact H].
  - destruct (rmatch a k st) as [res'|] eqn:Ha.
    + inversion H; subst res'. apply IHa in Ha. destruct Ha as (st' & Ha & Hk).
      exists st'. split; [apply M_AltL; exact Ha|exact Hk].
    + apply IHb in H. destruct H as (st' & Hb & Hk).
      exists st'. split; [apply M_AltR; exact Hb|exact Hk].
  - revert H. generalize (S (String.length (rest st))) as n. intros n. revert st.
    induction n as [|n IHn]; intros st H; simpl in H.
    + exists st. split; [constructor|exact H].
    + match type of H with
      | match ?m with Some _ => _ | None => _ end = _ => destruct m as [res'|] eqn:Hm
      end.
      * inversion H; subst res'. apply IHa in Hm. destruct Hm as (st2 & Ha & Hk).
        destruct (shorter st2 st); [|discriminate].
        apply IHn in Hk. destruct Hk as (st3 & Hs & Hk).
        exists st3. split; [eapply M_StarCons; eassumption|exact Hk].
      * exists st. split; [constructor|exact H].
  - revert H. generalize (S (String.length (rest st))) as n. intros n. revert st.
    induction n as [|n IHn]; intros st H; simpl in H.
    + exists st. split; [constructor|exact H].
    + destruct (k st) as [res'|] eqn:Hk0.
      * inversion H; subst res'. exists st. split; [constructor|exact Hk0].
      * apply IHa in H. destruct H as (st2 & Ha & Hk).
        destruct (shorter st2 st); [|discriminate].
        apply IHn in Hk. destruct Hk as (st3 & Hs & Hk).
        exists st3. split; [eapply M_LazyCons; eassumption|exact Hk].
  - apply IHa in H. destruct H as (st' & Ha & Hk).
    eexists. split; [constructor; exact Ha|exact Hk].
  - destruct (prev st) eqn:Hp; [discriminate|].
    exists st. split; [constructor; exact Hp|exact H].
  - destruct (rest st) eqn:Hr; [|discriminate].
    exists st. split; [constructor; exact Hr|exact H].
  - destruct (xorb (word_before st) (word_after st)) eqn:Hx; [|discriminate].
    exists st. split; [constructor; exact Hx|exact H].
Qed.

(** *** Strings *)

Lemma append_nil_r (s : string) : s ++ "" = s.
Proof. induction s as [|c s IH]; simpl; [reflexivity|rewrite IH; reflexivity]. Qed.

Lemma append_assoc (a b c : string) : (a ++ b) ++ c = a ++ (b ++ c).
Proof. induction a as [|x a IH]; simpl; [reflexivity|rewrite IH; reflexivity]. Qed.

Lemma length_append (a b : string) :
  String.length (a ++ b) = String.length a + String.length b.
Proof. induction a as [|x a IH]; simpl; [reflexivity|rewrite IH; reflexivity]. Qed.

Lemma take_append (a b : string) : Str.take (String.length a) (a ++ b) = a.
Proof.
  unfold Str.take. induction a as [|x a IH]; simpl.
  - destruct b; reflexivity.
  - rewrite IH. reflexivity.
Qed.

Lemma consumed_append (w s : string) : consumed (w ++ s) s = w.
Proof.
  unfold consumed. rewrite length_append.
  replace (String.length w + String.length s - String.length s) with (String.length w) by lia.
  apply take_append.
Qed.

Lemma forallb_append (p : ascii -> bool) (a b : string) :
  Str.forallb p (a ++ b) = Str.forallb p a && Str.forallb p b.
Proof.
  induction a as [|x a IH]; simpl; [reflexivity|].
  rewrite IH, andb_assoc. reflexivity.
Qed.

Lemma forallb_impl (p q : ascii -> bool) (s : string) :
  (forall c, p c = true -> q c = true) ->
  Str.forallb p s = true -> Str.forallb q s = true.
Proof.
  intros Hpq. induction s as [|c s IH]; simpl; [reflexivity|].
  intros H. apply andb_true_iff in H. destruct H as [Hc Hs].
  rewrite (Hpq _ Hc), (IH Hs). reflexivity.
Qed.

Lemma rev_onto_append (s acc : string) : Str.rev_onto s acc = Str.rev s ++ acc.
Proof.
  unfold Str.rev. revert acc. induction s as [|c s IH]; intros acc; simpl; [reflexivity|].
  rewrite IH, (IH (String c "")), append_assoc. reflexivity.
Qed.

Lemma rev_append (a b : string) : Str.rev (a ++ b) = Str.rev b ++ Str.rev a.
Proof.
  induction a as [|c a IH]; simpl.
  - rewrite append_nil_r. reflexivity.
  - unfold Str.rev in *. simpl.
    rewrite (rev_onto_append (a ++ b)), (rev_onto_append a). unfold Str.rev.
    rewrite IH, append_assoc. reflexivity.
Qed.

Lemma rev_involutive (s : string) : Str.rev (Str.rev s) = s.
Proof.
  induction s as [|c s IH]; [reflexivity|].
  unfold Str.rev at 2. simpl. rewrite rev_onto_append, rev_append, IH. reflexivity.
Qed.

Lemma forallb_rev (p : ascii -> bool) (s : string) :
  Str.forallb p (Str.rev s) = Str.forallb p s.
Proof.
  induction s as [|c s IH]; [reflexivity|].
  unfold Str.rev. simpl. rewrite rev_onto_append, forallb_append, IH. simpl.
  rewrite andb_true_r, andb_comm. reflexivity.
Qed.

Lemma trimStart_none (s : string) :
  Str.forallb (fun c => negb (Str.is_space c)) s = true -> Str.trimStart s = s.
Proof.
  destruct s as [|c s]; simpl; [reflexivity|].
  intros H. apply andb_true_iff in H. destruct H as [Hc _].
  apply negb_true_iff in Hc. rewrite Hc. reflexivity.
Qed.

(** [trim] leaves a string without white space as it is. *)
Lemma trim_none (s : string) :
  Str.forallb (fun c => negb (Str.is_space c)) s = true -> Str.trim s = s.
Proof.
  intros H. unfold Str.trim. rewrite (trimStart_none _ H).
  rewrite trimStart_none by (rewrite forallb_rev; exact H).
  apply rev_involutive.
Qed.

Lemma includes_char_false (x : ascii) (s : string) :
  Str.forallb (fun c => negb (Ascii.eqb x c)) s = true ->
  Str.includes (String x "") s = false.
Proof.
  induction s as [|c s IH]; simpl; [reflexivity|].
  intros H. apply andb_true_iff in H. destruct H as [Hc Hs].
  apply negb_true_iff in Hc.
  destruct (ascii_dec x c) as [->|Hne]; [rewrite Ascii.eqb_refl in Hc; discriminate|].
  simpl. apply IH. exact Hs.
Qed.

Lemma includes_char_middle (x : ascii) (a b : string) :
  Str.includes (String x "") (a ++ String x b) = true.
Proof.
  induction a as [|c a IH]; simpl.
  - destruct (ascii_dec x x) as [_|Hne]; [|congruence]. destruct b; reflexivity.
  - rewrite IH. apply orb_true_r.
Qed.

(** *** What a successful match tells *)

Lemma matches_rest (r : regex) (st st' : mstate) :
  matches r st st' -> exists w, rest st = w ++ rest st'.
Proof.
  induction 1; simpl;
    try (exists ""; reflexivity);
    try (destruct IHmatches as (w & Hw); exists w; exact Hw).
  - exists (String c ""). reflexivity.
  - destruct IHmatches1 as (w1 & H1), IHmatches2 as (w2 & H2).
    exists (w1 ++ w2). rewrite H1, H2, append_assoc. reflexivity.
  - destruct IHmatches1 as (w1 & H1), IHmatches2 as (w2 & H2).
    exists (w1 ++ w2). rewrite H1, H2, append_assoc. reflexivity.
  - destruct IHmatches1 as (w1 & H1), IHmatches2 as (w2 & H2).
    exists (w1 ++ w2). rewrite H1, H2, append_assoc. reflexivity.
Qed.

Lemma matches_chr (p : ascii -> bool) (st st' : mstate) :
  matches (Chr p) st st' ->
  exists c, rest st = String c (rest st') /\ p c = true /\ caps st' = caps st.
Proof. intros H. inversion H; subst. exists c. auto. Qed.

(** A run [p*]: the characters read all satisfy [p]. *)
Lemma matches_star_chr (p : ascii -> bool) (st st' : mstate) :
  matches (Star (Chr p)) st st' ->
  exists w, rest st = w ++ rest st' /\ Str.forallb p w = true /\ caps st' = caps st.
Proof.
  intros H. remember (Star (Chr p)) as r eqn:Hr. induction H; inversion Hr; subst.
  - exists "". auto.
  - destruct (IHmatches2 eq_refl) as (w & Hw & Hp & Hc).
    apply matches_chr in H. destruct H as (c & Hc1 & Hpc & Hcaps).
    exists (String c w). rewrite Hc1, Hw. simpl. rewrite Hpc, Hp, Hc, Hcaps. auto.
Qed.

(** [exec] answers with a match of the whole pattern, recorded as group 0. *)
Lemma exec_from_sound (r : regex) (s : string) :
  forall (p : option ascii) (skipped before : string) (st : mstate),
    exec_from r p skipped s = Some (before, st) ->
    exists p0 s0, matches (Group 0 r) (MState p0 s0 []) st.
Proof.
  induction s as [|c s IH]; intros p skipped before st H; simpl in H.
  - destruct (match_here r p "") as [st1|] eqn:Hm; [|discriminate].
    inversion H; subst. unfold match_here in Hm.
    apply rmatch_sound in Hm. destruct Hm as (st' & Hm & Hk). inversion Hk; subst. eauto.
  - destruct (match_here r p (String c s)) as [st1|] eqn:Hm.
    + inversion H; subst. unfold match_here in Hm.
      apply rmatch_sound in Hm. destruct Hm as (st' & Hm & Hk). inversion Hk; subst. eauto.
    + eapply IH. exact H.
Qed.

Lemma capture_sound (i : nat) (r : regex) (s h : string) :
  capture i r s = Some h ->
  exists p0 s0 st, matches (Group 0 r) (MState p0 s0 []) st /\ lookup i (caps st) = Some h.
Proof.
  unfold capture, exec. destruct (exec_from r None "" s) as [[before st]|] eqn:He; [|discriminate].
  intros H. apply exec_from_sound in He. destruct He as (p0 & s0 & Hm). eauto.
Qed.

(** ** The field extractor *)

Ltac inv H := inversion H; subst; clear H.

Lemma matches_seq (a b : regex) (st st' : mstate) :
  matches (Seq a b) st st' -> exists mid, matches a st mid /\ matches b mid st'.
Proof. intros H. inv H. eauto. Qed.

Lemma matches_group (i : nat) (a : regex) (st st' : mstate) :
  matches (Group i a) st st' ->
  exists mid, matches a st mid /\ st' = set_cap i (consumed (rest st) (rest mid)) mid.
Proof. intros H. inv H. eauto. Qed.

Lemma matches_alt (a b : regex) (st st' : mstate) :
  matches (Alt a b) st st' -> matches a st st' \/ matches b st st'.
Proof. intros H. inv H; auto. Qed.

Lemma matches_empty (st st' : mstate) : matches Empty st st' -> st' = st.
Proof. intros H. inv H. reflexivity. Qed.

(** A run [p+]. *)
Lemma matches_plus_chr (p : ascii -> bool) (st st' : mstate) :
  matches (plus (Chr p)) st st' ->
  exists c w, rest st = String c w ++ rest st'
              /\ p c = true /\ Str.forallb p w = true /\ caps st' = caps st.
Proof.
  intros H. apply matches_seq in H. destruct H as (mid & H1 & H2).
  apply matches_chr in H1. destruct H1 as (c & Hc & Hp & Hcaps).
  apply matches_star_chr in H2. destruct H2 as (w & Hw & Hpw & Hcaps').
  exists c, w. rewrite Hc, Hw. simpl. rewrite Hcaps', Hcaps. auto.
Qed.

(** The text [UPI_PATTERN] captures: handle characters, ["@"], letters. *)
Lemma upi_capture_shape (sms h : string) :
  capture 1 UPI_PATTERN sms = Some h ->
  exists c1 w1 c2 w2,
    h = String c1 w1 ++ String "@" (String c2 w2)
    /\ is_handle_char c1 = true /\ Str.forallb is_handle_char w1 = true
    /\ Str.is_alpha c2 = true /\ Str.forallb Str.is_alpha w2 = true.
Proof.
  intros H. apply capture_sound in H. destruct H as (p0 & s0 & st & Hm & Hcap).
  apply matches_group in Hm. destruct Hm as (st1 & Hm & ->).
  unfold UPI_PATTERN in Hm.
  apply matches_group in Hm. destruct Hm as (st2 & Hm & ->).
  simpl in Hcap. inv Hcap.
  cbn [seqs] in Hm.
  apply matches_seq in Hm. destruct Hm as (m1 & Hlocal & Hm).
  apply matches_seq in Hm. destruct Hm as (m2 & Hat & Hdomain).
  apply matches_plus_chr in Hlocal. destruct Hlocal as (c1 & w1 & Hr1 & Hc1 & Hw1 & _).
  apply matches_chr in Hat. destruct Hat as (a & Hr2 & Ha & _).
  apply matches_plus_chr in Hdomain. destruct Hdomain as (c2 & w2 & Hr3 & Hc2 & Hw2 & _).
  apply Ascii.eqb_eq in Ha. subst a.
  exists c1, w1, c2, w2. repeat split; trivial.
  simpl in Hr1. rewrite Hr1, Hr2, Hr3.
  change (String c1 (w1 ++ String "@" (String c2 w2 ++ rest st2)))
    with (String c1 w1 ++ (String "@" (String c2 w2) ++ rest st2)).
  rewrite <- append_assoc. apply consumed_append.
Qed.

Lemma handle_char_no_space (c : ascii) :
  is_handle_char c || Ascii.eqb c "@" = true ->
  negb (Str.is_space c) = true /\ negb (Ascii.eqb " " c) = true.
Proof. destruct c as [[] [] [] [] [] [] [] []]; simpl; intros H; try discriminate; auto. Qed.

Lemma alpha_handle_char (c : ascii) : Str.is_alpha c = true -> is_handle_char c = true.
Proof. unfold is_handle_char. intros ->. reflexivity. Qed.

(** A payment handle passes through [cleanMerchantName] untouched. *)
Lemma cleanMerchantName_handle (sms h : string) :
  capture 1 UPI_PATTERN sms = Some h ->
  cleanMerchantName h = h /\ h <> "".
Proof.
  intros H. apply upi_capture_shape in H.
  destruct H as (c1 & w1 & c2 & w2 & -> & Hc1 & Hw1 & Hc2 & Hw2).
  assert (Hall : Str.forallb (fun c => is_handle_char c || Ascii.eqb c "@")
                             (String c1 w1 ++ String "@" (String c2 w2)) = true).
  { rewrite forallb_append. simpl. rewrite Hc1, (alpha_handle_char _ Hc2). simpl.
    rewrite (forallb_impl is_handle_char _ w1), (forallb_impl Str.is_alpha _ w2); trivial.
    - intros c Hc. rewrite (alpha_handle_char _ Hc). reflexivity.
    - intros c Hc. rewrite Hc. reflexivity. }
  split; [|discriminate].
  unfold cleanMerchantName.
  rewrite trim_none
    by (revert Hall; apply forallb_impl; intros c Hc; apply handle_char_no_space; exact Hc).
  rewrite (includes_char_middle "@" (String c1 w1) (String c2 w2)).
  rewrite includes_char_false
    by (revert Hall; apply forallb_impl; intros c Hc; apply handle_char_no_space; exact Hc).
  reflexivity.
Qed.

(** C6: when the extraction succeeds and the first payment handle of the
    text does not contain ".com", the merchant returned is that handle,
    character for character: [cleanMerchantName] returns it before the
    knowledge base, the prefix stripping and the title-casing are reached. *)
Theorem payment_handle_kept_verbatim
        (nfkc : string -> string) (today : string) (clock : Z -> string)
        (rawSms : string) (isKnownBank : bool) (ts : option Z)
        (parsed : ParsedExpense) (handle : string) :
  parseExpenseWithRegex nfkc today clock rawSms isKnownBank ts = Some parsed ->
  capture 1 UPI_PATTERN (nfkc rawSms) = Some handle ->
  Str.includes ".com" handle = false ->
  pe_merchant parsed = handle /\ cleanMerchantName handle = handle.
Proof.
  intros Hparse Hupi Hcom.
  destruct (cleanMerchantName_handle _ Hupi) as [Hclean Hne].
  split; [|exact Hclean].
  unfold parseExpenseWithRegex, normalizeMessage in Hparse.
  destruct (negb (isValidTransaction (nfkc rawSms))); [discriminate|].
  destruct (falsy (extractAccountInfo (nfkc rawSms)) && negb isKnownBank); [discriminate|].
  destruct (capture 1 AMOUNT_PATTERN (nfkc rawSms)); [|discriminate].
  rewrite Hupi, Hcom in Hparse. simpl in Hparse. rewrite Hclean in Hparse.
  inv Hparse. simpl. unfold or_default.
  destruct (String.eqb handle "") eqn:He; [|reflexivity].
  apply String.eqb_eq in He. contradiction.
Qed.

Lemma payment_handle_kept_verbatim_witness :
  capture 1 UPI_PATTERN "Rs 250.00 debited from A/c XX1234 to 8007320919@ybl on 05-01-24"
  = Some "8007320919@ybl"
  /\ option_map pe_merchant
       (parseExpenseWithRegex identity "2026-01-01" no_clock
          "Rs 250.00 debited from A/c XX1234 to 8007320919@ybl on 05-01-24" false None)
     = Some "8007320919@ybl".
Proof.
  split; [vm_compute; reflexivity|].
  destruct (parseExpenseWithRegex identity "2026-01-01" no_clock
              "Rs 250.00 debited from A/c XX1234 to 8007320919@ybl on 05-01-24" false None)
    as [parsed|] eqn:Hparse; [|vm_compute in Hparse; discriminate].
  simpl. f_equal.
  apply (payment_handle_kept_verbatim identity "2026-01-01" no_clock
           "Rs 250.00 debited from A/c XX1234 to 8007320919@ybl on 05-01-24" false None Hparse);
    vm_compute; reflexivity.
Defined.

(** The last element of a sequence pattern. *)
Lemma matches_seqs_last (pre : list regex) (r : regex) (st st' : mstate) :
  matches (seqs (pre ++ [r])) st st' -> exists mid, matches r mid st'.
Proof.
  revert st. induction pre as [|x pre IH]; intros st H; simpl in H.
  - eauto.
  - destruct (pre ++ [r])%list as [|y l] eqn:Hl.
    + destruct pre; discriminate.
    + apply matches_seq in H. destruct H as (mid & _ & H). eapply IH. exact H.
Qed.

Lemma matches_rep_chr (p : ascii -> bool) (n : nat) (st st' : mstate) :
  matches (rep n (Chr p)) st st' ->
  exists w, rest st = w ++ rest st' /\ String.length w = n /\ Str.forallb p w = true.
Proof.
  revert st. induction n as [|n IH]; intros st H; simpl in H.
  - apply matches_empty in H. subst st'. exists "". auto.
  - apply matches_seq in H. destruct H as (mid & Hc & H).
    apply matches_chr in Hc. destruct Hc as (c & Hr & Hp & _).
    apply IH in H. destruct H as (w & Hw & Hlen & Hall).
    exists (String c w). rewrite Hr, Hw. simpl. rewrite Hp, Hall, Hlen. auto.
Qed.

Lemma matches_upto_chr (p : ascii -> bool) (n : nat) (st st' : mstate) :
  matches (upto n (Chr p)) st st' ->
  exists w, rest st = w ++ rest st' /\ String.length w <= n /\ Str.forallb p w = true.
Proof.
  revert st. induction n as [|n IH]; intros st H; simpl in H.
  - apply matches_empty in H. subst st'. exists "". auto.
  - apply matches_alt in H. destruct H as [H|H].
    + apply matches_seq in H. destruct H as (mid & Hc & H).
      apply matches_chr in Hc. destruct Hc as (c & Hr & Hp & _).
      apply IH in H. destruct H as (w & Hw & Hlen & Hall).
      exists (String c w). rewrite Hr, Hw. simpl. rewrite Hp, Hall. repeat split; auto. lia.
    + apply matches_empty in H. subst st'. exists "". repeat split; auto. simpl. lia.
Qed.

Lemma matches_range_chr (p : ascii -> bool) (n m : nat) (st st' : mstate) :
  matches (range n m (Chr p)) st st' ->
  exists w, rest st = w ++ rest st'
            /\ n <= String.length w <= n + (m - n) /\ Str.forallb p w = true.
Proof.
  intros H. apply matches_seq in H. destruct H as (mid & H1 & H2).
  apply matches_rep_chr in H1. destruct H1 as (w1 & Hw1 & Hl1 & Hp1).
  apply matches_upto_chr in H2. destruct H2 as (w2 & Hw2 & Hl2 & Hp2).
  exists (w1 ++ w2). rewrite Hw1, Hw2, append_assoc, length_append, forallb_append, Hp1, Hp2.
  repeat split; auto; lia.
Qed.

(** A pattern ending in [(\d{3,4})] captures three or four digits. *)
Lemma last_digits_capture (pre : list regex) (sms before h : string) (st : mstate) :
  exec (seqs (pre ++ [Group 1 (range 3 4 digit)])) sms = Some (before, st) ->
  lookup 1 (caps st) = Some h ->
  3 <= String.length h <= 4 /\ Str.forallb Str.is_digit h = true.
Proof.
  intros He Hcap. apply exec_from_sound in He. destruct He as (p0 & s0 & Hm).
  apply matches_group in Hm. destruct Hm as (st1 & Hm & ->).
  apply matches_seqs_last in Hm. destruct Hm as (mid & Hm).
  apply matches_group in Hm. destruct Hm as (st2 & Hm & ->).
  simpl in Hcap. inv Hcap.
  apply matches_range_chr in Hm. destruct Hm as (w & Hw & Hlen & Hall).
  rewrite Hw, consumed_append. split; [simpl in Hlen; lia|exact Hall].
Qed.

(** The account anchor, when found, is three or four digits; so [!last4]
    holds exactly when no pattern matched. *)
Lemma extractAccountInfo_digits (sms h : string) :
  extractAccountInfo sms = Some h ->
  3 <= String.length h <= 4 /\ Str.forallb Str.is_digit h = true.
Proof.
  unfold extractAccountInfo, ACCOUNT_PATTERNS. cbn [List.fold_right].
  repeat match goal with
  | |- context [exec ?r sms] =>
      let b := fresh "before" in let st := fresh "st" in let He := fresh "He" in
      destruct (exec r sms) as [[b st]|] eqn:He;
      [intros Hcap; revert He Hcap;
       first [ apply (last_digits_capture
                        ([alts [lit_i "A/c"; lit_i "Acct"; lit_i "Account"]; plus space]
                         ++ account_label_tail ++ [mask]))
             | apply (last_digits_capture
                        ([lit_i "Card"; plus space] ++ account_label_tail ++ [mask]))
             | apply (last_digits_capture
                        [alts [lit_i "A/c"; lit_i "Acct"; lit_i "Card"]; plus space; mask]) ]
      |]
  end.
  discriminate.
Qed.



(** *** Patterns that are lists of words

    For a pattern that is an alternation of literals under [/i], [test] is
    a case-insensitive substring search. *)

Lemma star_loop_total (body : cont -> cont) (k : cont) (n : nat) (st : mstate) :
  (forall st', k st' <> None) -> star_loop body k n st <> None.
Proof.
  intros Hk. destruct n as [|n]; simpl; [apply Hk|].
  destruct (body _ st); [discriminate|apply Hk].
Qed.

Lemma rmatch_lit_i (v : string) :
  forall (k : cont) (st : mstate),
    rmatch (lit_i v) k st = match eat_ci v st with Some st' => k st' | None => None end.
Proof.
  induction v as [|c v IH]; intros k st; [reflexivity|].
  destruct v as [|c' v'].
  - simpl. destruct (rest st) as [|x s']; [reflexivity|].
    destruct (Ascii.eqb (Str.lowc x) (Str.lowc c)); reflexivity.
  - change (lit_i (String c (String c' v'))) with (Seq (lit1_i c) (lit_i (String c' v'))).
    cbn [rmatch lit1_i]. cbn [eat_ci]. destruct (rest st) as [|x s']; [reflexivity|].
    destruct (Ascii.eqb (Str.lowc x) (Str.lowc c)); [|reflexivity].
    rewrite IH. reflexivity.
Qed.

Lemma eat_ci_prefix (v : string) :
  forall st, is_some (eat_ci v st) = prefix (Str.toLowerCase v) (Str.toLowerCase (rest st)).
Proof.
  induction v as [|c v IH]; intros st; simpl.
  - destruct (Str.toLowerCase (rest st)); reflexivity.
  - destruct (rest st) as [|x s']; simpl; [reflexivity|].
    destruct (ascii_dec (Str.lowc c) (Str.lowc x)) as [He|Hne].
    + rewrite He, Ascii.eqb_refl. apply IH.
    + destruct (Ascii.eqb (Str.lowc x) (Str.lowc c)) eqn:He; [|reflexivity].
      apply Ascii.eqb_eq in He. congruence.
Qed.

Lemma rmatch_alts (rs : list regex) (k : cont) (st : mstate) :
  is_some (rmatch (alts rs) k st) = List.existsb (fun r => is_some (rmatch r k st)) rs.
Proof.
  induction rs as [|r rs IH]; simpl.
  - destruct (rest st); reflexivity.
  - destruct rs as [|r' rs'].
    + simpl. rewrite orb_false_r. reflexivity.
    + change (alts (r :: r' :: rs')) with (Alt r (alts (r' :: rs'))). cbn [rmatch].
      destruct (rmatch r k st); [reflexivity|]. simpl in IH |- *. exact IH.
Qed.

Lemma match_here_words (vs : list string) (p : option ascii) (s : string) :
  is_some (match_here (alts (List.map lit_i vs)) p s)
  = List.existsb (fun v => prefix (Str.toLowerCase v) (Str.toLowerCase s)) vs.
Proof.
  unfold match_here. cbn [rmatch]. rewrite rmatch_alts.
  induction vs as [|v vs IH]; [reflexivity|].
  cbn [List.map List.existsb]. rewrite IH. f_equal.
  rewrite rmatch_lit_i.
  change (prefix (Str.toLowerCase v) (Str.toLowerCase s))
    with (prefix (Str.toLowerCase v) (Str.toLowerCase (rest (MState p s [])))).
  rewrite <- eat_ci_prefix.
  destruct (eat_ci v (MState p s [])); reflexivity.
Qed.

Lemma existsb_orb {A : Type} (f g : A -> bool) (l : list A) :
  List.existsb (fun x => f x || g x) l = List.existsb f l || List.existsb g l.
Proof.
  induction l as [|a l IH]; simpl; [reflexivity|].
  rewrite IH. destruct (f a), (g a), (List.existsb f l); reflexivity.
Qed.

Lemma existsb_ext {A : Type} (f g : A -> bool) (l : list A) :
  (forall x, f x = g x) -> List.existsb f l = List.existsb g l.
Proof.
  intros H. induction l as [|a l IH]; simpl; [reflexivity|]. rewrite H, IH. reflexivity.
Qed.

Lemma exec_from_words (vs : list string) (s : string) :
  forall (p : option ascii) (skipped : string),
    is_some (exec_from (alts (List.map lit_i vs)) p skipped s)
    = List.existsb (fun v => includes_ci v s) vs.
Proof.
  induction s as [|c s IH]; intros p skipped.
  - transitivity (is_some (match_here (alts (List.map lit_i vs)) p "")).
    + cbn [exec_from]. destruct (match_here (alts (List.map lit_i vs)) p ""); reflexivity.
    + rewrite match_here_words. apply existsb_ext. intros v.
      unfold includes_ci. simpl. rewrite orb_false_r. reflexivity.
  - transitivity (is_some (match_here (alts (List.map lit_i vs)) p (String c s))
                  || List.existsb (fun v => includes_ci v s) vs).
    + cbn [exec_from].
      destruct (match_here (alts (List.map lit_i vs)) p (String c s)); [reflexivity|].
      apply IH.
    + rewrite match_here_words, <- existsb_orb. apply existsb_ext. intros v.
      reflexivity.
Qed.

(** [test] of a word-list pattern. *)
Lemma test_words (vs : list string) (s : string) :
  test (alts (List.map lit_i vs)) s = List.existsb (fun v => includes_ci v s) vs.
Proof.
  unfold test, exec. rewrite <- (exec_from_words vs s None "").
  destruct (exec_from _ None "" s); reflexivity.
Qed.

(** [/[\d]+/.test(s)]: some character of [s] is a digit. *)
Lemma test_plus_chr (p : ascii -> bool) (s : string) :
  test (plus (Chr p)) s = Str.existsb p s.
Proof.
  unfold test, exec. generalize (@None ascii) as pv, EmptyString as skipped.
  induction s as [|c s IH]; intros pv skipped; [reflexivity|].
  cbn [exec_from Str.existsb]. unfold match_here, plus. cbn [rmatch rest].
  destruct (p c).
  - match goal with |- context [star_loop ?b ?k ?n ?st] =>
      destruct (star_loop b k n st) eqn:Hs;
      [reflexivity | exfalso; revert Hs; apply star_loop_total; discriminate]
    end.
  - apply IH.
Qed.

(** X25: the sender allow-list is a search for one of the bank codes anywhere
    in the sender, letter case aside: nothing ties a code to the start, the
    end or the part after the route prefix. *)
Lemma isKnownBankSender_codes (sender : string) :
  isKnownBankSender sender = List.existsb (fun code => includes_ci code sender) BANK_CODES.
Proof.
  unfold isKnownBankSender, BANK_SENDER_IDS, BANK_CODES. cbn [List.existsb].
  repeat match goal with
  | |- context [test (alts ?l) sender] =>
      match l with
      | [lit_i ?a; lit_i ?b; lit_i ?c] =>
          change (test (alts l) sender) with (test (alts (List.map lit_i [a; b; c])) sender)
      | [lit_i ?a; lit_i ?b] =>
          change (test (alts l) sender) with (test (alts (List.map lit_i [a; b])) sender)
      end;
      rewrite test_words
  | |- context [test (lit_i ?a) sender] =>
      change (test (lit_i a) sender) with (test (alts (List.map lit_i [a])) sender);
      rewrite test_words
  end.
  cbn [List.existsb]. rewrite !orb_false_r, !orb_assoc. reflexivity.
Qed.

(** The looser validity check, said without patterns. *)
Lemma isValidTransaction_words (sms : string) :
  isValidTransaction sms
  = Str.existsb Str.is_digit sms
    && List.existsb (fun verb => includes_ci verb sms) TRANSACTION_VERBS.
Proof.
  unfold isValidTransaction. rewrite test_words. unfold digit. rewrite test_plus_chr.
  reflexivity.
Qed.

Lemma existsb_false_forall {A : Type} (f : A -> bool) (l : list A) :
  List.existsb f l = false <-> forall x, In x l -> f x = false.
Proof.
  split.
  - intros H x Hin. destruct (f x) eqn:Hf; [|reflexivity].
    rewrite <- H. symmetry. apply List.existsb_exists. eauto.
  - intros H. apply not_true_is_false. intros Hex. apply List.existsb_exists in Hex.
    destruct Hex as (x & Hin & Hf). rewrite (H x Hin) in Hf. discriminate.
Qed.


(** *** Amounts *)

Lemma leading_digits_run (ds : string) :
  forall (acc : Z) (n : nat) (after : string),
    Str.forallb Str.is_digit ds = true ->
    match after with String c _ => Str.is_digit c = false | EmptyString => True end ->
    leading_digits acc n (ds ++ after)
    = ((acc * 10 ^ Z.of_nat (String.length ds) + decimal ds)%Z, n + String.length ds, after).
Proof.
  induction ds as [|d ds IH]; intros acc n after Hds Hafter.
  - simpl. destruct after as [|c after]; simpl.
    + f_equal. f_equal; lia.
    + rewrite Hafter. f_equal. f_equal; lia.
  - simpl in Hds. apply andb_true_iff in Hds. destruct Hds as [Hd Hds].
    cbn [append leading_digits]. rewrite Hd, (IH _ _ _ Hds Hafter).
    cbn [decimal String.length]. f_equal. f_equal; [|lia].
    rewrite Nat2Z.inj_succ, Z.pow_succ_r by lia. ring.
Qed.

Lemma filter_append (p : ascii -> bool) (a b : string) :
  Str.filter p (a ++ b) = Str.filter p a ++ Str.filter p b.
Proof.
  induction a as [|c a IH]; simpl; [reflexivity|].
  rewrite IH. destruct (p c); reflexivity.
Qed.

Lemma strip_commas_digits (w : string) :
  Str.forallb is_digit_or_comma w = true ->
  Str.forallb Str.is_digit (strip_commas w) = true.
Proof.
  unfold strip_commas, is_digit_or_comma. induction w as [|c w IH]; simpl; [reflexivity|].
  intros H. apply andb_true_iff in H. destruct H as [Hc Hw].
  destruct (Ascii.eqb c ",") eqn:Hcomma; simpl; [apply IH; exact Hw|].
  rewrite orb_false_r in Hc. rewrite Hc. apply IH. exact Hw.
Qed.

Lemma strip_commas_has_digit (w : string) :
  Str.forallb is_digit_or_comma w = true ->
  Str.existsb Str.is_digit w = negb (String.eqb (strip_commas w) "").
Proof.
  unfold strip_commas, is_digit_or_comma. induction w as [|c w IH]; simpl; [reflexivity|].
  intros H. apply andb_true_iff in H. destruct H as [Hc Hw].
  destruct (Ascii.eqb c ",") eqn:Hcomma; simpl.
  - apply Ascii.eqb_eq in Hcomma. subst c. simpl. apply IH. exact Hw.
  - rewrite orb_false_r in Hc. rewrite Hc. reflexivity.
Qed.

Lemma digit_not_space (c : ascii) : Str.is_digit c = true -> Str.is_space c = false.
Proof. destruct c as [[] [] [] [] [] [] [] []]; simpl; intros H; try discriminate; auto. Qed.

Lemma digit_not_comma (c : ascii) : Str.is_digit c = true -> Ascii.eqb c "," = false.
Proof. destruct c as [[] [] [] [] [] [] [] []]; simpl; intros H; try discriminate; auto. Qed.

Lemma trimStart_digits (ds after : string) :
  Str.forallb Str.is_digit ds = true ->
  match after with String c _ => Str.is_space c = false | EmptyString => True end ->
  Str.trimStart (ds ++ after) = ds ++ after.
Proof.
  destruct ds as [|d ds]; simpl.
  - intros _. destruct after as [|c after]; simpl; [reflexivity|]. intros ->. reflexivity.
  - intros H _. apply andb_true_iff in H. destruct H as [Hd _].
    rewrite (digit_not_space _ Hd). reflexivity.
Qed.

(** **** Rounding to a double *)

Lemma round_half_even_nonneg (n d : Z) : (0 <= n -> 0 < d -> 0 <= round_half_even n d)%Z.
Proof.
  intros Hn Hd. unfold round_half_even.
  pose proof (Z.div_pos n d Hn Hd).
  destruct (2 * (n mod d) ?= d)%Z; [destruct (Z.even (n / d))| |]; lia.
Qed.

Lemma round_half_even_1 (n : Z) : round_half_even n 1 = n.
Proof.
  unfold round_half_even. rewrite Z.mod_1_r, Z.div_1_r. reflexivity.
Qed.

Lemma round_double_nonneg (x : Q) : (0 <= x)%Q -> (0 <= round_double x)%Q.
Proof.
  intros Hx. unfold round_double.
  assert (Hn : (0 <= Qnum x)%Z) by (unfold Qle in Hx; simpl in Hx; lia).
  destruct (Z.abs (Qnum x) =? 0)%Z eqn:Hz; [apply Qle_refl|].
  apply Z.eqb_neq in Hz.
  destruct (Z.ltb_spec (Qnum x) 0) as [Hneg|_]; [lia|].
  set (p := Z.max _ _).
  destruct (Z.leb_spec 0 p) as [Hp|Hp].
  - assert (Hm : (0 <= round_half_even (Z.abs (Qnum x)) (QDen x * 2 ^ p))%Z).
    { apply round_half_even_nonneg; [lia|].
      apply Z.mul_pos_pos; [reflexivity|apply Z.pow_pos_nonneg; lia]. }
    assert (Hpow : (0 <= 2 ^ p)%Z) by (apply Z.pow_nonneg; lia).
    unfold Qle. cbn [inject_Z Qnum Qden]. nia.
  - rewrite Qred_correct.
    assert (Hm : (0 <= round_half_even (Z.abs (Qnum x) * 2 ^ (- p)) (QDen x))%Z).
    { apply round_half_even_nonneg; [|reflexivity].
      apply Z.mul_nonneg_nonneg; [lia|apply Z.pow_nonneg; lia]. }
    unfold Qle. cbn [Qnum Qden]. lia.
Qed.

Lemma Qred_inject_Z (z : Z) : Qred (inject_Z z) = inject_Z z.
Proof.
  unfold Qred, inject_Z.
  pose proof (Z.ggcd_gcd z 1) as Hg. pose proof (Z.ggcd_correct_divisors z 1) as Hd.
  destruct (Z.ggcd z 1) as [g [a b]]. cbn [fst snd] in *.
  rewrite Z.gcd_1_r in Hg. subst g. destruct Hd as [Ha Hb].
  rewrite Z.mul_1_l in Ha, Hb. subst a b. reflexivity.
Qed.

Lemma Qred_scaled (z k : Z) : (0 < k)%Z -> Qred (Qmake (z * k) (Z.to_pos k)) = inject_Z z.
Proof.
  intros Hk. rewrite <- (Qred_inject_Z z).
  apply Qred_complete. unfold Qeq. cbn [inject_Z Qnum Qden].
  rewrite Z2Pos.id by exact Hk. ring.
Qed.

Lemma round_double_integer (z : Z) :
  (0 <= z < 2 ^ 53)%Z -> round_double (inject_Z z) = inject_Z z.
Proof.
  intros [H0 Hlt]. unfold round_double. cbn [inject_Z Qnum Qden].
  rewrite (Z.abs_eq z H0).
  destruct (Z.eqb_spec z 0) as [->|Hz]; [reflexivity|].
  destruct (Z.ltb_spec z 0) as [Hneg|_]; [lia|].
  assert (Hpos : (0 < z)%Z) by lia.
  assert (Hlog : log2_floor z 1 = Z.log2 z).
  { unfold log2_floor. change (Z.log2 1) with 0%Z. rewrite Z.sub_0_r.
    pose proof (Z.log2_nonneg z) as Hnn.
    destruct (Z.leb_spec 0 (Z.log2 z)) as [_|Hc]; [|lia].
    pose proof (Z.log2_spec z Hpos) as [Hlo _].
    destruct (Z.leb_spec (1 * 2 ^ Z.log2 z) z) as [_|Hc]; [reflexivity|lia]. }
  rewrite Hlog.
  assert (He : (Z.log2 z < 53)%Z) by (apply Z.log2_lt_pow2; [exact Hpos|exact Hlt]).
  pose proof (Z.log2_nonneg z) as Hnn.
  rewrite Z.max_l by lia.
  destruct (Z.leb_spec 0 (Z.log2 z - 52)) as [Hp|Hp].
  - assert (Hp0 : (Z.log2 z - 52 = 0)%Z) by lia. rewrite Hp0.
    change (2 ^ 0)%Z with 1%Z. rewrite !Z.mul_1_r. rewrite round_half_even_1. reflexivity.
  - rewrite round_half_even_1. apply Qred_scaled. apply Z.pow_pos_nonneg; lia.
Qed.


Lemma le_pow_shift (e n d K : Z) :
  (0 <= K)%Z -> (0 <= K + e)%Z ->
  le_pow e n d <-> (d * 2 ^ (K + e) <= n * 2 ^ K)%Z.
Proof.
  intros HK HKe. unfold le_pow.
  destruct (Z.leb_spec 0 e) as [He|He].
  - rewrite Z.pow_add_r by lia.
    assert (0 < 2 ^ K)%Z by (apply Z.pow_pos_nonneg; lia).
    split; intros H'; nia.
  - replace K with ((K + e) + (- e))%Z at 2 by lia.
    rewrite (Z.pow_add_r 2 (K + e) (- e)) by lia.
    assert (0 < 2 ^ (K + e))%Z by (apply Z.pow_pos_nonneg; lia).
    split; intros H'; nia.
Qed.

Lemma le_pow_mono (e e' n d : Z) :
  (0 < d)%Z -> (e' <= e)%Z -> le_pow e n d -> le_pow e' n d.
Proof.
  intros Hd Hle H.
  apply (@le_pow_shift e n d (Z.abs e + Z.abs e')%Z) in H; [|lia|lia].
  apply (@le_pow_shift e' n d (Z.abs e + Z.abs e')%Z); [lia|lia|].
  assert (2 ^ (Z.abs e + Z.abs e' + e') <= 2 ^ (Z.abs e + Z.abs e' + e))%Z
    by (apply Z.pow_le_mono_r; lia).
  nia.
Qed.

Lemma log2_floor_test (n d : Z) :
  let e := (Z.log2 n - Z.log2 d)%Z in
  (le_pow e n d -> log2_floor n d = e)
  /\ (~ le_pow e n d -> log2_floor n d = (e - 1)%Z).
Proof.
  intros e. unfold log2_floor, le_pow. fold e.
  destruct (0 <=? e)%Z.
  - destruct (Z.leb_spec (d * 2 ^ e) n); split; intros; (reflexivity || lia || tauto).
  - destruct (Z.leb_spec d (n * 2 ^ (- e))); split; intros; (reflexivity || lia || tauto).
Qed.

Lemma log2_floor_spec (n d : Z) :
  (0 < n)%Z -> (0 < d)%Z ->
  le_pow (log2_floor n d) n d /\ ~ le_pow (log2_floor n d + 1)%Z n d.
Proof.
  intros Hn Hd.
  destruct (Z.log2_spec n Hn) as [Hn1 Hn2]. destruct (Z.log2_spec d Hd) as [Hd1 Hd2].
  pose proof (Z.log2_nonneg n) as Ha. pose proof (Z.log2_nonneg d) as Hb.
  set (a := Z.log2 n) in *. set (b := Z.log2 d) in *.
  assert (Hup : ~ le_pow (a - b + 1)%Z n d).
  { intros H. apply (@le_pow_shift (a - b + 1)%Z n d (b + 1)%Z) in H; [|lia|lia].
    replace (b + 1 + (a - b + 1))%Z with (Z.succ a + 1)%Z in H by lia.
    rewrite (Z.pow_add_r 2 (Z.succ a) 1) in H by lia.
    rewrite (Z.pow_add_r 2 b 1) in H by lia.
    assert (0 < 2 ^ Z.succ a)%Z by (apply Z.pow_pos_nonneg; lia).
    assert (0 < 2 ^ b)%Z by (apply Z.pow_pos_nonneg; lia).
    change (2 ^ 1)%Z with 2%Z in H. nia. }
  assert (Hdown : le_pow (a - b - 1)%Z n d).
  { apply (@le_pow_shift (a - b - 1)%Z n d (b + 1)%Z); [lia|lia|].
    replace (b + 1 + (a - b - 1))%Z with a by lia.
    replace (b + 1)%Z with (Z.succ b) by lia.
    assert (0 < 2 ^ a)%Z by (apply Z.pow_pos_nonneg; lia). nia. }
  destruct (@log2_floor_test n d) as [Hyes Hno]. fold a b in Hyes, Hno.
  destruct (Z.leb_spec 0 (a - b)) as [He|He].
  - destruct (Z_le_dec (d * 2 ^ (a - b)) n) as [Hle|Hgt].
    + assert (Hl : le_pow (a - b)%Z n d)
        by (unfold le_pow; destruct (Z.leb_spec 0 (a - b)); [exact Hle|lia]).
      rewrite (Hyes Hl). split; assumption.
    + assert (Hl : ~ le_pow (a - b)%Z n d)
        by (unfold le_pow; destruct (Z.leb_spec 0 (a - b)); [exact Hgt|lia]).
      rewrite (Hno Hl). split; [exact Hdown|].
      replace (a - b - 1 + 1)%Z with (a - b)%Z by lia. exact Hl.
  - destruct (Z_le_dec d (n * 2 ^ (- (a - b)))) as [Hle|Hgt].
    + assert (Hl : le_pow (a - b)%Z n d)
        by (unfold le_pow; destruct (Z.leb_spec 0 (a - b)); [lia|exact Hle]).
      rewrite (Hyes Hl). split; assumption.
    + assert (Hl : ~ le_pow (a - b)%Z n d)
        by (unfold le_pow; destruct (Z.leb_spec 0 (a - b)); [lia|exact Hgt]).
      rewrite (Hno Hl). split; [exact Hdown|].
      replace (a - b - 1 + 1)%Z with (a - b)%Z by lia. exact Hl.
Qed.

Lemma log2_floor_unique (n d e : Z) :
  (0 < n)%Z -> (0 < d)%Z ->
  le_pow e n d -> ~ le_pow (e + 1)%Z n d -> log2_floor n d = e.
Proof.
  intros Hn Hd Hlo Hhi. destruct (@log2_floor_spec n d Hn Hd) as [Hlo' Hhi'].
  destruct (Z.lt_trichotomy (log2_floor n d) e) as [Hlt|[Heq|Hgt]]; [|exact Heq|].
  - exfalso. apply Hhi'. apply (@le_pow_mono e (log2_floor n d + 1)%Z n d); [exact Hd|lia|exact Hlo].
  - exfalso. apply Hhi. apply (@le_pow_mono (log2_floor n d) (e + 1)%Z n d); [exact Hd|lia|exact Hlo'].
Qed.

Lemma round_half_even_mul (m d : Z) : (0 < d)%Z -> round_half_even (m * d) d = m.
Proof.
  intros Hd. unfold round_half_even.
  rewrite Z.mod_mul, Z.div_mul by lia.
  destruct (Z.compare_spec (2 * 0) d); [lia|reflexivity|lia].
Qed.

(** A value [z / 2^k] with [z] below [2^53] is a double, and is kept. *)
Lemma round_double_dyadic (x : Q) (z k : Z) :
  (0 < z < 2 ^ 53)%Z -> (0 <= k <= 1022)%Z ->
  (Qnum x * 2 ^ k = z * QDen x)%Z ->
  round_double x = Qred x.
Proof.
  intros [Hz0 Hz] [Hk0 Hk] Hx.
  assert (Hd : (0 < QDen x)%Z) by reflexivity.
  assert (Hpk : (0 < 2 ^ k)%Z) by (apply Z.pow_pos_nonneg; lia).
  assert (Hn : (0 < Qnum x)%Z) by nia.
  destruct (Z.log2_spec z Hz0) as [Hl1 Hl2]. pose proof (Z.log2_nonneg z) as Hl0.
  assert (Hl : (Z.log2 z < 53)%Z) by (apply Z.log2_lt_pow2; assumption).
  set (l := Z.log2 z) in *.
  assert (Hlog : log2_floor (Qnum x) (QDen x) = (l - k)%Z).
  { apply log2_floor_unique; [exact Hn|exact Hd| |].
    - apply (@le_pow_shift (l - k)%Z (Qnum x) (QDen x) k); [lia|lia|].
      replace (k + (l - k))%Z with l by lia. rewrite Hx. nia.
    - intros H. apply (@le_pow_shift (l - k + 1)%Z (Qnum x) (QDen x) k) in H; [|lia|lia].
      replace (k + (l - k + 1))%Z with (Z.succ l) in H by lia. rewrite Hx in H. nia. }
  unfold round_double. rewrite (Z.abs_eq (Qnum x)) by lia.
  destruct (Z.eqb_spec (Qnum x) 0) as [Hc|_]; [lia|].
  destruct (Z.ltb_spec (Qnum x) 0) as [Hc|_]; [lia|].
  rewrite Hlog, Z.max_l by lia.
  destruct (Z.leb_spec 0 (l - k - 52)) as [Hp|Hp].
  - assert (Hk' : k = 0%Z) by lia. assert (Hp0 : (l - k - 52 = 0)%Z) by lia.
    rewrite Hp0. subst k. change (2 ^ 0)%Z with 1%Z in *. rewrite !Z.mul_1_r in *.
    rewrite Hx, round_half_even_mul by exact Hd.
    rewrite <- (Qred_inject_Z z). apply Qred_complete.
    unfold Qeq. cbn [inject_Z Qnum Qden]. lia.
  - replace (- (l - k - 52))%Z with (k + (52 - l))%Z by lia.
    rewrite (Z.pow_add_r 2 k (52 - l)) by lia.
    rewrite Z.mul_assoc, Hx.
    replace (z * QDen x * 2 ^ (52 - l))%Z with (z * 2 ^ (52 - l) * QDen x)%Z by ring.
    rewrite round_half_even_mul by exact Hd.
    assert (0 < 2 ^ (52 - l))%Z by (apply Z.pow_pos_nonneg; lia).
    apply Qred_complete. unfold Qeq. cbn [Qnum Qden].
    rewrite Z2Pos.id by nia. nia.
Qed.

(** A whole value below [2^53], whatever its denominator, is kept. *)
Lemma round_double_whole (x : Q) (z : Z) :
  (0 <= z < 2 ^ 53)%Z -> (x == inject_Z z)%Q -> round_double x = inject_Z z.
Proof.
  intros [Hz0 Hz] Hx.
  assert (Hx' : (Qnum x = z * QDen x)%Z).
  { unfold Qeq in Hx. cbn [inject_Z Qnum Qden] in Hx. lia. }
  destruct (Z.eqb_spec z 0) as [->|Hnz].
  - unfold round_double. rewrite Hx'. reflexivity.
  - rewrite (@round_double_dyadic x z 0); [| lia | lia | change (2 ^ 0)%Z with 1%Z; lia].
    rewrite <- (Qred_inject_Z z). apply Qred_complete. exact Hx.
Qed.

(** What [round_double] returns is an integer over a power of two. *)
Lemma round_double_binary (x : Q) :
  exists m t : Z, (0 <= t)%Z /\ (Qnum (round_double x) * 2 ^ t = m * QDen (round_double x))%Z.
Proof.
  assert (Hred : forall m t : Z, (0 < t)%Z ->
            (Qnum (Qred (m # Z.to_pos (2 ^ t))) * 2 ^ t
             = m * QDen (Qred (m # Z.to_pos (2 ^ t))))%Z).
  { intros m t Ht. pose proof (Qred_correct (m # Z.to_pos (2 ^ t))) as H.
    set (r := Qred _) in *. unfold Qeq in H. cbn [Qnum Qden] in H.
    rewrite Z2Pos.id in H by (apply Z.pow_pos_nonneg; lia). exact H. }
  unfold round_double.
  destruct (Z.abs (Qnum x) =? 0)%Z; [exists 0%Z, 0%Z; split; [lia|reflexivity]|].
  set (p := Z.max _ _).
  destruct (Z.leb_spec 0 p) as [Hp|Hp].
  - set (m := (_ * 2 ^ p)%Z).
    destruct (Qnum x <? 0)%Z.
    + exists (- m)%Z, 0%Z. split; [lia|]. cbn. lia.
    + exists m, 0%Z. split; [lia|]. cbn. lia.
  - set (m := round_half_even _ _).
    destruct (Qnum x <? 0)%Z.
    + exists (- m)%Z, (- p)%Z. split; [lia|].
      specialize (Hred m (- p)%Z ltac:(lia)). cbn [Qopp Qnum Qden]. lia.
    + exists m, (- p)%Z. split; [lia|]. apply Hred. lia.
Qed.

(** Hundredths that are no multiple of a quarter are no integer over a
    power of two. *)
Lemma hundredths_not_binary (z k m t : Z) :
  (0 <= t)%Z -> ((z * 100 + k) * 2 ^ t = m * 100)%Z -> (25 | k)%Z.
Proof.
  intros Ht H.
  assert (Hodd : forall t, (0 <= t)%Z -> forall y, (25 | 2 ^ t * y)%Z -> (25 | y)%Z).
  { apply (natlike_ind (fun t => forall y, (25 | 2 ^ t * y)%Z -> (25 | y)%Z)).
    - intros y Hy. change (2 ^ 0)%Z with 1%Z in Hy. rewrite Z.mul_1_l in Hy. exact Hy.
    - intros u Hu IH y Hy. rewrite Z.pow_succ_r, <- Z.mul_assoc in Hy by exact Hu.
      apply Z.gauss in Hy; [|reflexivity]. exact (IH y Hy). }
  assert (Hdiv : (25 | 2 ^ t * (z * 100 + k))%Z).
  { exists (m * 4)%Z. lia. }
  apply (Hodd t Ht) in Hdiv.
  destruct Hdiv as [c Hc]. exists (c - z * 4)%Z. lia.
Qed.

(** A value [z + k/100] whose hundredths are no multiple of a quarter is
    no double. *)
Lemma round_double_hundredths (z k : Z) :
  ~ (25 | k)%Z -> ~ (round_double (inject_Z z + (k # 100)) == inject_Z z + (k # 100))%Q.
Proof.
  intros Hk Heq. apply Hk.
  destruct (round_double_binary (inject_Z z + (k # 100))) as (m & t & Ht & Hm).
  apply (@hundredths_not_binary z k m t Ht).
  unfold Qeq in Heq. cbn [Qplus inject_Z Qnum Qden] in Heq.
  set (r := round_double _) in *. 
  change (Z.pos (1 * 100)) with 100%Z in Heq.
  assert (Hd : (0 < QDen r)%Z) by reflexivity.
  nia.
Qed.

(** A value [z + k/100] whose hundredths are a multiple of a quarter is
    kept, as long as it is below [2^51]. *)
Lemma round_double_quarters (z k : Z) :
  (0 <= z)%Z -> (z + 1 < 2 ^ 51)%Z -> (0 <= k < 100)%Z -> (25 | k)%Z ->
  (round_double (inject_Z z + (k # 100)) == inject_Z z + (k # 100))%Q.
Proof.
  intros Hz0 Hz Hk [c Hc].
  destruct (Z.eqb_spec (z * 100 + k) 0) as [Hzero|Hnz].
  - unfold round_double. cbn [Qplus inject_Z Qnum Qden].
    replace (z * Z.pos 100 + k * 1)%Z with 0%Z by lia. cbn. unfold Qeq. cbn. lia.
  - rewrite (@round_double_dyadic (inject_Z z + (k # 100)) (z * 4 + c)%Z 2%Z).
    + apply Qred_correct.
    + change (2 ^ 51)%Z with 2251799813685248%Z in Hz.
      change (2 ^ 53)%Z with 9007199254740992%Z. lia.
    + lia.
    + cbn [Qplus inject_Z Qnum Qden]. change (2 ^ 2)%Z with 4%Z.
      change (Z.pos (1 * 100)) with 100%Z. lia.
Qed.

(** [round_half_even] is within a half of the quotient. *)
Lemma round_half_even_nearest (n d : Z) :
  (0 < d)%Z -> (2 * Z.abs (round_half_even n d * d - n) <= d)%Z.
Proof.
  intros Hd. unfold round_half_even.
  pose proof (Z.div_mod n d ltac:(lia)) as Hdm.
  pose proof (Z.mod_pos_bound n d Hd) as Hr.
  destruct (Z.compare_spec (2 * (n mod d)) d) as [He|Hl|Hg];
    [destruct (Z.even (n / d))| |]; nia.
Qed.

(** A numeral without a fraction: the commas are dropped, the digits are read
    in full and rounded once; with no digit at all the result is [NaN]. *)
Lemma parseAmount_integer (w : string) :
  Str.forallb is_digit_or_comma w = true ->
  parseAmount w = if Str.existsb Str.is_digit w
                  then Num (round_double (inject_Z (decimal (strip_commas w))))
                  else NaN.
Proof.
  intros Hw. rewrite (strip_commas_has_digit _ Hw).
  pose proof (strip_commas_digits _ Hw) as Hds.
  unfold parseAmount, parseFloat.
  rewrite <- (append_nil_r (strip_commas w)).
  rewrite trimStart_digits, leading_digits_run by (simpl; trivial).
  rewrite append_nil_r.
  destruct (strip_commas w) as [|d ds]; [reflexivity|].
  cbn [String.length Nat.add Nat.eqb String.eqb negb]. reflexivity.
Qed.

Lemma strip_commas_fraction (w : string) (d1 d2 : ascii) :
  Str.is_digit d1 = true -> Str.is_digit d2 = true ->
  strip_commas (w ++ String "." (String d1 (String d2 "")))
  = strip_commas w ++ String "." (String d1 (String d2 "")).
Proof.
  intros H1 H2. unfold strip_commas. rewrite filter_append. f_equal.
  simpl. rewrite (digit_not_comma _ H1), (digit_not_comma _ H2). reflexivity.
Qed.

(** A numeral with a two-digit fraction: the fraction counts in hundredths. *)
Lemma parseAmount_two_decimals (w : string) (d1 d2 : ascii) :
  Str.forallb is_digit_or_comma w = true ->
  Str.is_digit d1 = true -> Str.is_digit d2 = true ->
  parseAmount (w ++ String "." (String d1 (String d2 "")))
  = Num (round_double (inject_Z (decimal (strip_commas w))
                       + ((10 * digit_val d1 + digit_val d2) # 100))).
Proof.
  intros Hw H1 H2. pose proof (strip_commas_digits _ Hw) as Hds.
  unfold parseAmount, parseFloat. rewrite (strip_commas_fraction w _ _ H1 H2).
  rewrite trimStart_digits, leading_digits_run by (simpl; trivial).
  change (String d1 (String d2 "")) with (String d1 (String d2 "") ++ "").
  rewrite leading_digits_run by (simpl; trivial; rewrite H1, H2; reflexivity).
  cbn [String.length Nat.add]. change (2 =? 0) with false.
  rewrite andb_false_r.
  cbn [decimal String.length]. change (Pos.of_nat (10 ^ 2)) with 100%positive.
  rewrite !Z.mul_0_l, !Z.add_0_l.
  change (10 ^ Z.of_nat 1)%Z with 10%Z. change (10 ^ Z.of_nat 0)%Z with 1%Z.
  do 4 f_equal. ring.
Qed.

(** The text [AMOUNT_PATTERN] captures: digits and commas, then nothing or a
    dot and exactly two digits. *)
Lemma amount_capture_shape (sms h : string) :
  capture 1 AMOUNT_PATTERN sms = Some h ->
  exists w frac,
    h = w ++ frac /\ w <> "" /\ Str.forallb is_digit_or_comma w = true
    /\ (frac = ""
        \/ exists d1 d2, Str.is_digit d1 = true /\ Str.is_digit d2 = true
                         /\ frac = String "." (String d1 (String d2 ""))).
Proof.
  intros H. apply capture_sound in H. destruct H as (p0 & s0 & st & Hm & Hcap).
  apply matches_group in Hm. destruct Hm as (st1 & Hm & ->).
  unfold AMOUNT_PATTERN in Hm.
  apply (matches_seqs_last
           [Alt (Seq (lit_i "Rs") (opt (lit1 "."))) (lit_i "INR"); Star space]) in Hm.
  destruct Hm as (mid & Hm).
  apply matches_group in Hm. destruct Hm as (st2 & Hm & ->).
  simpl in Hcap. inv Hcap.
  apply matches_seq in Hm. destruct Hm as (m1 & Hint & Hfrac).
  apply matches_plus_chr in Hint. destruct Hint as (c & w & Hr & Hc & Hw & _).
  apply matches_alt in Hfrac. destruct Hfrac as [Hfrac|Hfrac].
  - apply matches_seq in Hfrac. destruct Hfrac as (m2 & Hdot & Hdd).
    apply matches_chr in Hdot. destruct Hdot as (dot & Hr2 & Hdot & _).
    apply Ascii.eqb_eq in Hdot. subst dot.
    apply matches_rep_chr in Hdd. destruct Hdd as (dd & Hr3 & Hlen & Hdd).
    destruct dd as [|d1 [|d2 [|x dd]]]; try discriminate.
    simpl in Hdd. rewrite andb_true_r in Hdd. apply andb_true_iff in Hdd.
    exists (String c w), (String "." (String d1 (String d2 ""))).
    split; [|split; [discriminate|split]].
    + rewrite Hr, Hr2, Hr3.
      change (String c w ++ String "." (String d1 (String d2 "") ++ rest st2))
        with (String c w ++ (String "." (String d1 (String d2 "")) ++ rest st2)).
      rewrite <- append_assoc. apply consumed_append.
    + simpl. unfold is_digit_or_comma at 1. rewrite Hc. exact Hw.
    + right. exists d1, d2. tauto.
  - apply matches_empty in Hfrac. subst st2.
    exists (String c w), "". split; [|split; [discriminate|split]].
    + rewrite Hr, append_nil_r. apply consumed_append.
    + simpl. unfold is_digit_or_comma at 1. rewrite Hc. exact Hw.
    + left. reflexivity.
Qed.


(** ** Grouping *)

Lemma group_of_add {A : Type} (k k' : string) (r : A) (groups : list (string * list A)) :
  group_of k' (add_to_group k r groups)
  = if String.eqb k' k then (group_of k' groups ++ [r])%list else group_of k' groups.
Proof.
  unfold group_of. induction groups as [|[k0 rs] groups IH]; simpl.
  - destruct (String.eqb k' k); reflexivity.
  - destruct (String.eqb k k0) eqn:Hk; simpl.
    + apply String.eqb_eq in Hk. subst k0.
      destruct (String.eqb k' k); reflexivity.
    + destruct (String.eqb k' k0) eqn:Hk'; simpl; [|exact IH].
      apply String.eqb_eq in Hk'. subst k0.
      rewrite String.eqb_sym, Hk. reflexivity.
Qed.

Lemma group_by_snoc {A : Type} (key : A -> string) (rows : list A) (r : A) :
  group_by key (rows ++ [r]) = add_to_group (key r) r (group_by key rows).
Proof. unfold group_by. rewrite List.fold_left_app. reflexivity. Qed.

(** The group of a key holds the rows with that key, in table order. *)
Lemma group_of_group_by {A : Type} (key : A -> string) (rows : list A) (k : string) :
  group_of k (group_by key rows) = List.filter (fun r => String.eqb k (key r)) rows.
Proof.
  induction rows as [|r rows IH] using List.rev_ind; [reflexivity|].
  rewrite group_by_snoc, group_of_add, List.filter_app, IH. simpl.
  destruct (String.eqb k (key r)); [reflexivity|]. rewrite List.app_nil_r. reflexivity.
Qed.

Lemma keys_add {A : Type} (k : string) (r : A) (groups : list (string * list A)) :
  List.map fst (add_to_group k r groups)
  = if List.existsb (String.eqb k) (List.map fst groups)
    then List.map fst groups
    else (List.map fst groups ++ [k])%list.
Proof.
  induction groups as [|[k0 rs] groups IH]; simpl; [reflexivity|].
  destruct (String.eqb k k0); simpl; [reflexivity|].
  rewrite IH. destruct (List.existsb (String.eqb k) (List.map fst groups)); reflexivity.
Qed.

(** One group per key. *)
Lemma group_by_keys_nodup {A : Type} (key : A -> string) (rows : list A) :
  NoDup (List.map fst (group_by key rows)).
Proof.
  induction rows as [|r rows IH] using List.rev_ind; [constructor|].
  rewrite group_by_snoc, keys_add.
  destruct (List.existsb (String.eqb (key r)) (List.map fst (group_by key rows))) eqn:Hex;
    [exact IH|].
  apply NoDup_app; [exact IH|repeat constructor; intros []|].
  intros x Hin [<-|[]].
  rewrite existsb_false_forall in Hex. specialize (Hex _ Hin).
  rewrite String.eqb_refl in Hex. discriminate.
Qed.

Lemma find_key_in {A : Type} (k : string) (groups : list (string * list A)) :
  group_of k groups <> [] -> In (k, group_of k groups) groups.
Proof.
  unfold group_of.
  destruct (List.find (fun g => String.eqb k (fst g)) groups) as [[k0 rs]|] eqn:Hf;
    [|intros H; contradiction H; reflexivity].
  intros _. apply List.find_some in Hf. destruct Hf as [Hin Hk]. simpl in *.
  apply String.eqb_eq in Hk. subst k0. exact Hin.
Qed.

Lemma filter_key_singleton {A : Type} (k : string) (rs : list A)
      (groups : list (string * list A)) :
  NoDup (List.map fst groups) -> In (k, rs) groups ->
  List.filter (fun g => String.eqb k (fst g)) groups = [(k, rs)].
Proof.
  induction groups as [|[k0 rs0] groups IH]; simpl; [tauto|].
  intros Hnd Hin. inv Hnd.
  destruct Hin as [Heq|Hin].
  - inv Heq. rewrite String.eqb_refl. f_equal.
    apply find_none_filter. destruct (List.find _ groups) as [[k1 rs1]|] eqn:Hf; [|reflexivity].
    apply List.find_some in Hf. destruct Hf as [Hin Hk]. simpl in Hk.
    apply String.eqb_eq in Hk. subst k1.
    exfalso. apply H1. apply List.in_map_iff. exists (k, rs1). auto.
  - destruct (String.eqb k k0) eqn:Hk.
    + apply String.eqb_eq in Hk. subst k0.
      exfalso. apply H1. apply List.in_map_iff. exists (k, rs). auto.
    + apply IH; assumption.
Qed.

Lemma insert_by_count_perm {A : Type} (count : A -> nat) (x : A) (l : list A) :
  Permutation (insert_by_count count x l) (x :: l).
Proof.
  induction l as [|y l IH]; simpl; [apply Permutation_refl|].
  destruct (count x <=? count y); [|apply Permutation_refl].
  eapply perm_trans; [apply perm_skip; exact IH|apply perm_swap].
Qed.

(** [ORDER BY] only reorders. *)
Lemma order_by_count_desc_perm {A : Type} (count : A -> nat) (l : list A) :
  Permutation (order_by_count_desc count l) l.
Proof.
  induction l as [|x l IH]; simpl; [constructor|].
  eapply perm_trans; [apply insert_by_count_perm|apply perm_skip; exact IH].
Qed.

Lemma filter_perm {A : Type} (f : A -> bool) (l l' : list A) :
  Permutation l l' -> Permutation (List.filter f l) (List.filter f l').
Proof.
  induction 1; simpl.
  - constructor.
  - destruct (f x); [apply perm_skip|]; assumption.
  - destruct (f x), (f y); try apply Permutation_refl. apply perm_swap.
  - eapply perm_trans; eassumption.
Qed.

Lemma filter_flat_map_in {A B : Type} (p : B -> bool) (q : A -> bool) (f : A -> list B)
      (l : list A) :
  (forall a, In a l -> forall b, In b (f a) -> p b = q a) ->
  List.filter p (List.flat_map f l) = List.flat_map f (List.filter q l).
Proof.
  induction l as [|a l IH]; intros H; simpl; [reflexivity|].
  rewrite List.filter_app, IH by (intros a' Ha'; apply H; right; exact Ha').
  assert (Hfa : List.filter p (f a) = if q a then f a else []).
  { specialize (H a (or_introl eq_refl)). induction (f a) as [|b bs IHb]; simpl.
    - destruct (q a); reflexivity.
    - rewrite (H b) by (left; reflexivity).
      rewrite IHb by (intros b' Hb'; apply H; right; exact Hb').
      destruct (q a); reflexivity. }
  rewrite Hfa. destruct (q a); reflexivity.
Qed.


(** ** The recurring-payment detector *)







(** The intervals are taken between the rows as stored: the same three
    debits with the latest one stored first give intervals of 60 and 29 days
    and no subscription. *)
Lemma detection_follows_stored_order :
  detectSubscriptions "2023-09-01" 1 netflix_store_unordered
  = Done [] netflix_store_unordered
  /\ intervals (List.map t_date (transactions netflix_store_unordered))
     = [Num 60; Num 29].
Proof. split; vm_compute; reflexivity. Qed.

(** ** Unnamed-merchant discovery *)

Lemma find_filter_head {A : Type} (f : A -> bool) (l : list A) (x : A) :
  List.filter f l = [x] -> List.find f l = Some x.
Proof.
  induction l as [|a l IH]; simpl; [discriminate|].
  destruct (f a); [intros H; inv H; reflexivity|exact IH].
Qed.

Lemma add_to_group_nonempty {A : Type} (k : string) (r : A)
      (groups : list (string * list A)) :
  (forall k' rs', In (k', rs') groups -> rs' <> []) ->
  forall k' rs', In (k', rs') (add_to_group k r groups) -> rs' <> [].
Proof.
  induction groups as [|[k0 rs0] groups IH]; intros Hall k' rs' Hin; simpl in Hin.
  - destruct Hin as [H|[]]. inv H. discriminate.
  - destruct (String.eqb k k0).
    + destruct Hin as [H|H].
      * inv H. destruct rs0; discriminate.
      * apply (Hall k' rs'). right. exact H.
    + destruct Hin as [H|H].
      * inv H. apply (Hall k' rs'). left. reflexivity.
      * apply (IH (fun k1 rs1 H1 => Hall k1 rs1 (or_intror H1)) k' rs' H).
Qed.

Lemma group_by_nonempty {A : Type} (key : A -> string) (rows : list A) :
  forall k rs, In (k, rs) (group_by key rows) -> rs <> [].
Proof.
  induction rows as [|r rows IH] using List.rev_ind; [intros k rs []|].
  rewrite group_by_snoc. apply add_to_group_nonempty. exact IH.
Qed.

(** Each group is the list of the rows with its key, and is not empty. *)
Lemma in_group_by {A : Type} (key : A -> string) (rows : list A) (k : string) (rs : list A) :
  In (k, rs) (group_by key rows) ->
  rs = List.filter (fun r => String.eqb k (key r)) rows /\ rs <> [].
Proof.
  intros Hin. split; [|eapply group_by_nonempty; exact Hin].
  rewrite <- group_of_group_by. unfold group_of.
  rewrite (find_filter_head _ _
             (filter_key_singleton k rs _ (group_by_keys_nodup key rows) Hin)).
  reflexivity.
Qed.

Lemma max_row_in (best : TransactionRow) (rows : list TransactionRow) :
  In (max_row best rows) (best :: rows).
Proof.
  revert best. induction rows as [|r rows IH]; intros best; simpl; [auto|].
  destruct (IH (if Qlt_bool (t_amount best) (t_amount r) then r else best)) as [H|H].
  - rewrite <- H. destruct (Qlt_bool (t_amount best) (t_amount r)); auto.
  - auto.
Qed.

Lemma Qlt_bool_false (x y : Q) : Qlt_bool x y = false -> (y <= x)%Q.
Proof.
  unfold Qlt_bool. intros H. apply negb_false_iff in H. apply Qle_bool_iff. exact H.
Qed.

Lemma Qlt_bool_true (x y : Q) : Qlt_bool x y = true -> (x < y)%Q.
Proof.
  unfold Qlt_bool. intros H. apply negb_true_iff in H.
  apply Qnot_le_lt. intros Hle. apply Qle_bool_iff in Hle. congruence.
Qed.

(** [MAX(t.amount)]: no row of the group has a larger amount. *)
Lemma max_row_largest (best : TransactionRow) (rows : list TransactionRow) :
  forall t, In t (best :: rows) -> (t_amount t <= t_amount (max_row best rows))%Q.
Proof.
  revert best. induction rows as [|r rows IH]; intros best t Hin; simpl.
  - destruct Hin as [<-|[]]. apply Qle_refl.
  - destruct (Qlt_bool (t_amount best) (t_amount r)) eqn:Hlt.
    + apply Qlt_bool_true in Hlt. destruct Hin as [<-|Hin].
      * eapply Qle_trans; [apply Qlt_le_weak; exact Hlt|]. apply IH. left. reflexivity.
      * apply IH. exact Hin.
    + apply Qlt_bool_false in Hlt. destruct Hin as [<-|[<-|Hin]].
      * apply IH. left. reflexivity.
      * eapply Qle_trans; [exact Hlt|]. apply IH. left. reflexivity.
      * apply IH. right. exact Hin.
Qed.

Lemma insert_by_count_sorted {A : Type} (count : A -> nat) (x : A) (l : list A) :
  StronglySorted (fun a b => count b <= count a) l ->
  StronglySorted (fun a b => count b <= count a) (insert_by_count count x l).
Proof.
  induction 1 as [|y l Hs IH Hall]; simpl.
  - constructor; constructor.
  - destruct (count x <=? count y) eqn:Hle.
    + apply Nat.leb_le in Hle. constructor; [exact IH|].
      eapply Permutation_Forall; [apply Permutation_sym, insert_by_count_perm|].
      constructor; assumption.
    + apply Nat.leb_gt in Hle. constructor; [constructor; assumption|].
      constructor; [lia|].
      eapply Forall_impl; [|exact Hall]. simpl. intros a Ha. lia.
Qed.

(** [ORDER BY count DESC]. *)
Lemma order_by_count_desc_sorted {A : Type} (count : A -> nat) (l : list A) :
  StronglySorted (fun a b => count b <= count a) (order_by_count_desc count l).
Proof.
  induction l as [|x l IH]; simpl; [constructor|].
  apply insert_by_count_sorted. exact IH.
Qed.

Lemma perm_short {A : Type} (l l' : list A) :
  Permutation l l' -> List.length l' <= 1 -> l = l'.
Proof.
  intros Hp Hlen. destruct l' as [|a [|b l']]; simpl in Hlen; try lia.
  - apply Permutation_sym, Permutation_nil in Hp. exact Hp.
  - apply Permutation_sym, Permutation_length_1_inv in Hp. exact Hp.
Qed.

(** The entries spelled like one upper-cased label [k]: the one entry of the
    owner's unnamed rows with that label, or none. *)
Lemma unnamed_entries_for_key (user : Z) (db : Database) (k : string) :
  List.filter (fun e => String.eqb k (Str.toUpperCase (un_rawName e)))
              (order_by_count_desc un_count
                 (List.flat_map unnamed_of_group
                    (group_by (fun t => Str.toUpperCase (t_merchant t))
                              (unnamed_rows user db))))
  = match List.filter (fun t => String.eqb k (Str.toUpperCase (t_merchant t)))
                      (unnamed_rows user db) with
    | [] => []
    | r :: rs =>
        [{| un_rawName := t_merchant (max_row r rs);
            un_count := List.length (r :: rs);
            un_lastAmount := t_amount (max_row r rs) |}]
    end.
Proof.
  set (key := fun t => Str.toUpperCase (t_merchant t)).
  set (G := group_by key (unnamed_rows user db)).
  assert (Hflat : List.filter (fun e => String.eqb k (Str.toUpperCase (un_rawName e)))
                    (List.flat_map unnamed_of_group G)
                  = List.flat_map unnamed_of_group
                      (List.filter (fun g => String.eqb k (fst g)) G)).
  { apply filter_flat_map_in. intros [k' rs'] Hin e He.
    apply in_group_by in Hin. destruct Hin as [Hrs _].
    unfold unnamed_of_group in He. simpl in He. destruct rs' as [|r rs]; [destruct He|].
    destruct He as [<-|[]]. simpl.
    pose proof (max_row_in r rs) as Htop. rewrite Hrs in Htop.
    apply List.filter_In in Htop. destruct Htop as [_ Htop].
    apply String.eqb_eq in Htop. fold (key (max_row r rs)). rewrite <- Htop. reflexivity. }
  assert (Hgroup : List.flat_map unnamed_of_group
                     (List.filter (fun g => String.eqb k (fst g)) G)
                   = unnamed_of_group (k, group_of k G)).
  { destruct (group_of k G) as [|r rs] eqn:Hg.
    - assert (Hnone : List.filter (fun g => String.eqb k (fst g)) G = []).
      { apply find_none_filter.
        destruct (List.find (fun g => String.eqb k (fst g)) G) as [[k' rs']|] eqn:Hf;
          [|reflexivity].
        exfalso. pose proof Hf as Hf'. apply List.find_some in Hf'. destruct Hf' as [Hin Hk].
        apply (@group_by_nonempty _ key (unnamed_rows user db) k' rs' Hin).
        unfold group_of in Hg. rewrite Hf in Hg. exact Hg. }
      rewrite Hnone. reflexivity.
    - assert (Hin : In (k, r :: rs) G).
      { rewrite <- Hg. apply find_key_in. rewrite Hg. discriminate. }
      rewrite (filter_key_singleton k (r :: rs) G (group_by_keys_nodup _ _) Hin).
      cbn [List.flat_map]. apply List.app_nil_r. }
  pose proof (filter_perm (fun e => String.eqb k (Str.toUpperCase (un_rawName e)))
                (order_by_count_desc_perm un_count (List.flat_map unnamed_of_group G)))
    as Hperm.
  rewrite Hflat, Hgroup in Hperm.
  unfold G in Hperm at 2. rewrite group_of_group_by in Hperm. fold G in Hperm.
  unfold key in Hperm.
  apply perm_short in Hperm.
  - rewrite Hperm. unfold unnamed_of_group. cbn [snd].
    destruct (List.filter (fun t => String.eqb k (Str.toUpperCase (t_merchant t)))
                          (unnamed_rows user db)); reflexivity.
  - unfold unnamed_of_group. cbn [snd].
    destruct (List.filter (fun t => String.eqb k (Str.toUpperCase (t_merchant t)))
                          (unnamed_rows user db)); simpl; lia.
Qed.

(** X10: what [getUnnamedMerchants] returns: the store is untouched; the
    entries come by falling count; and for every upper-cased label [k] the
    entries spelled like [k] are the one entry of the owner's unnamed rows
    with that label (none when there is no such row), with their number as
    count and the largest of their amounts as [lastAmount].  No entry is cut
    off. *)
Lemma getUnnamedMerchants_entries (user : Z) (db : Database) :
  exists out,
    getUnnamedMerchants user db = Done out db
    /\ StronglySorted (fun a b => un_count b <= un_count a) out
    /\ forall k,
         List.filter (fun e => String.eqb k (Str.toUpperCase (un_rawName e))) out
         = match List.filter (fun t => String.eqb k (Str.toUpperCase (t_merchant t)))
                             (unnamed_rows user db) with
           | [] => []
           | r :: rs =>
               [{| un_rawName := t_merchant (max_row r rs);
                   un_count := List.length (r :: rs);
                   un_lastAmount := t_amount (max_row r rs) |}]
           end.
Proof.
  unfold getUnnamedMerchants, bind, get, ret. eexists. split; [reflexivity|].
  split; [apply order_by_count_desc_sorted|]. intros k.
  apply unnamed_entries_for_key.
Qed.

(** ** Ingesting the same message twice *)

Lemma same_transaction_key (t t' : Transaction) (r : TransactionRow) :
  userId t = userId t' -> amount t = amount t' -> date t = date t' ->
  type t = type t' -> merchant t = merchant t' ->
  same_transaction t r = same_transaction t' r.
Proof.
  intros Hu Ha Hd Ht Hm. unfold same_transaction. rewrite Hu, Ha, Hd, Ht, Hm. reflexivity.
Qed.

Lemma insertTransaction_frame (t : Transaction) (check : bool) (db db' : Database) (id : Z) :
  insertTransaction t check db = Done id db' ->
  merchant_mapping db' = merchant_mapping db.
Proof.
  intros H.
  destruct (insertTransaction_cases t check db)
    as [(row & rest & _ & _ & Hrun) | [(q & _ & _ & Hrun) | (_ & msg & Hrun)]];
    rewrite Hrun in H; inv H; reflexivity.
Qed.

(** [processSmartSms] as two steps: a message that is not accepted leaves the
    store alone; an accepted one resolves the account and then inserts. *)
Lemma processSmartSms_steps
      (nfkc : string -> string) (today : string) (clock : Z -> string)
      (stored : option Z) (sms sender : string) (user ts : option Z) (quiet : bool)
      (db : Database) :
  match accepted_sms nfkc today clock stored sms sender user ts with
  | None =>
      exists message,
        processSmartSms nfkc today clock stored sms sender user ts quiet db
        = Done (failed message) db
  | Some (owner, parsed) =>
      exists category account db1 (result : Z -> ProcessResult),
        transactions db1 = transactions db
        /\ merchant_mapping db1 = merchant_mapping db
        /\ (forall id, success (result id) = true /\ transactionId (result id) = Some id)
        /\ processSmartSms nfkc today clock stored sms sender user ts quiet db
           = match insertTransaction
                     (sms_payload parsed owner (resolved_name (pe_merchant parsed) owner db)
                                  category account sms) true db1 with
             | Done id db2 => Done (result id) db2
             | Thrown message db2 => Thrown message db2
             end
  end.
Proof.
  unfold accepted_sms, processSmartSms.
  destruct (if no_user user then stored else user) as [owner|]; [|eexists; reflexivity].
  destruct (Z.eqb owner 0); [eexists; reflexivity|].
  destruct (negb (isValid (validateTransactionSms sms sender))); [eexists; reflexivity|].
  destruct (negb (isTransaction (validateTransactionSms sms sender)));
    [eexists; reflexivity|].
  destruct (parseExpense nfkc today clock sms (isKnownBankSender sender) ts) as [parsed|];
    [|eexists; reflexivity].
  rewrite (@bind_done _ _ _ _ _ _ _ (getMerchantMapping_run (pe_merchant parsed) owner db)).
  unfold resolved_name.
  destruct (resolveAccountId_frame (pe_accountLast4 parsed) sender owner db)
    as (account & db1 & Hacc & Htx & Hmm & _).
  destruct (List.find (mapping_matches (pe_merchant parsed) owner) (merchant_mapping db))
    as [mapping|].
  - unfold bind at 1, ret at 1.
    rewrite (@bind_done _ _ _ _ _ _ _ Hacc).
    exists (m_categoryId mapping), account, db1.
    eexists (fun id => {| success := true; transactionId := Some id;
                          needsNaming := Some false; newMerchant := None;
                          error := None |}).
    split; [exact Htx|]. split; [exact Hmm|]. split; [intros id; split; reflexivity|].
    unfold bind, sms_payload.
    match goal with |- context [insertTransaction ?t true db1] =>
      destruct (insertTransaction t true db1); reflexivity
    end.
  - destruct (autoCategorizeMerchant_reads (pe_merchant parsed) owner db) as (category & Hcat).
    unfold bind at 1. unfold bind at 1. rewrite Hcat. unfold ret at 1.
    rewrite (@bind_done _ _ _ _ _ _ _ Hacc).
    exists category, account, db1.
    eexists (fun id => {| success := true; transactionId := Some id;
                          needsNaming := Some true;
                          newMerchant :=
                            Some {| rawName := pe_merchant parsed;
                                    suggestedName := getSuggestedName (pe_merchant parsed);
                                    um_amount := pe_amount parsed;
                                    um_transactionId := id;
                                    um_categoryId := category |};
                          error := None |}).
    split; [exact Htx|]. split; [exact Hmm|]. split; [intros id; split; reflexivity|].
    unfold bind, sms_payload.
    match goal with |- context [insertTransaction ?t true db1] =>
      destruct (insertTransaction t true db1); reflexivity
    end.
Qed.


(* ================================================================== *)
(** * Further properties *)
(* ================================================================== *)

(** ** The classifier, continued *)

Lemma count_matches_positive (patterns : list regex) (pattern : regex) (sms : string) :
  In pattern patterns -> test pattern sms = true ->
  (0 <? count_matches patterns sms) = true.
Proof.
  intros Hin Ht. unfold count_matches.
  destruct (filter_head_in (fun p => test p sms) patterns pattern Hin Ht)
    as (y & rest & -> & _). reflexivity.
Qed.

Lemma test_words_intro (vs : list string) (v sms : string) :
  In v vs -> includes_ci v sms = true -> test (alts (List.map lit_i vs)) sms = true.
Proof.
  intros Hin Hv. rewrite test_words. apply List.existsb_exists. exists v. auto.
Qed.

Ltac in_list :=
  cbn [In]; solve [repeat first [left; reflexivity | right]].

Ltac spam_group words H :=
  apply (count_matches_positive SPAM_INDICATORS (alts (List.map lit_i words)));
  [ in_list
  | eapply (@test_words_intro words); [ | exact H]; in_list ].

(** X1: a body that contains one of the bait phrases, in any letter case,
    is rejected with confidence 0 whoever the sender is. *)
Theorem spam_phrase_rejected (sms sender phrase : string) :
  In phrase SPAM_PHRASES -> includes_ci phrase sms = true ->
  isValid (validateTransactionSms sms sender) = false
  /\ isTransaction (validateTransactionSms sms sender) = false
  /\ (confidence (validateTransactionSms sms sender) == 0)%Q.
Proof.
  intros Hin Hsms. unfold validateTransactionSms.
  destruct (test PROMO_SENDER sender); [repeat split; reflexivity|].
  assert (Hspam : (0 <? count_matches SPAM_INDICATORS sms) = true).
  { unfold SPAM_PHRASES in Hin. cbn [In] in Hin.
    repeat match type of Hin with
    | _ \/ _ => destruct Hin as [<-|Hin]
    | False => destruct Hin
    end.
    all: first
      [ spam_group ["click here"; "tap here"; "http"] Hsms
      | spam_group ["win"; "won"; "lottery"; "prize"] Hsms
      | spam_group ["offer expires"; "limited time"] Hsms
      | spam_group ["verify your"; "confirm your"] Hsms
      | spam_group ["suspicious activity"] Hsms ]. }
  rewrite Hspam. repeat split; reflexivity.
Qed.

Lemma spam_phrase_rejected_witness :
  includes_ci "prize" "Rs 500 credited to A/c XX1234. Click HERE to claim your PRIZE" = true
  /\ isValid (validateTransactionSms
                "Rs 500 credited to A/c XX1234. Click HERE to claim your PRIZE" "AD-HDFCBK")
     = false.
Proof.
  split; [vm_compute; reflexivity|].
  apply (@spam_phrase_rejected
           "Rs 500 credited to A/c XX1234. Click HERE to claim your PRIZE" "AD-HDFCBK" "prize").
  - cbn [SPAM_PHRASES In]. tauto.
  - vm_compute. reflexivity.
Defined.

(** A match at some position makes [exec] succeed (at that position or
    further left). *)
Lemma exec_from_at (r : regex) (a b : string) :
  forall (p : option ascii) (skipped : string),
    match_here r (prev_after p a) b <> None ->
    exec_from r p skipped (a ++ b) <> None.
Proof.
  induction a as [|c a IH]; intros p skipped Hm; simpl in *.
  - destruct b as [|x b]; simpl; destruct (match_here r p _); congruence.
  - destruct (match_here r p (String c (a ++ b))); [discriminate|].
    apply IH. exact Hm.
Qed.

Lemma test_at (r : regex) (a b : string) :
  match_here r (prev_after None a) b <> None -> test r (a ++ b) = true.
Proof.
  intros Hm. unfold test, exec.
  destruct (exec_from r None "" (a ++ b)) eqn:He; [reflexivity|].
  exfalso. revert He. apply exec_from_at. exact Hm.
Qed.

(** X2: a sender header in which a hyphen is followed by P (or p) and then
    by a letter or by the end of the header is dropped as promotional,
    whatever the body and even if a bank code follows, as in AD-PNBSMS. *)
Theorem promotional_sender_rejected (sms header tail : string) (p : ascii) :
  Str.lowc p = "p"%char ->
  match tail with
  | EmptyString => True
  | String c _ => Str.is_alpha c = true
  end ->
  validateTransactionSms sms (header ++ String "-" (String p tail))
  = {| isValid := false; isTransaction := false; confidence := 0;
       reason := "Ignored Promotional Sender (-P)" |}.
Proof.
  intros Hp Htail. unfold validateTransactionSms.
  rewrite (test_at PROMO_SENDER header (String "-" (String p tail))); [reflexivity|].
  unfold match_here, PROMO_SENDER. cbn [seqs rmatch lit1 lit1_i rest caps].
  change (Ascii.eqb "-" "-") with true. cbv iota.
  rewrite Hp. change (Ascii.eqb "p" (Str.lowc "P")) with true. cbv iota.
  destruct tail as [|c tail]; cbn [rmatch rest].
  - discriminate.
  - rewrite Htail. discriminate.
Qed.

Lemma promotional_sender_rejected_witness :
  isKnownBankSender "AD-PNBSMS" = true
  /\ isValid (validateTransactionSms "Rs 500.00 debited from A/c XX1234 via UPI" "AD-PNBSMS")
     = false.
Proof.
  split; [vm_compute; reflexivity|].
  change "AD-PNBSMS" with ("AD" ++ String "-" (String "P" "NBSMS")).
  rewrite (@promotional_sender_rejected
             "Rs 500.00 debited from A/c XX1234 via UPI" "AD" "NBSMS" "P"); reflexivity.
Defined.

(** X3: when the sender carries no promotional marker and the body no spam
    indicator, the sender alone decides validity: the verdict is the
    allow-list answer, whatever the body says; the body only decides
    [isTransaction]. *)
Theorem validity_decided_by_sender (sms sender : string) :
  test PROMO_SENDER sender = false ->
  count_matches SPAM_INDICATORS sms = 0 ->
  isValid (validateTransactionSms sms sender) = isKnownBankSender sender
  /\ isTransaction (validateTransactionSms sms sender)
     = (2 <=? count_matches BANK_INDICATORS sms).
Proof.
  intros Hp Hs. unfold validateTransactionSms. rewrite Hp, Hs.
  destruct (isKnownBankSender sender);
    destruct (2 <=? count_matches BANK_INDICATORS sms); split; reflexivity.
Qed.

Lemma validity_decided_by_sender_witness :
  isValid (validateTransactionSms "" "AD-HDFCBK") = isKnownBankSender "AD-HDFCBK"
  /\ isTransaction (validateTransactionSms "" "AD-HDFCBK")
     = (2 <=? count_matches BANK_INDICATORS "").
Proof.
  apply (@validity_decided_by_sender "" "AD-HDFCBK"); vm_compute; reflexivity.
Defined.

(** ** The entry point, continued *)

(** X4: a run of [processSmartSms] that reports failure has changed nothing
    in the store and names no transaction. *)
Theorem processSmartSms_failure_changes_nothing
      (nfkc : string -> string) (today : string) (clock : Z -> string)
      (stored : option Z) (sms sender : string) (user ts : option Z) (quiet : bool)
      (db db' : Database) (res : ProcessResult) :
  processSmartSms nfkc today clock stored sms sender user ts quiet db = Done res db' ->
  success res = false ->
  db' = db /\ transactionId res = None /\ newMerchant res = None
  /\ accepted_sms nfkc today clock stored sms sender user ts = None.
Proof.
  intros Hrun Hfail.
  pose proof (processSmartSms_steps nfkc today clock stored sms sender user ts quiet db)
    as Hsteps.
  destruct (accepted_sms nfkc today clock stored sms sender user ts) as [[owner parsed]|].
  - destruct Hsteps as (category & account & db1 & result & _ & _ & Hres & Hsteps).
    rewrite Hsteps in Hrun.
    destruct (insertTransaction _ true db1) as [id db2|]; [|discriminate].
    inv Hrun. destruct (Hres id) as [Hok _]. congruence.
  - destruct Hsteps as (message & Hsteps). rewrite Hsteps in Hrun. inv Hrun.
    repeat split; reflexivity.
Qed.

Lemma processSmartSms_failure_changes_nothing_witness :
  exists res,
    processSmartSms identity "2026-01-01" no_clock None
                    "Your OTP for login is 123456" "AD-HDFCBK" (Some 1%Z) None false
                    starbucks_store
    = Done res starbucks_store
    /\ success res = false /\ transactionId res = None.
Proof.
  eexists. split; [vm_compute; reflexivity|]. split; [reflexivity|].
  eapply (@processSmartSms_failure_changes_nothing
            identity "2026-01-01" no_clock None
            "Your OTP for login is 123456" "AD-HDFCBK" (Some 1%Z) None false
            starbucks_store starbucks_store).
  - vm_compute. reflexivity.
  - reflexivity.
Defined.

(** X5: a message from a sender outside the allow-list is never stored:
    for a logged-in user the run ends with a failure and the store as it
    was, whatever the body says. *)
Theorem processSmartSms_unknown_sender
      (nfkc : string -> string) (today : string) (clock : Z -> string)
      (stored : option Z) (sms sender : string) (user ts : option Z) (quiet : bool)
      (db : Database) :
  isKnownBankSender sender = false ->
  exists message,
    processSmartSms nfkc today clock stored sms sender user ts quiet db
    = Done (failed message) db.
Proof.
  intros Hunknown. unfold processSmartSms.
  destruct (if no_user user then stored else user) as [owner|]; [|eexists; reflexivity].
  destruct (Z.eqb owner 0); [eexists; reflexivity|].
  assert (Hv : isValid (validateTransactionSms sms sender) = false).
  { unfold validateTransactionSms. rewrite Hunknown.
    destruct (test PROMO_SENDER sender); [reflexivity|].
    destruct (0 <? count_matches SPAM_INDICATORS sms); [reflexivity|].
    destruct (2 <=? count_matches BANK_INDICATORS sms); reflexivity. }
  rewrite Hv. eexists. reflexivity.
Qed.

Lemma processSmartSms_unknown_sender_witness :
  exists message,
    processSmartSms identity "2026-01-01" no_clock None
                    starbucks_sms "AD-FOOBAR" (Some 1%Z) None false starbucks_store
    = Done (failed message) starbucks_store.
Proof.
  apply (@processSmartSms_unknown_sender identity "2026-01-01" no_clock None
           starbucks_sms "AD-FOOBAR" (Some 1%Z) None false starbucks_store).
  vm_compute. reflexivity.
Defined.

(** X6: a successful run asks for a name exactly when the owner had no
    mapping for the parsed merchant: then the result carries the raw token,
    the suggested name and the id of the stored transaction; with a mapping
    it carries no merchant. *)
Theorem processSmartSms_asks_for_name
      (nfkc : string -> string) (today : string) (clock : Z -> string)
      (stored : option Z) (sms sender : string) (user ts : option Z) (quiet : bool)
      (db db' : Database) (res : ProcessResult) :
  processSmartSms nfkc today clock stored sms sender user ts quiet db = Done res db' ->
  success res = true ->
  exists owner parsed id,
    accepted_sms nfkc today clock stored sms sender user ts = Some (owner, parsed)
    /\ transactionId res = Some id
    /\ match List.find (mapping_matches (pe_merchant parsed) owner) (merchant_mapping db) with
       | Some _ => needsNaming res = Some false /\ newMerchant res = None
       | None =>
           needsNaming res = Some true
           /\ exists um,
                newMerchant res = Some um
                /\ rawName um = pe_merchant parsed
                /\ suggestedName um = getSuggestedName (pe_merchant parsed)
                /\ um_amount um = pe_amount parsed
                /\ um_transactionId um = id
       end.
Proof.
  unfold processSmartSms, accepted_sms.
  destruct (if no_user user then stored else user) as [owner|];
    [|intros H; inv H; discriminate].
  destruct (Z.eqb owner 0); [intros H; inv H; discriminate|].
  destruct (negb (isValid (validateTransactionSms sms sender)));
    [intros H; inv H; discriminate|].
  destruct (negb (isTransaction (validateTransactionSms sms sender)));
    [intros H; inv H; discriminate|].
  destruct (parseExpense nfkc today clock sms (isKnownBankSender sender) ts) as [parsed|];
    [|intros H; inv H; discriminate].
  rewrite (@bind_done _ _ _ _ _ _ _ (getMerchantMapping_run (pe_merchant parsed) owner db)).
  destruct (resolveAccountId_frame (pe_accountLast4 parsed) sender owner db)
    as (account & db1 & Hacc & _).
  destruct (List.find (mapping_matches (pe_merchant parsed) owner) (merchant_mapping db))
    as [mapping|] eqn:Hfind.
  - unfold bind at 1, ret at 1.
    rewrite (@bind_done _ _ _ _ _ _ _ Hacc).
    unfold bind at 1.
    destruct (insertTransaction _ true db1) as [id db2|]; [|discriminate].
    unfold ret. intros H _. inv H. exists owner, parsed, id. rewrite Hfind.
    repeat split; reflexivity.
  - destruct (autoCategorizeMerchant_reads (pe_merchant parsed) owner db) as (cat & Hcat).
    unfold bind at 1.
    rewrite (@bind_done _ _ _ _ _ _ _ Hcat). unfold ret at 1.
    rewrite (@bind_done _ _ _ _ _ _ _ Hacc).
    unfold bind at 1.
    destruct (insertTransaction _ true db1) as [id db2|]; [|discriminate].
    unfold ret. intros H _. inv H. exists owner, parsed, id. rewrite Hfind.
    split; [reflexivity|]. split; [reflexivity|]. split; [reflexivity|].
    eexists. repeat split; reflexivity.
Qed.

Lemma processSmartSms_asks_for_name_witness :
  exists res db',
    processSmartSms identity "2026-01-01" no_clock None
                    starbucks_sms "AD-HDFCBK" (Some 2%Z) None false starbucks_store
    = Done res db'
    /\ exists owner parsed id,
         accepted_sms identity "2026-01-01" no_clock None starbucks_sms "AD-HDFCBK"
                      (Some 2%Z) None = Some (owner, parsed)
         /\ transactionId res = Some id
         /\ match List.find (mapping_matches (pe_merchant parsed) owner)
                            (merchant_mapping starbucks_store) with
            | Some _ => needsNaming res = Some false /\ newMerchant res = None
            | None =>
                needsNaming res = Some true
                /\ exists um,
                     newMerchant res = Some um
                     /\ rawName um = pe_merchant parsed
                     /\ suggestedName um = getSuggestedName (pe_merchant parsed)
                     /\ um_amount um = pe_amount parsed
                     /\ um_transactionId um = id
            end.
Proof.
  do 2 eexists. split; [vm_compute; reflexivity|].
  eapply (@processSmartSms_asks_for_name identity "2026-01-01" no_clock None
            starbucks_sms "AD-HDFCBK" (Some 2%Z) None false starbucks_store).
  - vm_compute. reflexivity.
  - reflexivity.
Defined.



(** ** The account resolver *)

Lemma fold_min_in (ids : list Z) :
  forall i : Z, In (List.fold_left Z.min ids i) (i :: ids).
Proof.
  induction ids as [|a ids IH]; intros i; simpl; [left; reflexivity|].
  destruct (IH (Z.min i a)) as [H|H].
  - rewrite <- H. destruct (Z.min_spec i a) as [[_ ->]|[_ ->]]; auto.
  - right. right. exact H.
Qed.

Lemma col_is_true (column : option Z) (v : Z) :
  col_is column v = true -> column = Some v.
Proof.
  destruct column as [x|]; simpl; [|discriminate].
  intros H. apply Z.eqb_eq in H. congruence.
Qed.

Lemma least_id_in (rows : list Account) (id : Z) :
  least_id rows = Some id -> exists row, In row rows /\ a_id row = id.
Proof.
  unfold least_id. destruct rows as [|r rows]; simpl; [discriminate|].
  intros H. inv H.
  pose proof (fold_min_in (List.map a_id rows) (a_id r)) as Hin.
  change (a_id r :: List.map a_id rows) with (List.map a_id (r :: rows)) in Hin.
  apply List.in_map_iff in Hin. destruct Hin as (row & Hid & Hin).
  exists row. split; [exact Hin|exact Hid].
Qed.

Lemma least_id_none (rows : list Account) : least_id rows = None -> rows = [].
Proof. destruct rows; [reflexivity|discriminate]. Qed.

Lemma first_id_none (rows : list Account) : first_id rows = None -> rows = [].
Proof. destruct rows; [reflexivity|discriminate]. Qed.

Lemma existsb_filter_nil {A : Type} (f : A -> bool) (l : list A) :
  List.filter f l = [] -> List.existsb f l = false.
Proof.
  induction l as [|a l IH]; simpl; [reflexivity|].
  destruct (f a); [discriminate|exact IH].
Qed.

Lemma filter_nil_weaken {A : Type} (f g : A -> bool) (l : list A) :
  (forall x, g x = true -> f x = true) -> List.filter f l = [] -> List.filter g l = [].
Proof.
  intros Hgf. induction l as [|a l IH]; simpl; [reflexivity|].
  destruct (f a) eqn:Hf; [discriminate|]. intros H.
  destruct (g a) eqn:Hg; [rewrite (Hgf a Hg) in Hf; discriminate|]. auto.
Qed.

(** What a call of [resolveAccountId] does, one statement at a time. *)
Lemma resolveAccountId_run (digits : option string) (sender : string) (user : Z)
      (db : Database) :
  exists id db1 row,
    resolveAccountId digits sender user db = Done (Some id) db1
    /\ resolveAccountId digits sender user db1 = Done (Some id) db1
    /\ In row (accounts db1) /\ a_id row = id
    /\ bankName row = bank_of_sender sender /\ a_userId row = Some user
    /\ (falsy digits = false -> Some (last4 row) = digits)
    /\ (accounts db1 = accounts db \/ accounts db1 = (accounts db ++ [row])%list).
Proof.
  unfold resolveAccountId, try_catch, bind, get, ret.
  destruct (falsy digits) eqn:Hfalsy.
  - destruct (least_id _) as [id|] eqn:Hleast.
    + destruct (least_id_in _ Hleast) as (row & Hin & Hid).
      apply List.filter_In in Hin. destruct Hin as [Hin Hrow].
      apply andb_true_iff in Hrow. destruct Hrow as [Hbank Huser].
      exists id, db, row. rewrite Hleast.
      repeat split; auto; try discriminate.
      * apply String.eqb_eq. exact Hbank.
      * apply col_is_true. exact Huser.
    + apply least_id_none in Hleast.
      unfold insertAccount, bind, get, put, ret, throw.
      assert (Hnone : List.filter
                        (fun a => String.eqb (bankName a) (bank_of_sender sender)
                                  && String.eqb (last4 a) "XXXX"
                                  && col_is (a_userId a) user) (accounts db) = []).
      { revert Hleast. apply filter_nil_weaken. intros x Hx.
        apply andb_true_iff in Hx. destruct Hx as [Hx Hu].
        apply andb_true_iff in Hx. destruct Hx as [Hb _].
        rewrite Hb, Hu. reflexivity. }
      rewrite (existsb_filter_nil _ _ Hnone).
      do 3 eexists. split; [reflexivity|]. cbn [accounts set_accounts].
      rewrite List.filter_app, Hleast. cbn [List.filter List.app a_userId bankName col_is].
      rewrite String.eqb_refl, Z.eqb_refl. cbn [andb least_id List.map a_id List.fold_left].
      repeat split; auto; try reflexivity; try discriminate.
      apply List.in_or_app. right. left. reflexivity.
  - destruct digits as [d|]; [|discriminate]. fold (select_account (bank_of_sender sender) d user db).
    destruct (first_id _) as [id|] eqn:Hfirst.
    + unfold first_id in Hfirst.
      destruct (select_account (bank_of_sender sender) d user db) as [|row rows] eqn:Hsel;
        [discriminate|]. inv Hfirst.
      assert (Hin : In row (select_account (bank_of_sender sender) d user db))
        by (rewrite Hsel; left; reflexivity).
      apply List.filter_In in Hin. destruct Hin as [Hin Hrow].
      apply andb_true_iff in Hrow. destruct Hrow as [Hrow Huser].
      apply andb_true_iff in Hrow. destruct Hrow as [Hbank Hdigits].
      exists (a_id row), db, row. rewrite Hsel. cbn [first_id].
      repeat split; auto.
      * apply String.eqb_eq. exact Hbank.
      * apply col_is_true. exact Huser.
      * intros _. f_equal. apply String.eqb_eq. exact Hdigits.
    + apply first_id_none in Hfirst.
      unfold insertAccount, bind, get, put, ret, throw.
      unfold select_account in Hfirst. rewrite (existsb_filter_nil _ _ Hfirst).
      do 3 eexists. split; [reflexivity|].
      unfold select_account. cbn [accounts set_accounts].
      rewrite List.filter_app, Hfirst.
      cbn [List.filter List.app a_userId bankName last4 col_is].
      rewrite !String.eqb_refl, Z.eqb_refl. cbn [andb first_id a_id].
      repeat split; auto; try reflexivity.
      apply List.in_or_app. right. left. reflexivity.
Qed.

(** X9: run one statement at a time, [resolveAccountId] never answers null
    and never throws: it returns the id of an account of that user and bank
    (with the given digits when there are some), creating at most one
    account, and asking again returns the same id and changes nothing. *)
Theorem resolveAccountId_stable (digits : option string) (sender : string) (user : Z)
      (db : Database) :
  exists id db1 row,
    resolveAccountId digits sender user db = Done (Some id) db1
    /\ resolveAccountId digits sender user db1 = Done (Some id) db1
    /\ In row (accounts db1) /\ a_id row = id
    /\ bankName row = bank_of_sender sender /\ a_userId row = Some user
    /\ (falsy digits = false -> Some (last4 row) = digits)
    /\ (accounts db1 = accounts db \/ accounts db1 = (accounts db ++ [row])%list).
Proof. exact (resolveAccountId_run digits sender user db). Qed.

(** ** The merchant learner, continued *)

Lemma find_none_existsb {A : Type} (f g : A -> bool) (l : list A) :
  (forall x, g x = true -> f x = true) ->
  List.find f l = None -> List.existsb g l = false.
Proof.
  intros Hgf. induction l as [|a l IH]; simpl; [reflexivity|].
  destruct (f a) eqn:Hf; [discriminate|]. intros H.
  destruct (g a) eqn:Hg; [rewrite (Hgf a Hg) in Hf; discriminate|]. auto.
Qed.

Lemma saveMerchantName_run (rawName display : string) (category : option Z)
      (user : Z) (db : Database) :
  saveMerchantName rawName display category user db
  = Done tt (saved_store rawName display category user db).
Proof.
  unfold saveMerchantName, saved_store, saved_mappings, getMerchantMapping,
    updateAllTransactionsForMerchant, relabel_all, bind, get, put, ret.
  destruct (List.find (mapping_matches rawName user) (merchant_mapping db)) as [e|] eqn:Hfind.
  - reflexivity.
  - unfold insertMerchantMapping, bind, get, put, ret, throw.
    rewrite (find_none_existsb (mapping_matches rawName user) _ (merchant_mapping db));
      [reflexivity| |exact Hfind].
    intros m Hm. apply andb_true_iff in Hm. destruct Hm as [Hname Huser].
    unfold mapping_matches. rewrite Huser. apply String.eqb_eq in Hname.
    rewrite Hname, upper_eq_toUpperCase. reflexivity.
Qed.

Lemma find_ext {A : Type} (f g : A -> bool) (l : list A) :
  (forall x, f x = g x) -> List.find f l = List.find g l.
Proof.
  intros Hfg. induction l as [|a l IH]; simpl; [reflexivity|].
  rewrite Hfg, IH. reflexivity.
Qed.

Lemma find_map_same {A : Type} (f : A -> bool) (g : A -> A) (l : list A) (e : A) :
  (forall x, f (g x) = f x) ->
  List.find f l = Some e -> List.find f (List.map g l) = Some (g e).
Proof.
  intros Hfg. induction l as [|a l IH]; simpl; [discriminate|].
  rewrite Hfg. destruct (f a); [intros H; inv H; reflexivity|exact IH].
Qed.

Lemma find_app_last {A : Type} (f : A -> bool) (l : list A) (x : A) :
  List.find f l = None -> f x = true -> List.find f (l ++ [x]) = Some x.
Proof.
  intros Hnone Hx. induction l as [|a l IH]; simpl in *; [rewrite Hx; reflexivity|].
  destruct (f a); [discriminate|auto].
Qed.

Lemma mapping_matches_spelling (spelled rawName : string) (user : Z) (m : MerchantMapping) :
  upper_eq spelled rawName = true ->
  mapping_matches spelled user m = mapping_matches rawName user m.
Proof.
  unfold mapping_matches, upper_eq. intros H. apply String.eqb_eq in H.
  rewrite H. reflexivity.
Qed.

(** The row a lookup finds after [saveMerchantName]. *)
Lemma saved_mappings_find (rawName display : string) (category : option Z) (user : Z)
      (db : Database) :
  exists m,
    List.find (mapping_matches rawName user)
              (fst (saved_mappings rawName display category user db)) = Some m
    /\ displayName m = display /\ m_categoryId m = category
    /\ m_userId m = Some user
    /\ Str.toUpperCase (smsName m) = Str.toUpperCase rawName.
Proof.
  unfold saved_mappings.
  destruct (List.find (mapping_matches rawName user) (merchant_mapping db)) as [e|] eqn:Hfind;
    cbn [fst].
  - eexists. split.
    + apply find_map_same; [|exact Hfind].
      intros x. destruct (Z.eqb (m_id x) (m_id e)); reflexivity.
    + cbv beta. rewrite Z.eqb_refl. cbn [displayName m_categoryId m_userId smsName].
      apply List.find_some in Hfind. destruct Hfind as [_ Hm].
      apply andb_true_iff in Hm. destruct Hm as [Hname Huser].
      repeat split; [apply col_is_true; exact Huser|apply String.eqb_eq; exact Hname].
  - eexists. split.
    + apply find_app_last; [exact Hfind|].
      unfold mapping_matches. cbn [smsName m_userId col_is].
      rewrite upper_eq_toUpperCase, Z.eqb_refl. reflexivity.
    + cbn [displayName m_categoryId m_userId smsName]. repeat split.
      apply toUpperCase_idempotent.
Qed.

(** X11: for a raw token of ASCII characters: after [saveMerchantName] the
    owner's lookup of the token, in any letter case, finds a mapping that
    carries the saved display name and category. *)
Theorem saveMerchantName_then_lookup (rawName display spelled : string)
      (category : option Z) (user : Z) (db : Database) :
  is_ascii_text rawName = true ->
  upper_eq spelled rawName = true ->
  exists db' m,
    saveMerchantName rawName display category user db = Done tt db'
    /\ getMerchantMapping spelled user db' = Done (Some m) db'
    /\ displayName m = display /\ m_categoryId m = category
    /\ m_userId m = Some user.
Proof.
  intros _ Hspelled.
  destruct (saved_mappings_find rawName display category user db)
    as (m & Hfind & Hd & Hc & Hu & _).
  exists (saved_store rawName display category user db), m.
  split; [apply saveMerchantName_run|].
  rewrite getMerchantMapping_run.
  rewrite (find_ext _ (mapping_matches rawName user) _
             (fun x => @mapping_matches_spelling spelled rawName user x Hspelled)).
  unfold saved_store at 1. cbn [merchant_mapping set_transactions set_merchant_mapping].
  rewrite Hfind. auto.
Qed.

Lemma saveMerchantName_then_lookup_witness :
  is_ascii_text "Starbucks" = true
  /\ upper_eq "starbucks" "Starbucks" = true
  /\ exists db' m,
       saveMerchantName "Starbucks" "Coffee Break" (Some 4%Z) 1 example_store = Done tt db'
       /\ getMerchantMapping "starbucks" 1 db' = Done (Some m) db'
       /\ displayName m = "Coffee Break" /\ m_categoryId m = Some 4%Z
       /\ m_userId m = Some 1%Z.
Proof.
  split; [reflexivity|]. split; [vm_compute; reflexivity|].
  apply (@saveMerchantName_then_lookup "Starbucks" "Coffee Break" "starbucks"
           (Some 4%Z) 1%Z example_store).
  - reflexivity.
  - vm_compute. reflexivity.
Defined.

Lemma relabel_all_idempotent (rawName display : string) (category : option Z)
      (rows : list TransactionRow) :
  relabel_all rawName display category (relabel_all rawName display category rows)
  = relabel_all rawName display category rows.
Proof.
  unfold relabel_all. rewrite List.map_map. apply List.map_ext. intros r.
  destruct (upper_eq (t_merchant r) rawName) eqn:Hr; [|rewrite Hr; reflexivity].
  cbn [relabel t_merchant]. destruct (upper_eq display rawName); reflexivity.
Qed.

Lemma fold_max_bound (ids : list Z) (seq x : Z) :
  In x ids -> (x <= List.fold_right Z.max seq ids)%Z.
Proof.
  induction ids as [|a ids IH]; simpl; [tauto|].
  intros [->|Hin]; [lia|]. specialize (IH Hin). lia.
Qed.

Lemma next_id_fresh {A : Type} (id : A -> Z) (rows : list A) (seq : Z) (x : A) :
  In x rows -> Z.eqb (id x) (next_id (List.map id rows) seq) = false.
Proof.
  intros Hin. apply Z.eqb_neq. unfold next_id.
  pose proof (fold_max_bound (List.map id rows) seq (id x) (List.in_map id rows x Hin)).
  lia.
Qed.

Lemma map_id_ext {A : Type} (g : A -> A) (l : list A) :
  (forall x, In x l -> g x = x) -> List.map g l = l.
Proof.
  induction l as [|a l IH]; simpl; intros H; [reflexivity|].
  rewrite H by (left; reflexivity). rewrite IH; [reflexivity|].
  intros x Hx. apply H. right. exact Hx.
Qed.

Lemma saved_mappings_again (rawName display : string) (category : option Z) (user : Z)
      (db : Database) :
  saved_mappings rawName display category user
                 (saved_store rawName display category user db)
  = saved_mappings rawName display category user db.
Proof.
  unfold saved_store.
  unfold saved_mappings at 1.
  cbn [merchant_mapping seq_merchant_mapping set_transactions set_merchant_mapping].
  unfold saved_mappings.
  destruct (List.find (mapping_matches rawName user) (merchant_mapping db)) as [e|] eqn:Hfind;
    cbn [fst snd].
  - erewrite find_map_same;
      [|intros x; destruct (Z.eqb (m_id x) (m_id e)); reflexivity|exact Hfind].
    rewrite Z.eqb_refl. cbn [m_id]. f_equal.
    rewrite List.map_map. apply List.map_ext. intros x.
    destruct (Z.eqb (m_id x) (m_id e)) eqn:Hx; cbn [m_id]; rewrite Hx; reflexivity.
  - erewrite find_app_last;
      [|exact Hfind
       |unfold mapping_matches; cbn [smsName m_userId col_is];
        rewrite upper_eq_toUpperCase, Z.eqb_refl; reflexivity].
    cbn [m_id]. f_equal.
    rewrite List.map_app. cbn [List.map m_id]. rewrite Z.eqb_refl.
    rewrite map_id_ext; [reflexivity|].
    intros x Hx. rewrite (next_id_fresh m_id _ _ x Hx). reflexivity.
Qed.

(** X12: for a raw token of ASCII characters, saving the same name again
    changes nothing: [saveMerchantName] run on its own result completes and
    leaves the store as it is. *)
Theorem saveMerchantName_idempotent (rawName display : string) (category : option Z)
      (user : Z) (db : Database) :
  is_ascii_text rawName = true ->
  exists db1,
    saveMerchantName rawName display category user db = Done tt db1
    /\ saveMerchantName rawName display category user db1 = Done tt db1.
Proof.
  intros _.
  exists (saved_store rawName display category user db).
  split; [apply saveMerchantName_run|].
  rewrite saveMerchantName_run. f_equal.
  unfold saved_store at 1. rewrite saved_mappings_again.
  unfold saved_store at 1.
  cbn [transactions set_transactions set_merchant_mapping].
  rewrite relabel_all_idempotent. reflexivity.
Qed.

Lemma saveMerchantName_idempotent_witness :
  is_ascii_text "upi-zomato" = true
  /\ exists db1,
       saveMerchantName "upi-zomato" "Zomato" (Some 1%Z) 1 backlog_store = Done tt db1
       /\ saveMerchantName "upi-zomato" "Zomato" (Some 1%Z) 1 db1 = Done tt db1.
Proof.
  split; [reflexivity|].
  apply (@saveMerchantName_idempotent "upi-zomato" "Zomato" (Some 1%Z) 1%Z backlog_store).
  reflexivity.
Defined.

Lemma upper_eq_sym (a b : string) : upper_eq a b = upper_eq b a.
Proof. unfold upper_eq. apply String.eqb_sym. Qed.

Lemma upper_eq_upper_r (a b : string) : upper_eq a (Str.toUpperCase b) = upper_eq a b.
Proof. unfold upper_eq. rewrite toUpperCase_idempotent. reflexivity. Qed.

Lemma upper_eq_trans (a b c : string) :
  upper_eq a b = true -> upper_eq b c = upper_eq a c.
Proof.
  unfold upper_eq. intros H. apply String.eqb_eq in H. rewrite H. reflexivity.
Qed.

Lemma existsb_map {A B : Type} (f : B -> bool) (g : A -> B) (l : list A) :
  List.existsb f (List.map g l) = List.existsb (fun x => f (g x)) l.
Proof. induction l as [|a l IH]; simpl; [reflexivity|]. rewrite IH. reflexivity. Qed.

(** After [saveMerchantName] a row counts as named for the owner if it was
    before or if it is spelled like the raw token. *)
Lemma has_mapping_saved (rawName display : string) (category : option Z) (user : Z)
      (db : Database) (x : TransactionRow) :
  has_mapping user (fst (saved_mappings rawName display category user db)) x
  = has_mapping user (merchant_mapping db) x || upper_eq (t_merchant x) rawName.
Proof.
  unfold saved_mappings, has_mapping.
  destruct (List.find (mapping_matches rawName user) (merchant_mapping db)) as [e|] eqn:Hfind;
    cbn [fst].
  - rewrite existsb_map.
    rewrite (existsb_ext _ (fun m => upper_eq (t_merchant x) (smsName m)
                                     && col_is (m_userId m) user))
      by (intros m; destruct (Z.eqb (m_id m) (m_id e)); reflexivity).
    destruct (upper_eq (t_merchant x) rawName) eqn:Hx; [|rewrite orb_false_r; reflexivity].
    rewrite orb_true_r. apply List.existsb_exists. exists e.
    apply List.find_some in Hfind. destruct Hfind as [Hin He]. split; [exact Hin|].
    unfold mapping_matches in He. apply andb_true_iff in He. destruct He as [Hname Huser].
    rewrite Huser, andb_true_r.
    rewrite <- (@upper_eq_trans (t_merchant x) rawName (smsName e) Hx).
    rewrite upper_eq_sym. exact Hname.
  - rewrite List.existsb_app. cbn [List.existsb smsName m_userId col_is].
    rewrite Z.eqb_refl, andb_true_r, orb_false_r, upper_eq_upper_r. reflexivity.
Qed.

Lemma filter_nil_intro {A : Type} (f : A -> bool) (l : list A) :
  (forall x, In x l -> f x = false) -> List.filter f l = [].
Proof.
  induction l as [|a l IH]; simpl; intros H; [reflexivity|].
  rewrite (H a) by (left; reflexivity). apply IH. intros x Hx. apply H. right. exact Hx.
Qed.

Lemma getUnnamedMerchants_run (user : Z) (db : Database) :
  exists out,
    getUnnamedMerchants user db = Done out db
    /\ forall k,
         List.filter (fun e => String.eqb k (Str.toUpperCase (un_rawName e))) out
         = match List.filter (fun t => String.eqb k (Str.toUpperCase (t_merchant t)))
                             (unnamed_rows user db) with
           | [] => []
           | r :: rs =>
               [{| un_rawName := t_merchant (max_row r rs);
                   un_count := List.length (r :: rs);
                   un_lastAmount := t_amount (max_row r rs) |}]
           end.
Proof.
  unfold getUnnamedMerchants, bind, get, ret. eexists. split; [reflexivity|].
  intros k. apply unnamed_entries_for_key.
Qed.

(** X13: once a raw token of ASCII characters is saved,
    [getUnnamedMerchants] lists no entry of that owner spelled like it, in
    any letter case. *)
Theorem saved_merchant_not_unnamed (rawName display : string) (category : option Z)
      (user : Z) (db : Database) :
  is_ascii_text rawName = true ->
  exists db' out,
    saveMerchantName rawName display category user db = Done tt db'
    /\ getUnnamedMerchants user db' = Done out db'
    /\ forall e, In e out -> upper_eq (un_rawName e) rawName = false.
Proof.
  intros _.
  exists (saved_store rawName display category user db).
  destruct (getUnnamedMerchants_run user (saved_store rawName display category user db))
    as (out & Hout & Hkeys).
  exists out. split; [apply saveMerchantName_run|]. split; [exact Hout|].
  intros e He. destruct (upper_eq (un_rawName e) rawName) eqn:Hspelled; [|reflexivity].
  exfalso.
  assert (Hin : In e (List.filter
                        (fun e => String.eqb (Str.toUpperCase rawName)
                                             (Str.toUpperCase (un_rawName e))) out)).
  { apply List.filter_In. split; [exact He|].
    rewrite String.eqb_sym. exact Hspelled. }
  rewrite Hkeys in Hin.
  rewrite filter_nil_intro in Hin; [destruct Hin|].
  intros t Ht. unfold unnamed_rows in Ht. apply List.filter_In in Ht.
  destruct Ht as [_ Ht]. apply andb_true_iff in Ht. destruct Ht as [Ht _].
  unfold saved_store in Ht.
  cbn [merchant_mapping set_transactions set_merchant_mapping] in Ht.
  rewrite has_mapping_saved in Ht. apply negb_true_iff, orb_false_iff in Ht.
  destruct Ht as [_ Ht]. unfold upper_eq in Ht. rewrite String.eqb_sym. exact Ht.
Qed.

Lemma saved_merchant_not_unnamed_witness :
  is_ascii_text "bar" = true
  /\ exists db' out,
       saveMerchantName "bar" "Bar Cafe" None 1 backlog_store = Done tt db'
       /\ getUnnamedMerchants 1 db' = Done out db'
       /\ forall e, In e out -> upper_eq (un_rawName e) "bar" = false.
Proof.
  split; [reflexivity|].
  apply (@saved_merchant_not_unnamed "bar" "Bar Cafe" None 1%Z backlog_store).
  reflexivity.
Defined.

(** X14: for a raw token of ASCII characters, the rewritten rows come back
    as unnamed under the display name:
    when the owner has a row spelled like the raw token, the display name
    is spelled differently and the owner has no mapping for the display
    name, then after [saveMerchantName] the list of unnamed merchants has
    an entry spelled like the display name. *)
Theorem renamed_merchant_listed_as_unnamed (rawName display : string)
      (category : option Z) (user : Z) (db : Database) (t : TransactionRow) :
  is_ascii_text rawName = true ->
  In t (transactions db) ->
  t_user_id t = Some user ->
  upper_eq (t_merchant t) rawName = true ->
  upper_eq display rawName = false ->
  (forall m, In m (merchant_mapping db) -> mapping_matches display user m = false) ->
  exists db' out e,
    saveMerchantName rawName display category user db = Done tt db'
    /\ getUnnamedMerchants user db' = Done out db'
    /\ In e out
    /\ upper_eq (un_rawName e) display = true
    /\ 1 <= un_count e.
Proof.
  intros _ Hin Huser Hraw Hdiff Hfree.
  exists (saved_store rawName display category user db).
  destruct (getUnnamedMerchants_run user (saved_store rawName display category user db))
    as (out & Hout & Hkeys).
  exists out.
  assert (Hrow : In (relabel display category t)
                    (List.filter (fun r => String.eqb (Str.toUpperCase display)
                                                      (Str.toUpperCase (t_merchant r)))
                                 (unnamed_rows user
                                    (saved_store rawName display category user db)))).
  { apply List.filter_In. split; [|apply String.eqb_refl].
    unfold unnamed_rows. apply List.filter_In. split.
    - unfold saved_store. cbn [transactions set_transactions]. unfold relabel_all.
      apply List.in_map_iff. exists t. rewrite Hraw. auto.
    - unfold saved_store. cbn [merchant_mapping set_transactions set_merchant_mapping].
      rewrite has_mapping_saved. cbn [relabel t_merchant t_user_id].
      rewrite Hdiff, orb_false_r, Huser. cbn [col_is]. rewrite Z.eqb_refl, andb_true_r.
      apply negb_true_iff. unfold has_mapping.
      apply existsb_false_forall. intros m Hm. specialize (Hfree m Hm).
      unfold mapping_matches in Hfree. cbn [t_merchant].
      rewrite upper_eq_sym. exact Hfree. }
  specialize (Hkeys (Str.toUpperCase display)).
  destruct (List.filter _ (unnamed_rows user _)) as [|r rs]; [destruct Hrow|].
  eexists. split; [apply saveMerchantName_run|]. split; [exact Hout|].
  assert (He : In {| un_rawName := t_merchant (max_row r rs);
                     un_count := List.length (r :: rs);
                     un_lastAmount := t_amount (max_row r rs) |}
                  (List.filter (fun e => String.eqb (Str.toUpperCase display)
                                                    (Str.toUpperCase (un_rawName e))) out))
    by (rewrite Hkeys; left; reflexivity).
  apply List.filter_In in He. destruct He as [He Hname].
  split; [exact He|]. split.
  - unfold upper_eq. rewrite String.eqb_sym. exact Hname.
  - cbn [un_count List.length]. lia.
Qed.

Lemma renamed_merchant_listed_as_unnamed_witness :
  exists db' out e,
    saveMerchantName "foo" "Foo Mart" None 1 backlog_store = Done tt db'
    /\ getUnnamedMerchants 1 db' = Done out db'
    /\ In e out
    /\ upper_eq (un_rawName e) "Foo Mart" = true
    /\ 1 <= un_count e.
Proof.
  apply (@renamed_merchant_listed_as_unnamed "foo" "Foo Mart" None 1%Z backlog_store
           (sample_row 1 1 "FOO" 900 "2024-01-01" None)).
  - reflexivity.
  - left. reflexivity.
  - reflexivity.
  - vm_compute. reflexivity.
  - vm_compute. reflexivity.
  - intros m Hm. destruct Hm.
Defined.

(** ** The suggested name *)

Lemma forallb_filter (p : ascii -> bool) (s : string) :
  Str.forallb p (Str.filter p s) = true.
Proof.
  induction s as [|c s IH]; simpl; [reflexivity|].
  destruct (p c) eqn:Hc; simpl; [rewrite Hc|]; exact IH.
Qed.

Lemma forallb_trimStart (p : ascii -> bool) (s : string) :
  Str.forallb p s = true -> Str.forallb p (Str.trimStart s) = true.
Proof.
  induction s as [|c s IH]; simpl; [reflexivity|].
  intros H. destruct (Str.is_space c); [|exact H].
  apply andb_true_iff in H. apply IH. apply H.
Qed.

Lemma forallb_trim (p : ascii -> bool) (s : string) :
  Str.forallb p s = true -> Str.forallb p (Str.trim s) = true.
Proof.
  intros H. unfold Str.trim. rewrite forallb_rev. apply forallb_trimStart.
  rewrite forallb_rev. apply forallb_trimStart. exact H.
Qed.

Lemma upc_alnum (c : ascii) : is_alnum c = true -> is_alnum (Str.upc c) = true.
Proof. destruct c as [[] [] [] [] [] [] [] []]; vm_compute; auto. Qed.

Lemma lowc_alnum (c : ascii) : is_alnum c = true -> is_alnum (Str.lowc c) = true.
Proof. destruct c as [[] [] [] [] [] [] [] []]; vm_compute; auto. Qed.

Lemma forallb_map (p : ascii -> bool) (f : ascii -> ascii) (s : string) :
  (forall c, p c = true -> p (f c) = true) ->
  Str.forallb p s = true -> Str.forallb p (Str.map f s) = true.
Proof.
  intros Hf. induction s as [|c s IH]; simpl; [reflexivity|].
  intros H. apply andb_true_iff in H. destruct H as [Hc Hs].
  rewrite (Hf c Hc). exact (IH Hs).
Qed.

Lemma capitalize_alnum (w : string) :
  Str.forallb is_alnum w = true -> Str.forallb is_alnum (Str.capitalize w) = true.
Proof.
  destruct w as [|c w]; simpl; [reflexivity|].
  intros H. apply andb_true_iff in H. destruct H as [Hc Hw].
  rewrite (upc_alnum c Hc). apply forallb_map; [exact lowc_alnum|exact Hw].
Qed.

(** The pieces of a split hold the characters that are not separators. *)
Lemma split_on_runs_words (sep p q : ascii -> bool) :
  (forall c, q c = true -> sep c = false -> p c = true) ->
  forall (s cur : string) (in_run : bool),
    Str.forallb q s = true -> Str.forallb p cur = true ->
    Forall (fun w => Str.forallb p w = true) (split_on_runs sep in_run cur s).
Proof.
  intros Hp. induction s as [|c s IH]; intros cur in_run Hs Hcur; simpl.
  - constructor; [rewrite forallb_rev; exact Hcur|constructor].
  - simpl in Hs. apply andb_true_iff in Hs. destruct Hs as [Hc Hs].
    destruct (sep c) eqn:Hsep.
    + destruct in_run.
      * apply IH; [exact Hs|reflexivity].
      * constructor; [rewrite forallb_rev; exact Hcur|].
        apply IH; [exact Hs|reflexivity].
    + apply IH; [exact Hs|]. simpl. rewrite (Hp c Hc Hsep). exact Hcur.
Qed.

Lemma join_space_words (ws : list string) :
  Forall (fun w => Str.forallb is_alnum w = true) ws ->
  Str.forallb is_name_char (Str.join " " ws) = true.
Proof.
  assert (Hword : forall w, Str.forallb is_alnum w = true ->
                            Str.forallb is_name_char w = true).
  { intros w. apply forallb_impl. intros c Hc. unfold is_name_char. rewrite Hc. reflexivity. }
  induction ws as [|w ws IH]; intros Hall; [reflexivity|].
  inversion Hall as [|w' ws' Hw Hws]; subst.
  destruct ws as [|w2 ws]; [exact (Hword w Hw)|].
  change (Str.join " " (w :: w2 :: ws)) with (w ++ " " ++ Str.join " " (w2 :: ws)).
  rewrite !forallb_append, (Hword w Hw), (IH Hws). reflexivity.
Qed.


(** ** The keyword categoriser *)

Lemma insert_by_name_in (c x : Category) (sorted : list Category) :
  In x (insert_by_name c sorted) -> x = c \/ In x sorted.
Proof.
  induction sorted as [|y sorted IH]; simpl.
  - intros [H|[]]. left. congruence.
  - destruct (String.leb (c_name y) (c_name c)); simpl.
    + intros [H|H]; [right; left; exact H|].
      destruct (IH H) as [H'|H']; [left; exact H'|right; right; exact H'].
    + intros [H|H]; [left; congruence|right; exact H].
Qed.

Lemma sorted_by_name_in (selected : list Category) (x : Category) :
  forall acc,
    In x (List.fold_left (fun sorted c => insert_by_name c sorted) selected acc) ->
    In x selected \/ In x acc.
Proof.
  induction selected as [|c selected IH]; intros acc; simpl; [auto|].
  intros H. destruct (IH _ H) as [H'|H']; [left; right; exact H'|].
  destruct (insert_by_name_in _ _ _ H') as [->|H'']; [left; left; reflexivity|right; exact H''].
Qed.

(** Every category [getCategories] returns is one of the owner's rows (a
    global row for owner 0). *)
Lemma getCategories_own (user : Z) (db : Database) :
  exists cats,
    getCategories user db = Done cats db
    /\ forall c, In c cats ->
         In c (categories db)
         /\ (if Z.eqb user 0 then c_userId c = None else c_userId c = Some user).
Proof.
  unfold getCategories, bind, get, ret. eexists. split; [reflexivity|].
  intros c Hc. apply sorted_by_name_in in Hc. destruct Hc as [Hc|[]].
  destruct (Z.eqb user 0); apply List.filter_In in Hc; destruct Hc as [Hin Hc];
    (split; [exact Hin|]).
  - destruct (c_userId c); [discriminate|reflexivity].
  - apply col_is_true. exact Hc.
Qed.

(** X16: a category picked by [autoCategorizeMerchant] is always one of the
    asking owner's own categories (a global one only for owner 0), and the
    store is only read. *)
Theorem autoCategorizeMerchant_own_category (merchantName : string) (user id : Z)
      (db db' : Database) :
  autoCategorizeMerchant merchantName user db = Done (Some id) db' ->
  db' = db
  /\ exists c, In c (categories db) /\ c_id c = id
               /\ (if Z.eqb user 0 then c_userId c = None else c_userId c = Some user).
Proof.
  unfold autoCategorizeMerchant.
  destruct (getCategories_own user db) as (cats & Hcats & Hown).
  rewrite (@bind_done _ _ _ _ _ _ _ Hcats).
  assert (Hfold : forall entries id0,
             List.fold_right
               (fun (entry : string * list string) later =>
                  let '(categoryName, keywords) := entry in
                  if List.existsb (fun keyword => Str.includes keyword
                                                    (Str.toLowerCase merchantName)) keywords
                  then match List.find (fun c => String.eqb (Str.toLowerCase (c_name c))
                                                            (Str.toLowerCase categoryName))
                                       cats with
                       | Some category => Some (c_id category)
                       | None => later
                       end
                  else later)
               None entries = Some id0 ->
             exists c, In c cats /\ c_id c = id0).
  { induction entries as [|[categoryName keywords] entries IH]; intros id0; simpl;
      [discriminate|].
    destruct (List.existsb _ keywords); [|apply IH].
    destruct (List.find _ cats) as [category|] eqn:Hfind; [|apply IH].
    intros H. inv H. exists category. split; [|reflexivity].
    apply List.find_some in Hfind. apply Hfind. }
  destruct (List.fold_right _ None categoryKeywords) as [id0|] eqn:Hkey.
  - unfold ret. intros H. inv H. split; [reflexivity|].
    destruct (Hfold _ _ Hkey) as (c & Hin & Hid).
    exists c. destruct (Hown c Hin) as [Hdb Huser]. auto.
  - destruct (Str.includes "upi" (Str.toLowerCase merchantName)); [|discriminate].
    destruct (List.find (fun c => String.eqb (c_name c) "Other") cats) as [other|] eqn:Hfind;
      [|discriminate].
    unfold ret. simpl. intros H. inv H. split; [reflexivity|].
    apply List.find_some in Hfind. destruct Hfind as [Hin _].
    exists other. destruct (Hown other Hin) as [Hdb Huser]. auto.
Qed.

Lemma autoCategorizeMerchant_own_category_witness :
  autoCategorizeMerchant "Corner Cafe" 1 category_store = Done (Some 8%Z) category_store
  /\ exists c, In c (categories category_store) /\ c_id c = 8%Z
               /\ c_userId c = Some 1%Z.
Proof.
  split; [vm_compute; reflexivity|].
  apply (@autoCategorizeMerchant_own_category "Corner Cafe" 1%Z 8%Z
           category_store category_store).
  vm_compute. reflexivity.
Defined.

(** ** The parsed record *)

Lemma decimal_nonneg (s : string) : (0 <= decimal s)%Z.
Proof.
  induction s as [|c s IH]; simpl; [lia|].
  assert (0 <= digit_val c)%Z by (unfold digit_val; lia).
  assert (0 <= 10 ^ Z.of_nat (String.length s))%Z by (apply Z.pow_nonneg; lia).
  nia.
Qed.

(** A cleaned name is a payment handle, a catalogue name, ["Unknown
    Merchant"], or at most thirty characters of the text. *)
Lemma cleanMerchantName_length (raw : string) :
  String.length (cleanMerchantName raw) <= 30
  \/ Str.includes "@" (cleanMerchantName raw) = true.
Proof.
  unfold cleanMerchantName.
  destruct (Str.includes "@" (Str.trim raw) && negb (Str.includes " " (Str.trim raw)))
    eqn:Hhandle.
  - right. apply andb_true_iff in Hhandle. apply Hhandle.
  - left.
    destruct (List.find _ COMMON_MERCHANTS) as [[key displayName]|] eqn:Hfind.
    + apply List.find_some in Hfind. destruct Hfind as [Hin _].
      assert (Hall : List.forallb (fun kv => String.length (snd kv) <=? 30) COMMON_MERCHANTS
                     = true) by (vm_compute; reflexivity).
      rewrite List.forallb_forall in Hall. apply Hall in Hin. apply Nat.leb_le in Hin.
      exact Hin.
    + match goal with
      | |- String.length (if (30 <? String.length ?c) || ?t then _ else _) <= 30 =>
          destruct (30 <? String.length c) eqn:Hlen; cbn [orb];
          [vm_compute; lia|destruct t; [vm_compute; lia|apply Nat.ltb_ge; exact Hlen]]
      end.
Qed.

(** X17: what every parsed record satisfies: the merchant is never empty
    and is either a payment handle or at most thirty characters long; the
    account digits are those of the account anchor, three or four digits,
    and are missing only for a known bank; the amount is not negative (it
    is [NaN] when the captured text holds no digit); and a receipt
    timestamp other than 0 overrides any date in the text. *)
Theorem parsed_record_well_formed
        (nfkc : string -> string) (today : string) (clock : Z -> string)
        (rawSms : string) (isKnownBank : bool) (ts : option Z) (parsed : ParsedExpense) :
  parseExpense nfkc today clock rawSms isKnownBank ts = Some parsed ->
  pe_merchant parsed <> ""
  /\ (String.length (pe_merchant parsed) <= 30
      \/ Str.includes "@" (pe_merchant parsed) = true)
  /\ pe_accountLast4 parsed = extractAccountInfo (nfkc rawSms)
  /\ match pe_accountLast4 parsed with
     | Some digits => 3 <= String.length digits <= 4
                      /\ Str.forallb Str.is_digit digits = true
     | None => isKnownBank = true
     end
  /\ match pe_amount parsed with
     | Num q => (0 <= q)%Q
     | NaN => True
     end
  /\ pe_type parsed = getTransactionType (nfkc rawSms)
  /\ match ts with
     | Some t => if Z.eqb t 0 then pe_date parsed = extractDate today (nfkc rawSms)
                 else pe_date parsed = clock t
     | None => pe_date parsed = extractDate today (nfkc rawSms)
     end.
Proof.
  unfold parseExpense, parseExpenseWithRegex, normalizeMessage.
  destruct (negb (isValidTransaction (nfkc rawSms))); [discriminate|].
  destruct (falsy (extractAccountInfo (nfkc rawSms)) && negb isKnownBank) eqn:Hgate;
    [discriminate|].
  destruct (capture 1 AMOUNT_PATTERN (nfkc rawSms)) as [h|] eqn:Hcap; [|discriminate].
  intros H. inv H. cbn [pe_merchant pe_accountLast4 pe_amount pe_type pe_date].
  split; [|split; [|split; [reflexivity|split; [|split; [|split; [reflexivity|]]]]]].
  - unfold or_default.
    match goal with |- (if String.eqb ?m "" then _ else _) <> "" =>
      destruct (String.eqb m "") eqn:Hm; [discriminate|]
    end.
    intros Hempty. rewrite Hempty in Hm. discriminate.
  - unfold or_default.
    match goal with |- context [if String.eqb ?m "" then _ else _] =>
      destruct (String.eqb m "");
      [left; vm_compute; lia|
       match m with cleanMerchantName ?x => apply (cleanMerchantName_length x) end]
    end.
  - destruct (extractAccountInfo (nfkc rawSms)) as [digits|] eqn:Hacc.
    + apply (extractAccountInfo_digits _ Hacc).
    + cbn [falsy andb] in Hgate. apply negb_false_iff in Hgate. exact Hgate.
  - destruct (amount_capture_shape _ Hcap) as (w & frac & -> & _ & Hw & [->|Hfrac]).
    + rewrite append_nil_r, (parseAmount_integer w Hw).
      destruct (Str.existsb Str.is_digit w); [|exact I].
      apply round_double_nonneg.
      unfold Qle. cbn [inject_Z Qnum Qden].
      pose proof (decimal_nonneg (strip_commas w)). lia.
    + destruct Hfrac as (d1 & d2 & H1 & H2 & ->).
      rewrite (parseAmount_two_decimals w d1 d2 Hw H1 H2).
      apply round_double_nonneg.
      pose proof (decimal_nonneg (strip_commas w)) as Hdec.
      assert (0 <= digit_val d1)%Z by (unfold digit_val; lia).
      assert (0 <= digit_val d2)%Z by (unfold digit_val; lia).
      unfold Qle, Qplus. cbn [inject_Z Qnum Qden]. lia.
  - destruct ts as [t|]; [destruct (Z.eqb t 0)|]; reflexivity.
Qed.

Lemma parsed_record_well_formed_witness :
  exists parsed,
    parseExpense identity "2026-01-01" no_clock starbucks_sms true None = Some parsed
    /\ pe_merchant parsed <> ""
    /\ pe_accountLast4 parsed = extractAccountInfo starbucks_sms.
Proof.
  eexists. split; [vm_compute; reflexivity|].
  refine (let H := @parsed_record_well_formed identity "2026-01-01" no_clock starbucks_sms
                     true None _ _ in conj (proj1 H) (proj1 (proj2 (proj2 H)))).
  vm_compute. reflexivity.
Defined.

(** ** The date in the text *)

Lemma matches_groupless (r : regex) (st st' : mstate) :
  matches r st st' -> groupless r = true -> caps st' = caps st.
Proof.
  induction 1; simpl; intros Hg; try reflexivity; try discriminate.
  - apply andb_true_iff in Hg. destruct Hg as [Ha Hb].
    rewrite (IHmatches2 Hb). exact (IHmatches1 Ha).
  - apply andb_true_iff in Hg. apply IHmatches. apply Hg.
  - apply andb_true_iff in Hg. apply IHmatches. apply Hg.
  - rewrite (IHmatches2 Hg). exact (IHmatches1 Hg).
  - rewrite (IHmatches2 Hg). exact (IHmatches1 Hg).
Qed.

Lemma parseInt_digits (y : string) :
  Str.forallb Str.is_digit y = true -> parseInt y = decimal y.
Proof.
  intros Hy. unfold parseInt. rewrite <- (append_nil_r y) at 1.
  rewrite (leading_digits_run y 0 0 "" Hy I). reflexivity.
Qed.

(** The three groups of a match of [DATE_PATTERN]. *)
Lemma date_capture_shape (p0 : option ascii) (s0 : string) (st : mstate) :
  matches (Group 0 DATE_PATTERN) (MState p0 s0 []) st ->
  exists d m y,
    lookup 1 (caps st) = Some d /\ lookup 2 (caps st) = Some m
    /\ lookup 3 (caps st) = Some y
    /\ String.length d = 2 /\ String.length m = 2 /\ 2 <= String.length y <= 4
    /\ Str.forallb Str.is_digit d = true /\ Str.forallb Str.is_digit m = true
    /\ Str.forallb Str.is_digit y = true.
Proof.
  intros H. apply matches_group in H. destruct H as (st5 & H & ->).
  unfold DATE_PATTERN in H. cbn [seqs] in H.
  apply matches_seq in H. destruct H as (st1 & H1 & H).
  apply matches_seq in H. destruct H as (st2 & Hsep1 & H).
  apply matches_seq in H. destruct H as (st3 & H2 & H).
  apply matches_seq in H. destruct H as (st4 & Hsep2 & H3).
  apply matches_group in H1. destruct H1 as (m1 & H1 & ->).
  apply matches_group in H2. destruct H2 as (m2 & H2 & ->).
  apply matches_group in H3. destruct H3 as (m3 & H3 & ->).
  pose proof (matches_groupless H1 eq_refl) as C1.
  pose proof (matches_groupless H2 eq_refl) as C2.
  pose proof (matches_groupless H3 eq_refl) as C3.
  apply matches_chr in Hsep1. destruct Hsep1 as (c1 & _ & _ & Cs1).
  apply matches_chr in Hsep2. destruct Hsep2 as (c2 & _ & _ & Cs2).
  apply matches_rep_chr in H1. destruct H1 as (d & Hd & Hdl & Hdd).
  apply matches_rep_chr in H2. destruct H2 as (m & Hm & Hml & Hmd).
  apply matches_range_chr in H3. destruct H3 as (y & Hy & Hyl & Hyd).
  exists d, m, y.
  cbn [caps set_cap rest lookup Nat.eqb] in *.
  rewrite C3, Cs2. cbn [lookup Nat.eqb]. rewrite C2, Cs1. cbn [lookup Nat.eqb].
  rewrite Hd, Hm, Hy, !consumed_append.
  repeat split; auto; simpl in Hyl; lia.
Qed.


(** ** The detector, continued *)




(** ** Calendar arithmetic of the next expected date *)

Local Open Scope Z_scope.

Lemma days_from_civil_day (y m d : Z) :
  days_from_civil y m d = days_from_civil y m 1 + d - 1.
Proof. unfold days_from_civil. lia. Qed.

Lemma is_leap_spec (y : Z) :
  is_leap y = true <-> ((y mod 4 = 0 /\ y mod 100 <> 0) \/ y mod 400 = 0).
Proof.
  unfold is_leap. rewrite orb_true_iff, andb_true_iff, negb_true_iff, !Z.eqb_eq, Z.eqb_neq.
  tauto.
Qed.

Ltac by_leap y :=
  let Hl := fresh "Hl" in
  let H := fresh "H" in
  pose proof (is_leap_spec y) as Hl;
  destruct (is_leap y);
  [ assert (H : (y mod 4 = 0 /\ y mod 100 <> 0) \/ y mod 400 = 0) by (apply Hl; reflexivity)
  | assert (H : ~ ((y mod 4 = 0 /\ y mod 100 <> 0) \/ y mod 400 = 0))
      by (intros H; apply Hl in H; discriminate) ];
  clear Hl; Z.div_mod_to_equations; lia.

Ltac month_cases m :=
  assert (m = 1 \/ m = 2 \/ m = 3 \/ m = 4 \/ m = 5 \/ m = 6 \/ m = 7 \/ m = 8
          \/ m = 9 \/ m = 10 \/ m = 11 \/ m = 12) as Hcases by lia;
  repeat (destruct Hcases as [->|Hcases]); [..|subst m].

(** The first of the next month comes one month length later. *)
Lemma days_from_civil_next_month (y m : Z) :
  1 <= m <= 12 ->
  days_from_civil (if m =? 12 then y + 1 else y) (if m =? 12 then 1 else m + 1) 1
  = days_from_civil y m 1 + days_in_month y m.
Proof.
  intros Hm. month_cases m; unfold days_from_civil, days_in_month; cbn;
    try (Z.div_mod_to_equations; lia).
  by_leap y.
Qed.

(** The same day of the next year comes 365 or 366 days later. *)
Lemma days_from_civil_next_year (y m : Z) :
  1 <= m <= 12 ->
  days_from_civil (y + 1) m 1 = days_from_civil y m 1 + days_until_next yearly y m.
Proof.
  intros Hm. month_cases m; unfold days_from_civil, days_until_next; cbn.
  1,2: by_leap y.
  all: by_leap (y + 1).
Qed.

Lemma days_in_month_bounds (y m : Z) : 28 <= days_in_month y m <= 31.
Proof.
  unfold days_in_month. destruct (m =? 2); [destruct (is_leap y); lia|].
  destruct ((m =? 4) || (m =? 6) || (m =? 9) || (m =? 11)); lia.
Qed.

(** Carrying the overflow of the day keeps the day count, and with room for
    one carry the result is a day of its month. *)
Lemma roll_days_sound (fuel : nat) :
  forall y m d, 1 <= m <= 12 -> 1 <= d ->
    let '(y', m', d') := roll_days fuel y m d in
    days_from_civil y' m' d' = days_from_civil y m d /\ 1 <= m' <= 12 /\ 1 <= d'.
Proof.
  induction fuel as [|fuel IH]; intros y m d Hm Hd; simpl; [auto|].
  destruct (d <=? days_in_month y m) eqn:Hfit; [auto|].
  apply Z.leb_gt in Hfit.
  pose proof (days_from_civil_next_month y Hm) as Hnext.
  destruct (m =? 12) eqn:H12.
  - specialize (IH (y + 1) 1 (d - days_in_month y m)).
    destruct (roll_days fuel (y + 1) 1 (d - days_in_month y m)) as [[y' m'] d'].
    destruct IH as (Hsame & Hm' & Hd'); [lia|lia|].
    split; [|auto]. rewrite Hsame.
    rewrite (days_from_civil_day (y + 1) 1), (days_from_civil_day y m), Hnext. lia.
  - apply Z.eqb_neq in H12.
    specialize (IH y (m + 1) (d - days_in_month y m)).
    destruct (roll_days fuel y (m + 1) (d - days_in_month y m)) as [[y' m'] d'].
    destruct IH as (Hsame & Hm' & Hd'); [lia|lia|].
    split; [|auto]. rewrite Hsame.
    rewrite (days_from_civil_day y (m + 1)), (days_from_civil_day y m), Hnext. lia.
Qed.

Lemma roll_days_fits (y m d : Z) :
  1 <= m <= 12 -> 1 <= d <= 56 ->
  let '(y', m', d') := roll_days 2 y m d in d' <= days_in_month y' m'.
Proof.
  intros Hm Hd. cbn [roll_days].
  destruct (d <=? days_in_month y m) eqn:Hfit; [apply Z.leb_le; exact Hfit|].
  pose proof (days_in_month_bounds y m).
  destruct (m =? 12).
  - pose proof (days_in_month_bounds (y + 1) 1).
    destruct (d - days_in_month y m <=? days_in_month (y + 1) 1) eqn:Hfit2;
      [apply Z.leb_le; exact Hfit2|apply Z.leb_gt in Hfit2; lia].
  - pose proof (days_in_month_bounds y (m + 1)).
    destruct (d - days_in_month y m <=? days_in_month y (m + 1)) eqn:Hfit2;
      [apply Z.leb_le; exact Hfit2|apply Z.leb_gt in Hfit2; lia].
Qed.

(** The civil day each frequency leads to. *)
Lemma next_day_sound (frequency : Frequency) (y m d : Z) :
  1 <= m <= 12 -> 1 <= d <= days_in_month y m ->
  let '(y', m', d') :=
    match frequency with
    | weekly => roll y m (d + 7)
    | monthly => roll y (m + 1) d
    | yearly => roll (y + 1) m d
    end in
  days_from_civil y' m' d' = days_from_civil y m d + days_until_next frequency y m
  /\ y <= y' <= y + 1 /\ 1 <= m' <= 12 /\ 1 <= d' <= days_in_month y' m'.
Proof.
  intros Hm Hd. pose proof (days_in_month_bounds y m) as Hdim.
  assert (Hyear : forall fuel y0 m0 d0, 1 <= m0 <= 12 ->
            let '(y', _, _) := roll_days fuel y0 m0 d0 in y0 <= y').
  { induction fuel as [|fuel IH]; intros y0 m0 d0 Hm0; simpl; [lia|].
    destruct (d0 <=? days_in_month y0 m0); [lia|].
    destruct (m0 =? 12) eqn:H12.
    - specialize (IH (y0 + 1) 1 (d0 - days_in_month y0 m0)).
      destruct (roll_days fuel (y0 + 1) 1 _) as [[y' m'] d']. lia.
    - apply Z.eqb_neq in H12. specialize (IH y0 (m0 + 1) (d0 - days_in_month y0 m0)).
      destruct (roll_days fuel y0 (m0 + 1) _) as [[y' m'] d']. lia. }
  destruct frequency; unfold roll.
  - destruct (12 <? m) eqn:Hbig; [apply Z.ltb_lt in Hbig; lia|].
    pose proof (@roll_days_sound 2 y m (d + 7) Hm ltac:(lia)) as Hs.
    pose proof (@roll_days_fits y m (d + 7) Hm ltac:(lia)) as Hf.
    assert (Hy : let '(y', _, _) := roll_days 2 y m (d + 7) in y' <= y + 1).
    { cbn [roll_days]. destruct (d + 7 <=? days_in_month y m); [lia|].
      destruct (m =? 12).
      - destruct (_ <=? days_in_month (y + 1) 1); [lia|].
        change (1 =? 12) with false. cbv iota. cbn [roll_days]. lia.
      - destruct (_ <=? days_in_month y (m + 1)); [lia|].
        pose proof (days_in_month_bounds y (m + 1)).
        destruct (m + 1 =? 12); lia. }
    pose proof (Hyear 2%nat y m (d + 7) Hm) as Hy0.
    destruct (roll_days 2 y m (d + 7)) as [[y' m'] d'].
    destruct Hs as (Hsame & Hm' & Hd'). rewrite Hsame.
    rewrite (days_from_civil_day y m (d + 7)), (days_from_civil_day y m d).
    cbn [days_until_next]. repeat split; lia.
  - pose proof (days_from_civil_next_month y Hm) as Hnext.
    destruct (12 <? m + 1) eqn:Hbig.
    + apply Z.ltb_lt in Hbig. assert (m = 12) by lia. subst m.
      change (12 + 1 - 12) with 1. change (12 =? 12) with true in Hnext. cbv iota in Hnext.
      pose proof (@roll_days_sound 2 (y + 1) 1 d ltac:(lia) ltac:(lia)) as Hs.
      pose proof (@roll_days_fits (y + 1) 1 d ltac:(lia) ltac:(lia)) as Hf.
      assert (Hy : let '(y', _, _) := roll_days 2 (y + 1) 1 d in y' = y + 1).
      { cbn [roll_days]. change (days_in_month (y + 1) 1) with 31.
        destruct (d <=? 31) eqn:Hfit; [reflexivity|apply Z.leb_gt in Hfit; lia]. }
      destruct (roll_days 2 (y + 1) 1 d) as [[y' m'] d'].
      destruct Hs as (Hsame & Hm' & Hd'). rewrite Hsame.
      rewrite (days_from_civil_day (y + 1) 1 d), (days_from_civil_day y 12 d), Hnext.
      cbn [days_until_next]. repeat split; lia.
    + apply Z.ltb_ge in Hbig.
      assert (H12 : (m =? 12) = false) by (apply Z.eqb_neq; lia).
      rewrite H12 in Hnext.
      pose proof (@roll_days_sound 2 y (m + 1) d ltac:(lia) ltac:(lia)) as Hs.
      pose proof (@roll_days_fits y (m + 1) d ltac:(lia) ltac:(lia)) as Hf.
      assert (Hy : let '(y', _, _) := roll_days 2 y (m + 1) d in y' <= y + 1).
      { cbn [roll_days]. destruct (d <=? days_in_month y (m + 1)); [lia|].
        pose proof (days_in_month_bounds y (m + 1)).
        destruct (m + 1 =? 12).
        - destruct (_ <=? days_in_month (y + 1) 1); [lia|].
          change (1 =? 12) with false. cbv iota. cbn [roll_days]. lia.
        - destruct (_ <=? days_in_month y (m + 1 + 1)); [lia|].
          destruct (m + 1 + 1 =? 12); lia. }
      pose proof (Hyear 2%nat y (m + 1) d ltac:(lia)) as Hy0.
      destruct (roll_days 2 y (m + 1) d) as [[y' m'] d'].
      destruct Hs as (Hsame & Hm' & Hd'). rewrite Hsame.
      rewrite (days_from_civil_day y (m + 1) d), (days_from_civil_day y m d), Hnext.
      cbn [days_until_next]. repeat split; lia.
  - destruct (12 <? m) eqn:Hbig; [apply Z.ltb_lt in Hbig; lia|].
    pose proof (@roll_days_sound 2 (y + 1) m d Hm ltac:(lia)) as Hs.
    pose proof (@roll_days_fits (y + 1) m d Hm ltac:(lia)) as Hf.
    assert (Hy : let '(y', _, _) := roll_days 2 (y + 1) m d in y' = y + 1).
    { cbn [roll_days]. destruct (d <=? days_in_month (y + 1) m) eqn:Hfit; [reflexivity|].
      apply Z.leb_gt in Hfit.
      assert (m = 2).
      { unfold days_in_month in Hfit, Hd. destruct (m =? 2) eqn:H2; [lia|].
        destruct ((m =? 4) || (m =? 6) || (m =? 9) || (m =? 11)); lia. }
      subst m. change (2 =? 12) with false. cbv iota.
      pose proof (days_in_month_bounds (y + 1) 2). pose proof (days_in_month_bounds (y + 1) 3).
      change (2 + 1) with 3.
      destruct (_ <=? days_in_month (y + 1) 3) eqn:Hfit2; [reflexivity|].
      apply Z.leb_gt in Hfit2. lia. }
    destruct (roll_days 2 (y + 1) m d) as [[y' m'] d'].
    destruct Hs as (Hsame & Hm' & Hd'). rewrite Hsame.
    rewrite (days_from_civil_day (y + 1) m d), (days_from_civil_day y m d),
      (days_from_civil_next_year y Hm).
    repeat split; lia.
Qed.

Local Close Scope Z_scope.

Lemma digits_value_nonneg (s : string) :
  forall acc v, (0 <= acc)%Z -> digits_value acc s = Some v -> (0 <= v)%Z.
Proof.
  induction s as [|c s IH]; intros acc v Hacc; cbn [digits_value].
  - intros H. inv H. exact Hacc.
  - destruct (Str.is_digit c); [|discriminate].
    apply IH. assert (0 <= digit_val c)%Z by (unfold digit_val; lia). lia.
Qed.

(** What [new Date(s)] accepts is a civil day. *)
Lemma parse_date_valid (s : string) (y m d : Z) :
  parse_date s = Some (y, m, d) ->
  (0 <= y)%Z /\ (1 <= m <= 12)%Z /\ (1 <= d <= days_in_month y m)%Z.
Proof.
  unfold parse_date.
  destruct (_ && _ && _); [|discriminate].
  destruct (digits_value 0 (substring 0 4 s)) as [y0|] eqn:Hy; [|discriminate].
  destruct (digits_value 0 (substring 5 2 s)) as [m0|]; [|discriminate].
  destruct (digits_value 0 (substring 8 2 s)) as [d0|]; [|discriminate].
  destruct ((1 <=? m0)%Z && (m0 <=? 12)%Z && (1 <=? d0)%Z && (d0 <=? days_in_month y0 m0)%Z)
    eqn:Hvalid; [|discriminate].
  intros H. inv H.
  apply andb_true_iff in Hvalid. destruct Hvalid as [Hvalid H4].
  apply andb_true_iff in Hvalid. destruct Hvalid as [Hvalid H3].
  apply andb_true_iff in Hvalid. destruct Hvalid as [H1 H2].
  apply Z.leb_le in H1, H2, H3, H4.
  split; [apply (@digits_value_nonneg _ 0%Z y (Z.le_refl 0) Hy)|lia].
Qed.

(** *** Decimal printing and reading *)

Lemma string_of_uint_length (d : Decimal.uint) :
  String.length (DecimalString.NilEmpty.string_of_uint d) = Decimal.nb_digits d.
Proof. induction d; simpl; congruence. Qed.

Lemma digits_value_uint (d : Decimal.uint) :
  forall acc : nat,
    digits_value (Z.of_nat acc) (DecimalString.NilEmpty.string_of_uint d)
    = Some (Z.of_nat (Nat.of_uint_acc d acc)).
Proof.
  induction d; intros acc;
    cbn [DecimalString.NilEmpty.string_of_uint digits_value Nat.of_uint_acc];
    try reflexivity;
    match goal with
    | |- context [Str.is_digit ?c] => change (Str.is_digit c) with true; cbv iota
    end;
    rewrite <- IHd; f_equal; rewrite Nat.tail_mul_spec; unfold digit_val;
    match goal with
    | |- context [Str.code ?c - Str.code "0"] =>
        let v := eval vm_compute in (Str.code c - Str.code "0") in
        change (Str.code c - Str.code "0") with v
    end; lia.
Qed.

Lemma digits_value_nat_to_string (n : nat) :
  digits_value 0 (nat_to_string n) = Some (Z.of_nat n).
Proof.
  unfold nat_to_string. change 0%Z with (Z.of_nat 0).
  rewrite (digits_value_uint (Nat.to_uint n) 0).
  fold (Nat.of_uint (Nat.to_uint n)).
  rewrite DecimalNat.Unsigned.of_to. reflexivity.
Qed.

Lemma of_uint_acc_lower (d : Decimal.uint) :
  forall acc : nat, acc * 10 ^ Decimal.nb_digits d <= Nat.of_uint_acc d acc.
Proof.
  induction d; intros acc; cbn [Decimal.nb_digits Nat.of_uint_acc Nat.pow];
    [lia|..];
    match goal with
    | |- _ <= Nat.of_uint_acc _ ?a => specialize (IHd a)
    end;
    rewrite Nat.tail_mul_spec in *;
    set (P := 10 ^ Decimal.nb_digits d) in *;
    match goal with
    | |- _ <= ?X => set (V := X) in *
    end; nia.
Qed.

(** A number below [10 ^ w] prints with at most [w] digits. *)
Lemma to_uint_digits (w n : nat) :
  1 <= w -> n < 10 ^ w -> 1 <= Decimal.nb_digits (Nat.to_uint n) <= w.
Proof.
  intros Hw Hn.
  assert (Hnorm : Nat.to_uint n = Decimal.unorm (Nat.to_uint n)).
  { rewrite <- DecimalNat.Unsigned.to_of, DecimalNat.Unsigned.of_to. reflexivity. }
  assert (Hval : Nat.of_uint (Nat.to_uint n) = n) by apply DecimalNat.Unsigned.of_to.
  remember (Nat.to_uint n) as d eqn:Hd. clear Hd.
  unfold Decimal.unorm in Hnorm.
  destruct (Decimal.nzhead d) eqn:Hz;
    try (rewrite Hnorm; cbn; lia);
    try (exfalso; apply (DecimalFacts.nzhead_nonzero d _ Hz)).
  all: rewrite Hnorm in Hval |- *; unfold Nat.of_uint in Hval;
    cbn [Nat.of_uint_acc Decimal.nb_digits] in Hval |- *;
    match type of Hval with
    | Nat.of_uint_acc ?u ?a = _ => pose proof (of_uint_acc_lower u a) as Hlow
    end;
    rewrite Hval in Hlow; split; [lia|];
    assert (Hpow : 10 ^ Decimal.nb_digits u < 10 ^ w)
      by (cbn [Nat.tail_mul Nat.tail_addmul Nat.tail_add] in Hlow; nia);
    apply Nat.pow_lt_mono_r_iff in Hpow; lia.
Qed.

Lemma digits_value_zero (z s : string) :
  Str.forallb (Ascii.eqb "0") z = true ->
  digits_value 0 (z ++ s) = digits_value 0 s.
Proof.
  induction z as [|c z IH]; cbn [String.append Str.forallb]; [reflexivity|].
  intros H. apply andb_true_iff in H. destruct H as [Hc Hz].
  apply Ascii.eqb_eq in Hc. subst c. cbn [digits_value].
  change (Str.is_digit "0") with true. cbv iota.
  change (10 * 0 + digit_val "0")%Z with 0%Z. apply IH. exact Hz.
Qed.

(** Padding keeps the value and fills the width. *)
Lemma pad_reads (w : nat) (n : Z) :
  1 <= w <= 6 -> (0 <= n < 10 ^ Z.of_nat w)%Z ->
  String.length (pad w n) = w /\ digits_value 0 (pad w n) = Some n.
Proof.
  intros Hw Hn. unfold pad.
  assert (Hlt : Z.to_nat n < 10 ^ w).
  { apply Nat2Z.inj_lt. rewrite Nat2Z.inj_pow, Z2Nat.id by lia. exact (proj2 Hn). }
  pose proof (@to_uint_digits w (Z.to_nat n) (proj1 Hw) Hlt) as Hlen.
  rewrite <- string_of_uint_length in Hlen. fold (nat_to_string (Z.to_nat n)) in Hlen.
  pose proof (digits_value_nat_to_string (Z.to_nat n)) as Hval.
  rewrite Z2Nat.id in Hval by lia.
  set (s := nat_to_string (Z.to_nat n)) in *.
  destruct (String.length s =? 0) eqn:Hzero; [apply Nat.eqb_eq in Hzero; lia|].
  assert (Hzeros : forall k, k <= 6 ->
            String.length (Str.map (fun _ => "0"%char) (Str.take k "000000")) = k
            /\ Str.forallb (Ascii.eqb "0")
                 (Str.map (fun _ => "0"%char) (Str.take k "000000")) = true).
  { intros k Hk. do 7 (destruct k as [|k]; [split; reflexivity|]). lia. }
  destruct (Hzeros (w - String.length s)) as [Hzl Hzz]; [lia|].
  split.
  - rewrite length_append, Hzl. lia.
  - rewrite (digits_value_zero _ s Hzz). exact Hval.
Qed.

Lemma pad_year (y : Z) :
  (0 <= y <= 9999)%Z ->
  String.length (pad 4 y) = 4 /\ digits_value 0 (pad 4 y) = Some y.
Proof. intros Hy. apply pad_reads; [lia|]. change (10 ^ Z.of_nat 4)%Z with 10000%Z. lia. Qed.

Lemma pad_two (n : Z) :
  (0 <= n <= 99)%Z ->
  String.length (pad 2 n) = 2 /\ digits_value 0 (pad 2 n) = Some n.
Proof. intros Hn. apply pad_reads; [lia|]. change (10 ^ Z.of_nat 2)%Z with 100%Z. lia. Qed.

(** A date text put together from its three fields is read back as them. *)
Lemma parse_date_join (a b c : string) (y m d : Z) :
  String.length a = 4 -> String.length b = 2 -> String.length c = 2 ->
  digits_value 0 a = Some y -> digits_value 0 b = Some m -> digits_value 0 c = Some d ->
  (1 <= m <= 12)%Z -> (1 <= d <= days_in_month y m)%Z ->
  parse_date (a ++ "-" ++ b ++ "-" ++ c) = Some (y, m, d).
Proof.
  intros Ha Hb Hc Hy Hm Hd Hmonth Hday.
  destruct a as [|a1 [|a2 [|a3 [|a4 [|]]]]]; try discriminate.
  destruct b as [|b1 [|b2 [|]]]; try discriminate.
  destruct c as [|c1 [|c2 [|]]]; try discriminate.
  unfold parse_date.
  cbn [String.append String.length Nat.eqb substring].
  change (String.eqb "-" "-") with true. cbn [andb].
  rewrite Hy, Hm, Hd.
  destruct Hmonth as [H1 H2]. destruct Hday as [H3 H4].
  apply Z.leb_le in H1, H2, H3, H4. rewrite H1, H2, H3, H4. reflexivity.
Qed.

Lemma parse_iso_date (y m d : Z) :
  (0 <= y <= 9999)%Z -> (1 <= m <= 12)%Z -> (1 <= d <= days_in_month y m)%Z ->
  parse_date (iso_date (y, m, d)) = Some (y, m, d).
Proof.
  intros Hy Hm Hd. unfold iso_date.
  destruct (9999 <? y)%Z eqn:Hbig; [apply Z.ltb_lt in Hbig; lia|].
  pose proof (days_in_month_bounds y m).
  destruct (pad_year Hy) as [Hl1 Hv1].
  destruct (@pad_two m ltac:(lia)) as [Hl2 Hv2].
  destruct (@pad_two d ltac:(lia)) as [Hl3 Hv3].
  apply parse_date_join; assumption.
Qed.

(** X20: the next expected date, counted in days: for a valid last date
    before the year 9999, [calculateNextDate] answers a valid date that lies
    exactly 7 days later (weekly), as many days later as the month of the
    last date has (monthly: 28 to 31, never a fixed 30), or 365 or 366 days
    later (yearly). *)
Theorem next_date_day_count (lastDate : string) (frequency : Frequency) (y m d : Z) :
  parse_date lastDate = Some (y, m, d) ->
  (y < 9999)%Z ->
  exists next n,
    calculateNextDate lastDate frequency = Some next
    /\ day_number lastDate = Some n
    /\ day_number next = Some (n + days_until_next frequency y m)%Z.
Proof.
  intros Hparse Hyear.
  destruct (parse_date_valid _ Hparse) as (Hy & Hm & Hd).
  pose proof (@next_day_sound frequency y m d Hm Hd) as Hnext.
  unfold calculateNextDate, day_number. rewrite Hparse.
  destruct (match frequency with
            | weekly => roll y m (d + 7)
            | monthly => roll y (m + 1) d
            | yearly => roll (y + 1) m d
            end) as [[y' m'] d'].
  destruct Hnext as (Hdays & Hy' & Hm' & Hd').
  do 2 eexists. split; [reflexivity|]. split; [reflexivity|].
  rewrite parse_iso_date by lia. rewrite Hdays. reflexivity.
Qed.

Lemma next_date_day_count_witness :
  exists next n,
    calculateNextDate "2024-01-31" monthly = Some next
    /\ day_number "2024-01-31" = Some n
    /\ day_number next = Some (n + days_until_next monthly 2024 1)%Z.
Proof.
  apply (@next_date_day_count "2024-01-31" monthly 2024%Z 1%Z 31%Z).
  - vm_compute. reflexivity.
  - lia.
Defined.


(** ** The owner-scoped writes *)

Lemma filter_map_fixed {A : Type} (keep : A -> bool) (g : A -> A) (l : list A) :
  (forall x, keep (g x) = keep x) ->
  (forall x, keep x = true -> g x = x) ->
  List.filter keep (List.map g l) = List.filter keep l.
Proof.
  intros Hkeep Hfix. induction l as [|a l IH]; simpl; [reflexivity|].
  rewrite Hkeep. destruct (keep a) eqn:Ha; [rewrite (Hfix a Ha), IH; reflexivity|exact IH].
Qed.

Lemma filter_filter_fixed {A : Type} (keep drop : A -> bool) (l : list A) :
  (forall x, keep x = true -> drop x = true) ->
  List.filter keep (List.filter drop l) = List.filter keep l.
Proof.
  intros H. induction l as [|a l IH]; simpl; [reflexivity|].
  destruct (drop a) eqn:Hd; simpl.
  - rewrite IH. reflexivity.
  - destruct (keep a) eqn:Hk; [rewrite (H a Hk) in Hd; discriminate|exact IH].
Qed.

Ltac other_owner :=
  match goal with
  | H : negb (col_is ?u ?user) = true |- _ =>
      apply negb_true_iff in H; cbn [t_user_id m_userId c_userId]; rewrite ?H, ?andb_false_r;
      reflexivity
  end.

(** X22: the writes that take a user id touch nobody else's data:
    [updateTransaction], [deleteTransaction], [deleteMerchantMapping] and
    [deleteCategory] leave every row that does not belong to that user as it
    was, whether they complete or throw, even when another user's row has
    the same id or points to the same category. *)
Theorem owner_scoped_writes_isolated (id user : Z) (updates : TransactionUpdates)
      (db : Database) :
  rows_of_others user (store_after (updateTransaction id user updates db))
  = rows_of_others user db
  /\ rows_of_others user (store_after (deleteTransaction id user db))
     = rows_of_others user db
  /\ rows_of_others user (store_after (deleteMerchantMapping id user db))
     = rows_of_others user db
  /\ rows_of_others user (store_after (deleteCategory id user db))
     = rows_of_others user db.
Proof.
  unfold rows_of_others. repeat split.
  - unfold updateTransaction, bind, get, put, ret, throw.
    destruct (is_null (u_amount updates) && _ && _ && _ && _ && _); [reflexivity|].
    destruct (u_amount updates) as [[|q]|].
    + destruct (List.existsb _ (transactions db)); reflexivity.
    + cbn [store_after transactions merchant_mapping categories accounts set_transactions].
      rewrite filter_map_fixed; [reflexivity| |].
      * intros r. destruct (owned_row id user r); reflexivity.
      * intros r Hr. unfold owned_row. other_owner.
    + cbn [store_after transactions merchant_mapping categories accounts set_transactions].
      rewrite filter_map_fixed; [reflexivity| |].
      * intros r. destruct (owned_row id user r); reflexivity.
      * intros r Hr. unfold owned_row. other_owner.
  - unfold deleteTransaction, bind, get, put.
    cbn [store_after transactions merchant_mapping categories accounts set_transactions].
    rewrite filter_filter_fixed; [reflexivity|].
    intros r Hr. unfold owned_row. other_owner.
  - unfold deleteMerchantMapping, bind, get, put.
    cbn [store_after transactions merchant_mapping categories accounts set_merchant_mapping].
    rewrite filter_filter_fixed; [reflexivity|].
    intros m Hm. other_owner.
  - unfold deleteCategory, bind, get, put.
    cbn [store_after transactions merchant_mapping categories accounts
         set_transactions set_merchant_mapping set_categories].
    rewrite filter_filter_fixed by (intros c Hc; other_owner).
    rewrite !filter_map_fixed; [reflexivity| | | |].
    + intros m. destruct (in_category (m_categoryId m) id && col_is (m_userId m) user);
        reflexivity.
    + intros m Hm. other_owner.
    + intros r. destruct (in_category (t_category_id r) id && col_is (t_user_id r) user);
        reflexivity.
    + intros r Hr. other_owner.
Qed.

(** X23: [deleteCategory] unlinks before it deletes, and the two do not
    depend on each other: afterwards no transaction and no mapping of the
    user points to the category, whether or not a category row was deleted;
    the categories left are those that are not the user's row with that id,
    so a global category stays while the user's rows lose their link to it. *)
Theorem deleteCategory_unlinks (id user : Z) (db : Database) :
  exists db',
    deleteCategory id user db = Done tt db'
    /\ List.map t_id (transactions db') = List.map t_id (transactions db)
    /\ (forall r, In r (transactions db') -> t_user_id r = Some user ->
                  t_category_id r <> Some id)
    /\ (forall m, In m (merchant_mapping db') -> m_userId m = Some user ->
                  m_categoryId m <> Some id)
    /\ categories db'
       = List.filter (fun c => negb (Z.eqb (c_id c) id && col_is (c_userId c) user))
                     (categories db).
Proof.
  unfold deleteCategory, bind, get, put. eexists. split; [reflexivity|].
  cbn [transactions merchant_mapping categories set_transactions set_merchant_mapping
       set_categories].
  split; [|split; [|split; [|reflexivity]]].
  - rewrite List.map_map. apply List.map_ext. intros r.
    destruct (in_category (t_category_id r) id && col_is (t_user_id r) user); reflexivity.
  - intros r' Hin Huser Hcat. apply List.in_map_iff in Hin. destruct Hin as (r & <- & _).
    destruct (in_category (t_category_id r) id && col_is (t_user_id r) user) eqn:Hhit;
      cbn [t_category_id t_user_id] in *; [discriminate|].
    rewrite Hcat, Huser in Hhit. unfold in_category in Hhit. cbn [col_is] in Hhit.
    rewrite !Z.eqb_refl in Hhit. discriminate.
  - intros m' Hin Huser Hcat. apply List.in_map_iff in Hin. destruct Hin as (m & <- & _).
    destruct (in_category (m_categoryId m) id && col_is (m_userId m) user) eqn:Hhit;
      cbn [m_categoryId m_userId] in *; [discriminate|].
    rewrite Hcat, Huser in Hhit. unfold in_category in Hhit. cbn [col_is] in Hhit.
    rewrite !Z.eqb_refl in Hhit. discriminate.
Qed.

(** ** Primary keys *)

Lemma find_by_id (rows : list TransactionRow) (row : TransactionRow) :
  NoDup (List.map t_id rows) -> In row rows ->
  List.find (fun r => Z.eqb (t_id r) (t_id row)) rows = Some row.
Proof.
  induction rows as [|a rows IH]; simpl; intros Hnodup Hin; [destruct Hin|].
  inversion Hnodup as [|x l Hfresh Hrest]; subst.
  destruct Hin as [->|Hin]; [rewrite Z.eqb_refl; reflexivity|].
  destruct (Z.eqb (t_id a) (t_id row)) eqn:Hid; [|apply IH; assumption].
  apply Z.eqb_eq in Hid. exfalso. apply Hfresh. rewrite Hid.
  apply List.in_map. exact Hin.
Qed.

Lemma next_id_not_in (ids : list Z) (seq : Z) : ~ In (next_id ids seq) ids.
Proof.
  intros Hin. pose proof (fold_max_bound ids seq _ Hin) as Hle. unfold next_id in Hle. lia.
Qed.

Lemma nodup_snoc {A : Type} (l : list A) (x : A) :
  NoDup l -> ~ In x l -> NoDup (l ++ [x]).
Proof.
  induction l as [|a l IH]; simpl; intros Hnodup Hx.
  - constructor; [intros []|constructor].
  - inversion Hnodup as [|a' l' Ha Hl]; subst. constructor.
    + intros Hin. apply List.in_app_or in Hin. destruct Hin as [Hin|[->|[]]]; [tauto|].
      apply Hx. left. reflexivity.
    + apply IH; [exact Hl|]. intros Hin. apply Hx. right. exact Hin.
Qed.

Lemma same_transaction_fields (t : Transaction) (r : TransactionRow) :
  same_transaction t r = true ->
  t_user_id r = Some (userId t) /\ t_date r = date t /\ t_type r = type t
  /\ t_merchant r = merchant t
  /\ exists q, amount t = Num q /\ (t_amount r == q)%Q.
Proof.
  unfold same_transaction. intros H.
  apply andb_true_iff in H. destruct H as [H Hmerchant].
  apply andb_true_iff in H. destruct H as [H Htype].
  apply andb_true_iff in H. destruct H as [H Hdate].
  apply andb_true_iff in H. destruct H as [Huser Hamount].
  split; [apply col_is_true; exact Huser|].
  split; [apply String.eqb_eq; exact Hdate|].
  split; [destruct (t_type r), (type t); try reflexivity; discriminate|].
  split; [apply String.eqb_eq; exact Hmerchant|].
  destruct (amount t) as [|q]; [discriminate|].
  exists q. split; [reflexivity|apply Qeq_bool_iff; exact Hamount].
Qed.

(** X24: ids stay a key, and the returned id leads back to the record: on a
    table whose ids are distinct, a completed [insertTransaction] leaves the
    ids distinct, and [getTransactionById] for the returned id finds a row
    with the owner, date, type, merchant and amount of the payload, be it
    the row just added or the earlier duplicate. *)
Theorem insertTransaction_then_get (t : Transaction) (check : bool) (id : Z)
      (db db' : Database) :
  NoDup (List.map t_id (transactions db)) ->
  insertTransaction t check db = Done id db' ->
  NoDup (List.map t_id (transactions db'))
  /\ exists r q,
       getTransactionById id db' = Done (Some r) db'
       /\ t_id r = id /\ t_user_id r = Some (userId t) /\ t_date r = date t
       /\ t_type r = type t /\ t_merchant r = merchant t
       /\ amount t = Num q /\ (t_amount r == q)%Q.
Proof.
  intros Hnodup Hrun.
  destruct (insertTransaction_cases t check db)
    as [(row & rest & _ & Hdup & Hdone)|[(q & Hq & _ & Hdone)|(_ & msg & Hthrown)]].
  - rewrite Hdone in Hrun. inv Hrun. split; [exact Hnodup|].
    assert (Hin : In row (List.filter (same_transaction t) (transactions db')))
      by (rewrite Hdup; left; reflexivity).
    apply List.filter_In in Hin. destruct Hin as [Hin Hsame].
    destruct (same_transaction_fields _ _ Hsame) as (Hu & Hd & Hty & Hm & q & Hq & Ha).
    exists row, q. unfold getTransactionById, bind, get, ret.
    rewrite (find_by_id _ _ Hnodup Hin). auto 10.
  - cbv zeta in Hdone. rewrite Hdone in Hrun. inv Hrun.
    cbn [transactions add_transaction]. split.
    + rewrite List.map_app. cbn [List.map new_row t_id].
      apply nodup_snoc; [exact Hnodup|apply next_id_not_in].
    + exists (new_row t q (next_id (List.map t_id (transactions db)) (seq_transactions db))), q.
      unfold getTransactionById, bind, get, ret. cbn [transactions add_transaction].
      rewrite find_app_last.
      * cbn [new_row t_id t_user_id t_date t_type t_merchant t_amount].
        repeat split; auto; reflexivity.
      * destruct (List.find _ (transactions db)) as [r|] eqn:Hfind; [|reflexivity].
        exfalso. apply List.find_some in Hfind. destruct Hfind as [Hin Hid].
        apply Z.eqb_eq in Hid.
        apply (next_id_not_in (List.map t_id (transactions db)) (seq_transactions db)).
        rewrite <- Hid. apply List.in_map. exact Hin.
      * cbn [new_row t_id]. apply Z.eqb_refl.
  - rewrite Hthrown in Hrun. discriminate.
Qed.

Lemma insertTransaction_then_get_witness :
  exists id db',
    insertTransaction example_cash false example_store = Done id db'
    /\ NoDup (List.map t_id (transactions db')).
Proof.
  do 2 eexists. split; [vm_compute; reflexivity|].
  refine (proj1 (@insertTransaction_then_get example_cash false _ example_store _ _ _)).
  - cbn. constructor; [intros []|constructor].
  - vm_compute. reflexivity.
Defined.

(** ** The bank name of a sender *)

Lemma exec_from_bol (r : regex) (s : string) :
  forall (c : ascii) (skipped : string),
    exec_from (Seq Bol r) (Some c) skipped s = None.
Proof.
  induction s as [|x s IH]; intros c skipped; cbn [exec_from];
    unfold match_here; cbn [rmatch prev]; [reflexivity|apply IH].
Qed.

(** X26: the bank name is the sender without a leading route prefix of two
    upper-case letters and a hyphen; any other sender is taken whole (a
    lower-case prefix, a suffix such as [-S] or an inner hyphen stay).  So
    two senders that differ only in the route prefix share their accounts. *)
Theorem bank_of_sender_spec (sender : string) :
  bank_of_sender sender
  = match sender with
    | String a (String b (String c bank)) =>
        if Str.is_upper a && Str.is_upper b && Ascii.eqb "-" c then bank else sender
    | _ => sender
    end
  /\ forall (a b a' b' : ascii) (bank : string) (digits : option string) (user : Z)
            (db : Database),
       Str.is_upper a = true -> Str.is_upper b = true ->
       Str.is_upper a' = true -> Str.is_upper b' = true ->
       resolveAccountId digits (String a (String b (String "-" bank))) user db
       = resolveAccountId digits (String a' (String b' (String "-" bank))) user db.
Proof.
  assert (Hspec : forall s,
            bank_of_sender s
            = match s with
              | String a (String b (String c bank)) =>
                  if Str.is_upper a && Str.is_upper b && Ascii.eqb "-" c then bank else s
              | _ => s
              end).
  { intros s. unfold bank_of_sender, replace_first, exec.
    change (seqs [Bol; rep 2 (Chr Str.is_upper); lit1 "-"])
      with (Seq Bol (Seq (rep 2 (Chr Str.is_upper)) (lit1 "-"))).
    destruct s as [|a [|b [|c bank]]].
    - reflexivity.
    - cbn [exec_from]. unfold match_here. cbn [rmatch rep rest prev lit1 caps].
      destruct (Str.is_upper a); reflexivity.
    - cbn [exec_from]. unfold match_here. cbn [rmatch rep rest prev lit1 caps].
      destruct (Str.is_upper a); destruct (Str.is_upper b); reflexivity.
    - cbn [exec_from]. unfold match_here. cbn [rmatch rep rest prev lit1 caps].
      destruct (Str.is_upper a); cbn [andb]; [|rewrite exec_from_bol; reflexivity].
      destruct (Str.is_upper b); cbn [andb]; [|rewrite exec_from_bol; reflexivity].
      destruct (Ascii.eqb "-" c); [reflexivity|rewrite exec_from_bol; reflexivity]. }
  split; [apply Hspec|].
  intros a b a' b' bank digits user db Ha Hb Ha' Hb'.
  unfold resolveAccountId. rewrite !Hspec, Ha, Hb, Ha', Hb'. reflexivity.
Qed.

(** X27: run one statement at a time, every row the SMS pipeline adds is
    linked to an account: the row's [account_id] is the id of an account row
    that belongs to the same owner and carries the bank name of the sender. *)
Theorem processSmartSms_links_account
      (nfkc : string -> string) (today : string) (clock : Z -> string)
      (stored : option Z) (sms sender : string) (user ts : option Z) (quiet : bool)
      (db db' : Database) (res : ProcessResult) (row : TransactionRow) :
  processSmartSms nfkc today clock stored sms sender user ts quiet db = Done res db' ->
  transactions db' = (transactions db ++ [row])%list ->
  exists account,
    In account (accounts db')
    /\ t_account_id row = Some (a_id account)
    /\ a_userId account = t_user_id row
    /\ bankName account = bank_of_sender sender.
Proof.
  unfold processSmartSms.
  assert (Hsame : forall message, ret (failed message) db = Done res db' ->
            transactions db' = (transactions db ++ [row])%list -> False).
  { intros message H Hrow. inv H. apply (f_equal (@List.length _)) in Hrow.
    rewrite List.length_app in Hrow. simpl in Hrow. lia. }
  destruct (if no_user user then stored else user) as [owner|];
    [|intros H Hrow; exfalso; exact (Hsame _ H Hrow)].
  destruct (Z.eqb owner 0); [intros H Hrow; exfalso; exact (Hsame _ H Hrow)|].
  destruct (negb (isValid (validateTransactionSms sms sender)));
    [intros H Hrow; exfalso; exact (Hsame _ H Hrow)|].
  destruct (negb (isTransaction (validateTransactionSms sms sender)));
    [intros H Hrow; exfalso; exact (Hsame _ H Hrow)|].
  destruct (parseExpense nfkc today clock sms (isKnownBankSender sender) ts) as [parsed|];
    [|intros H Hrow; exfalso; exact (Hsame _ H Hrow)].
  clear Hsame.
  rewrite (@bind_done _ _ _ _ _ _ _ (getMerchantMapping_run (pe_merchant parsed) owner db)).
  destruct (resolveAccountId_run (pe_accountLast4 parsed) sender owner db)
    as (id & db1 & account & Hacc & _ & Hin & Hid & Hbank & Huser & _).
  destruct (resolveAccountId_frame (pe_accountLast4 parsed) sender owner db)
    as (account' & db1' & Hacc' & Htx & _).
  rewrite Hacc in Hacc'. inv Hacc'.
  assert (Hinsert : forall (t : Transaction) (k : Z -> M ProcessResult),
            accountId t = Some (a_id account) -> userId t = owner ->
            (forall i d, exists r, k i d = Done r d) ->
            bind (insertTransaction t true) k db1' = Done res db' ->
            transactions db' = (transactions db ++ [row])%list ->
            In account (accounts db')
            /\ t_account_id row = Some (a_id account)
            /\ a_userId account = t_user_id row).
  { intros t k Hta Htu Hk Hrun Hrow. unfold bind in Hrun.
    destruct (insertTransaction_cases t true db1')
      as [(r0 & rest0 & _ & _ & Hdone)|[(q & _ & _ & Hdone)|(_ & msg & Hthrown)]].
    - rewrite Hdone in Hrun. destruct (Hk (t_id r0) db1') as (r & Hr).
      rewrite Hr in Hrun. inv Hrun. exfalso. rewrite Htx in Hrow.
      apply (f_equal (@List.length _)) in Hrow.
      rewrite List.length_app in Hrow. simpl in Hrow. lia.
    - cbv zeta in Hdone. rewrite Hdone in Hrun.
      match type of Hrun with k ?i ?d = _ => destruct (Hk i d) as (r & Hr) end.
      rewrite Hr in Hrun. inv Hrun.
      cbn [transactions add_transaction accounts] in *.
      rewrite Htx in Hrow. apply List.app_inj_tail in Hrow. destruct Hrow as [_ <-].
      cbn [new_row t_account_id t_user_id]. rewrite Hta, Huser. auto.
    - rewrite Hthrown in Hrun. discriminate. }
  destruct (List.find (mapping_matches (pe_merchant parsed) owner) (merchant_mapping db))
    as [mapping|].
  - unfold bind at 1, ret at 1.
    rewrite (@bind_done _ _ _ _ _ _ _ Hacc).
    intros Hrun Hrow. exists account.
    pose proof (fun H1 H2 H3 => Hinsert _ _ H1 H2 H3 Hrun Hrow) as Hfin.
    destruct Hfin as (H1 & H2 & H3);
      [reflexivity|reflexivity|intros; eexists; reflexivity|auto].
  - destruct (autoCategorizeMerchant_reads (pe_merchant parsed) owner db) as (cat & Hcat).
    unfold bind at 1.
    rewrite (@bind_done _ _ _ _ _ _ _ Hcat). unfold ret at 1.
    rewrite (@bind_done _ _ _ _ _ _ _ Hacc).
    intros Hrun Hrow. exists account.
    pose proof (fun H1 H2 H3 => Hinsert _ _ H1 H2 H3 Hrun Hrow) as Hfin.
    destruct Hfin as (H1 & H2 & H3);
      [reflexivity|reflexivity|intros; eexists; reflexivity|auto].
Qed.

Lemma processSmartSms_links_account_witness :
  exists res db' row,
    processSmartSms identity "2026-01-01" no_clock None
                    starbucks_sms "AD-HDFCBK" (Some 1%Z) None false starbucks_store
    = Done res db'
    /\ transactions db' = (transactions starbucks_store ++ [row])%list
    /\ exists account,
         In account (accounts db')
         /\ t_account_id row = Some (a_id account)
         /\ a_userId account = t_user_id row
         /\ bankName account = bank_of_sender "AD-HDFCBK".
Proof.
  do 3 eexists. split; [vm_compute; reflexivity|]. split; [vm_compute; reflexivity|].
  eapply (@processSmartSms_links_account identity "2026-01-01" no_clock None
            starbucks_sms "AD-HDFCBK" (Some 1%Z) None false starbucks_store).
  - vm_compute. reflexivity.
  - vm_compute. reflexivity.
Defined.

(* ================================================================== *)
(** * The pipeline, row by row *)
(* ================================================================== *)

Lemma accepted_sms_parts
      (nfkc : string -> string) (today : string) (clock : Z -> string)
      (stored : option Z) (sms sender : string) (user ts : option Z)
      (owner : Z) (parsed : ParsedExpense) :
  accepted_sms nfkc today clock stored sms sender user ts = Some (owner, parsed) ->
  (if no_user user then stored else user) = Some owner
  /\ owner <> 0%Z
  /\ isValid (validateTransactionSms sms sender) = true
  /\ isTransaction (validateTransactionSms sms sender) = true
  /\ parseExpense nfkc today clock sms (isKnownBankSender sender) ts = Some parsed.
Proof.
  unfold accepted_sms.
  destruct (if no_user user then stored else user) as [o|]; [|discriminate].
  destruct (Z.eqb o 0) eqn:Hz; [discriminate|].
  destruct (isValid (validateTransactionSms sms sender)); [|discriminate].
  destruct (isTransaction (validateTransactionSms sms sender)); [|discriminate].
  cbn [negb].
  destruct (parseExpense nfkc today clock sms (isKnownBankSender sender) ts) as [p|];
    [|discriminate].
  intros H. inv H. apply Z.eqb_neq in Hz. auto.
Qed.

(** X8: a run of the SMS pipeline that completes adds at most one row, at
    the end of the table.  The row belongs to the resolved user (the
    [userId] passed, else the stored one), carries the resolved display name
    in [merchant], the parsed date, type and amount, the message itself in
    [raw_sms] and [NULL] in [original_merchant]. *)
Theorem processSmartSms_inserted_row
      (nfkc : string -> string) (today : string) (clock : Z -> string)
      (stored : option Z) (sms sender : string) (user ts : option Z) (quiet : bool)
      (db db' : Database) (res : ProcessResult) :
  processSmartSms nfkc today clock stored sms sender user ts quiet db = Done res db' ->
  transactions db' = transactions db
  \/ exists parsed owner row,
       (if no_user user then stored else user) = Some owner
       /\ parseExpense nfkc today clock sms (isKnownBankSender sender) ts = Some parsed
       /\ transactions db' = (transactions db ++ [row])%list
       /\ t_user_id row = Some owner
       /\ t_merchant row = resolved_name (pe_merchant parsed) owner db
       /\ t_date row = pe_date parsed
       /\ t_type row = pe_type parsed
       /\ pe_amount parsed = Num (t_amount row)
       /\ t_raw_sms row = Some sms
       /\ t_original_merchant row = None.
Proof.
  intros Hrun.
  pose proof (processSmartSms_steps nfkc today clock stored sms sender user ts quiet db)
    as Hsteps.
  destruct (accepted_sms nfkc today clock stored sms sender user ts) as [[owner parsed]|]
    eqn:Hacc.
  2:{ destruct Hsteps as (message & Hsteps). rewrite Hsteps in Hrun. inv Hrun.
      left. reflexivity. }
  destruct (accepted_sms_parts _ _ _ _ _ _ _ _ Hacc) as (Howner & _ & _ & _ & Hparse).
  destruct Hsteps as (category & account & db1 & result & Htx & _ & _ & Hsteps).
  rewrite Hsteps in Hrun.
  match type of Hrun with
  | context [insertTransaction ?t true db1] =>
      destruct (insertTransaction_cases t true db1)
        as [(row & rest & _ & _ & Hdone)|[(q & Hq & _ & Hdone)|(_ & msg & Hthrown)]]
  end.
  - rewrite Hdone in Hrun. inv Hrun. left. exact Htx.
  - cbv zeta in Hdone. rewrite Hdone in Hrun. inv Hrun. right.
    eexists parsed, owner, _. split; [exact Howner|]. split; [exact Hparse|].
    cbn [transactions add_transaction]. rewrite Htx. split; [reflexivity|].
    cbn [new_row sms_payload t_user_id t_merchant t_date t_type t_amount t_raw_sms
         t_original_merchant userId merchant date type rawSms originalMerchant].
    cbn [sms_payload amount] in Hq. auto 10.
  - rewrite Hthrown in Hrun. discriminate.
Qed.

Lemma processSmartSms_inserted_row_witness :
  exists res db',
    processSmartSms identity "2026-01-01" no_clock None
                    starbucks_sms "AD-HDFCBK" (Some 1%Z) None false starbucks_store
    = Done res db'
    /\ (transactions db' = transactions starbucks_store
        \/ exists parsed owner row,
             (if no_user (Some 1%Z) then None else Some 1%Z) = Some owner
             /\ parseExpense identity "2026-01-01" no_clock starbucks_sms
                             (isKnownBankSender "AD-HDFCBK") None = Some parsed
             /\ transactions db' = (transactions starbucks_store ++ [row])%list
             /\ t_user_id row = Some owner
             /\ t_merchant row = resolved_name (pe_merchant parsed) owner starbucks_store
             /\ t_date row = pe_date parsed
             /\ t_type row = pe_type parsed
             /\ pe_amount parsed = Num (t_amount row)
             /\ t_raw_sms row = Some starbucks_sms
             /\ t_original_merchant row = None).
Proof.
  do 2 eexists. split; [vm_compute; reflexivity|].
  eapply (@processSmartSms_inserted_row identity "2026-01-01" no_clock None
            starbucks_sms "AD-HDFCBK" (Some 1%Z) None false starbucks_store).
  vm_compute. reflexivity.
Defined.

(** The extractor's answer depends on the clock and the timestamp through
    the date only. *)
Lemma parseExpense_date
      (nfkc : string -> string) (today today' : string) (clock : Z -> string)
      (sms : string) (known : bool) (ts ts' : option Z) (parsed : ParsedExpense) :
  parseExpense nfkc today clock sms known ts = Some parsed ->
  pe_date parsed = message_date nfkc today clock sms ts
  /\ parseExpense nfkc today' clock sms known ts'
     = Some {| pe_amount := pe_amount parsed; pe_merchant := pe_merchant parsed;
               pe_type := pe_type parsed;
               pe_date := message_date nfkc today' clock sms ts';
               pe_accountLast4 := pe_accountLast4 parsed |}.
Proof.
  unfold parseExpense, parseExpenseWithRegex, normalizeMessage, message_date.
  destruct (negb (isValidTransaction (nfkc sms))); [discriminate|].
  destruct (falsy (extractAccountInfo (nfkc sms)) && negb known); [discriminate|].
  destruct (capture 1 AMOUNT_PATTERN (nfkc sms)); [|discriminate].
  intros H. inv H. split; reflexivity.
Qed.

(** X7: ingesting the same message again adds no transaction and returns
    the id of the first ingestion, provided both runs read the same date for
    it: the day of the same receipt timestamp, or, with no timestamp, the
    date group of the text or else the same current day.  (Timestamps are
    within the range of [Date].) *)
Theorem processSmartSms_idempotent
      (nfkc : string -> string) (today today' : string) (clock : Z -> string)
      (stored : option Z) (sms sender : string) (user ts ts' : option Z)
      (quiet quiet' : bool) (db db1 : Database) (res1 : ProcessResult) :
  processSmartSms nfkc today clock stored sms sender user ts quiet db = Done res1 db1 ->
  success res1 = true ->
  usable_timestamp ts = true -> usable_timestamp ts' = true ->
  message_date nfkc today' clock sms ts' = message_date nfkc today clock sms ts ->
  exists res2 db2,
    processSmartSms nfkc today' clock stored sms sender user ts' quiet' db1 = Done res2 db2
    /\ success res2 = true
    /\ transactionId res2 = transactionId res1
    /\ transactions db2 = transactions db1.
Proof.
  intros Hfirst Hok _ _ Hdate.
  pose proof (processSmartSms_steps nfkc today clock stored sms sender user ts quiet db)
    as Hone.
  pose proof (processSmartSms_steps nfkc today' clock stored sms sender user ts' quiet' db1)
    as Htwo.
  destruct (accepted_sms nfkc today clock stored sms sender user ts) as [[owner parsed]|]
    eqn:Hacc.
  2:{ destruct Hone as (message & Hone). rewrite Hone in Hfirst. inv Hfirst. discriminate. }
  destruct (accepted_sms_parts _ _ _ _ _ _ _ _ Hacc) as (Howner & Hnz & Hv & Ht & Hparse).
  destruct (parseExpense_date nfkc today today' clock sms (isKnownBankSender sender) ts ts'
              Hparse) as [Hd Hparse'].
  assert (Hacc' : accepted_sms nfkc today' clock stored sms sender user ts'
                  = Some (owner, parsed)).
  { unfold accepted_sms. rewrite Howner. apply Z.eqb_neq in Hnz. rewrite Hnz, Hv, Ht.
    cbn [negb]. rewrite Hparse', Hdate, <- Hd. destruct parsed; reflexivity. }
  rewrite Hacc' in Htwo.
  destruct Hone as (c1 & a1 & dba & result1 & Htx1 & Hmm1 & Hres1 & Hone).
  destruct Htwo as (c2 & a2 & dbb & result2 & Htx2 & Hmm2 & Hres2 & Htwo).
  rewrite Hone in Hfirst.
  set (t1 := sms_payload parsed owner (resolved_name (pe_merchant parsed) owner db)
                         c1 a1 sms) in *.
  set (t2 := sms_payload parsed owner (resolved_name (pe_merchant parsed) owner db1)
                         c2 a2 sms) in *.
  assert (Hkey : forall r, same_transaction t2 r = same_transaction t1 r).
  { intros r. apply same_transaction_key; try reflexivity.
    unfold t1, t2, sms_payload, resolved_name; simpl.
    assert (Hmm : merchant_mapping db1 = merchant_mapping db).
    { destruct (insertTransaction t1 true dba) as [id db'|] eqn:Hrun; [|discriminate].
      inv Hfirst. rewrite (insertTransaction_frame _ _ _ Hrun). exact Hmm1. }
    rewrite Hmm. reflexivity. }
  assert (Hfound : exists row rest,
             List.filter (same_transaction t2) (transactions dbb) = row :: rest
             /\ transactionId res1 = Some (t_id row)).
  { rewrite Htx2, (List.filter_ext _ _ Hkey).
    destruct (insertTransaction_cases t1 true dba)
      as [(row & rest & _ & Hf & Hrun) | [(q & Hq & Hnone & Hrun) | (_ & msg & Hrun)]];
      rewrite Hrun in Hfirst; inv Hfirst.
    - exists row, rest. split; [exact Hf|]. apply Hres1.
    - exists (new_row t1 q (next_id (List.map t_id (transactions dba)) (seq_transactions dba))),
             [].
      split; [|apply (Hres1 (next_id (List.map t_id (transactions dba))
                                     (seq_transactions dba)))].
      simpl. apply filter_app_single; [apply Hnone; reflexivity|].
      apply same_transaction_new_row. exact Hq. }
  destruct Hfound as (row & rest & Hf & Hid).
  assert (Hrun2 : insertTransaction t2 true dbb = Done (t_id row) dbb).
  { unfold insertTransaction, bind, get, ret. rewrite Hf. reflexivity. }
  rewrite Hrun2 in Htwo.
  exists (result2 (t_id row)), dbb. split; [exact Htwo|].
  destruct (Hres2 (t_id row)) as [Hs Ht']. split; [exact Hs|]. split; [congruence|exact Htx2].
Qed.

Lemma processSmartSms_idempotent_witness :
  exists res1 db1,
    processSmartSms identity "2026-01-01" no_clock None
                    starbucks_sms "AD-HDFCBK" (Some 1%Z) None false starbucks_store
    = Done res1 db1
    /\ success res1 = true
    /\ message_date identity "2026-03-09" no_clock starbucks_sms None
       = message_date identity "2026-01-01" no_clock starbucks_sms None
    /\ exists res2 db2,
         processSmartSms identity "2026-03-09" no_clock None
                         starbucks_sms "AD-HDFCBK" (Some 1%Z) None true db1
         = Done res2 db2
         /\ success res2 = true
         /\ transactionId res2 = transactionId res1
         /\ transactions db2 = transactions db1.
Proof.
  do 2 eexists. split; [vm_compute; reflexivity|]. split; [reflexivity|].
  split; [vm_compute; reflexivity|].
  eapply (@processSmartSms_idempotent identity "2026-01-01" "2026-03-09" no_clock None
            starbucks_sms "AD-HDFCBK" (Some 1%Z) None None false true starbucks_store).
  - vm_compute. reflexivity.
  - reflexivity.
  - reflexivity.
  - reflexivity.
  - vm_compute. reflexivity.
Defined.

(* ================================================================== *)
(** * The amount, as a double *)
(* ================================================================== *)

Lemma digit_val_bound (c : ascii) : Str.is_digit c = true -> (0 <= digit_val c <= 9)%Z.
Proof.
  unfold Str.is_digit, Str.between, digit_val. intros H.
  apply andb_true_iff in H. destruct H as [Hlo Hhi].
  apply Nat.leb_le in Hlo, Hhi. change (Str.code "0") with 48 in *.
  change (Str.code "9") with 57 in *. lia.
Qed.

(** C10: the amount pattern takes a fraction only as a dot and exactly two
    digits.  In "Rs 500.5 debited from A/c XX1234" it captures "500" and the
    amount is 500: the one-digit fraction is dropped without notice; of a
    longer fraction, as in 500.567, the pattern takes the first two digits.
    In general the captured text is a run of digits and commas followed by
    nothing or by a two-digit fraction, and the amount is the double nearest
    to its decimal value with the commas removed (stated for numerals of at
    most 20 significant digits).  So a whole amount below 2^53 is exact, and
    an amount with a two-digit fraction, below 2^51, is exact when the
    fraction is 00, 25, 50 or 75 and is not exact otherwise. *)
Theorem amount_fraction_needs_two_digits :
  (capture 1 AMOUNT_PATTERN "Rs 500.5 debited from A/c XX1234" = Some "500"
   /\ option_map pe_amount
        (parseExpenseWithRegex identity "2026-01-01" no_clock
           "Rs 500.5 debited from A/c XX1234" false None)
      = Some (Num 500)
   /\ capture 1 AMOUNT_PATTERN "Rs 500.567 debited from A/c XX1234" = Some "500.56")
  /\ forall (nfkc : string -> string) (today : string) (clock : Z -> string)
            (rawSms : string) (isKnownBank : bool) (ts : option Z) (parsed : ParsedExpense),
       parseExpenseWithRegex nfkc today clock rawSms isKnownBank ts = Some parsed ->
       exists w frac,
         capture 1 AMOUNT_PATTERN (nfkc rawSms) = Some (w ++ frac)
         /\ w <> "" /\ Str.forallb is_digit_or_comma w = true
         /\ ((frac = ""
              /\ ((decimal (strip_commas w) < 10 ^ 20)%Z ->
                  pe_amount parsed
                  = if Str.existsb Str.is_digit w
                    then Num (round_double (inject_Z (decimal (strip_commas w))))
                    else NaN)
              /\ ((decimal (strip_commas w) < 2 ^ 53)%Z ->
                  Str.existsb Str.is_digit w = true ->
                  pe_amount parsed = Num (inject_Z (decimal (strip_commas w)))))
             \/ exists d1 d2,
                  Str.is_digit d1 = true /\ Str.is_digit d2 = true
                  /\ frac = String "." (String d1 (String d2 ""))
                  /\ ((decimal (strip_commas w) < 10 ^ 18)%Z ->
                      exists q,
                        pe_amount parsed = Num q
                        /\ q = round_double (two_decimal_value w d1 d2)
                        /\ ((25 | 10 * digit_val d1 + digit_val d2)%Z ->
                            (decimal (strip_commas w) + 1 < 2 ^ 51)%Z ->
                            (q == two_decimal_value w d1 d2)%Q)
                        /\ (~ (25 | 10 * digit_val d1 + digit_val d2)%Z ->
                            ~ (q == two_decimal_value w d1 d2)%Q))).
Proof.
  split; [repeat split; vm_compute; reflexivity|].
  intros nfkc today clock rawSms isKnownBank ts parsed Hparse.
  unfold parseExpenseWithRegex, normalizeMessage in Hparse.
  destruct (negb (isValidTransaction (nfkc rawSms))); [discriminate|].
  destruct (falsy (extractAccountInfo (nfkc rawSms)) && negb isKnownBank); [discriminate|].
  destruct (capture 1 AMOUNT_PATTERN (nfkc rawSms)) as [h|] eqn:Hcap; [|discriminate].
  inv Hparse. cbn [pe_amount].
  destruct (amount_capture_shape _ Hcap) as (w & frac & -> & Hne & Hw & Hfrac).
  exists w, frac. repeat split; trivial.
  pose proof (decimal_nonneg (strip_commas w)) as Hdec.
  destruct Hfrac as [->|(d1 & d2 & H1 & H2 & ->)].
  - left. split; [reflexivity|]. rewrite append_nil_r, (parseAmount_integer w Hw).
    split; [reflexivity|]. intros Hsmall ->.
    rewrite round_double_integer by lia. reflexivity.
  - right. exists d1, d2. repeat split; trivial. intros _.
    rewrite (parseAmount_two_decimals w d1 d2 Hw H1 H2).
    fold (two_decimal_value w d1 d2).
    eexists. split; [reflexivity|]. split; [reflexivity|].
    pose proof (digit_val_bound _ H1). pose proof (digit_val_bound _ H2).
    unfold two_decimal_value. split.
    + intros Hq Hsmall. apply round_double_quarters; [exact Hdec|exact Hsmall|lia|exact Hq].
    + intros Hq. apply round_double_hundredths. exact Hq.
Qed.

Lemma amount_fraction_needs_two_digits_witness :
  option_map pe_amount
    (parseExpenseWithRegex identity "2026-01-01" no_clock
       "Rs. 1,234.50 debited from A/c XX1234" false None)
  = Some (Num (2469 # 2))
  /\ exists w frac,
       capture 1 AMOUNT_PATTERN "Rs. 1,234.50 debited from A/c XX1234" = Some (w ++ frac)
       /\ w <> "".
Proof.
  split; [vm_compute; reflexivity|].
  destruct (parseExpenseWithRegex identity "2026-01-01" no_clock
              "Rs. 1,234.50 debited from A/c XX1234" false None)
    as [parsed|] eqn:Hparse; [|vm_compute in Hparse; discriminate].
  destruct (proj2 amount_fraction_needs_two_digits identity "2026-01-01" no_clock
              "Rs. 1,234.50 debited from A/c XX1234" false None parsed Hparse)
    as (w & frac & Hcap & Hne & _).
  exists w, frac. split; assumption.
Defined.

(** C10, counterexample: an amount written with two decimal digits, or with
    none, that is not parsed exactly.  The amount of "Rs 0.10 ..." is the
    double 3602879701896397 / 2^55, which is not one tenth, and the amount of
    "Rs 12345678901234567890 ..." is 12345678901234567168. *)
Theorem amount_not_exact :
  option_map pe_amount
    (parseExpenseWithRegex identity "2026-01-01" no_clock
       "Rs 0.10 debited from A/c XX1234" false None)
  = Some (Num (3602879701896397 # 36028797018963968))
  /\ ~ (3602879701896397 # 36028797018963968 == 1 # 10)%Q
  /\ option_map pe_amount
       (parseExpenseWithRegex identity "2026-01-01" no_clock
          "Rs 12345678901234567890 debited from A/c XX1234" false None)
     = Some (Num 12345678901234567168)
  /\ ~ (12345678901234567168 == 12345678901234567890)%Q.
Proof.
  split; [vm_compute; reflexivity|]. split; [intros H; vm_compute in H; discriminate|].
  split; [vm_compute; reflexivity|]. intros H; vm_compute in H; discriminate.
Qed.

(* ================================================================== *)
(** * Suggested names, word by word *)
(* ================================================================== *)

Lemma filter_filter_sub (p q : ascii -> bool) (s : string) :
  (forall c, p c = true -> q c = true) ->
  Str.filter p (Str.filter q s) = Str.filter p s.
Proof.
  intros Hpq. induction s as [|c s IH]; [reflexivity|]. cbn [Str.filter].
  destruct (q c) eqn:Hq; cbn [Str.filter].
  - rewrite IH. reflexivity.
  - destruct (p c) eqn:Hp; [rewrite (Hpq c Hp) in Hq; discriminate|exact IH].
Qed.

Lemma filter_all (p : ascii -> bool) (s : string) :
  Str.forallb p s = true -> Str.filter p s = s.
Proof.
  induction s as [|c s IH]; [reflexivity|]. cbn [Str.forallb Str.filter].
  intros H. apply andb_true_iff in H. destruct H as [Hc Hs].
  rewrite Hc, (IH Hs). reflexivity.
Qed.

Lemma filter_rev (p : ascii -> bool) (s : string) :
  Str.filter p (Str.rev s) = Str.rev (Str.filter p s).
Proof.
  induction s as [|c s IH]; [reflexivity|].
  change (String c s) with (String c "" ++ s).
  rewrite rev_append, !filter_append, rev_append, IH. f_equal.
  cbn. destruct (p c); reflexivity.
Qed.

Lemma filter_trimStart (p : ascii -> bool) (s : string) :
  (forall c, Str.is_space c = true -> p c = false) ->
  Str.filter p (Str.trimStart s) = Str.filter p s.
Proof.
  intros Hp. induction s as [|c s IH]; [reflexivity|]. cbn [Str.trimStart].
  destruct (Str.is_space c) eqn:Hc; [|reflexivity].
  cbn [Str.filter]. rewrite (Hp c Hc). exact IH.
Qed.

Lemma filter_trim (p : ascii -> bool) (s : string) :
  (forall c, Str.is_space c = true -> p c = false) ->
  Str.filter p (Str.trim s) = Str.filter p s.
Proof.
  intros Hp. unfold Str.trim.
  rewrite filter_rev, (@filter_trimStart _ _ Hp), filter_rev, rev_involutive.
  apply filter_trimStart. exact Hp.
Qed.

Lemma filter_join_space (p : ascii -> bool) (ws : list string) :
  p " "%char = false ->
  Str.filter p (Str.join " " ws) = cat (List.map (Str.filter p) ws).
Proof.
  intros Hsp. induction ws as [|w ws IH]; [reflexivity|].
  destruct ws as [|w' ws].
  - cbn [Str.join List.map cat List.fold_right]. rewrite append_nil_r. reflexivity.
  - change (Str.join " " (w :: w' :: ws)) with (w ++ " " ++ Str.join " " (w' :: ws)).
    rewrite !filter_append, IH. cbn [Str.filter]. rewrite Hsp. reflexivity.
Qed.

(** Splitting loses the separators and nothing else. *)
Lemma split_on_runs_content (sep p : ascii -> bool) :
  (forall c, sep c = true -> p c = false) ->
  forall (s cur : string) (in_run : bool),
    (in_run = true -> cur = "") ->
    cat (List.map (Str.filter p) (split_on_runs sep in_run cur s))
    = Str.filter p (Str.rev cur) ++ Str.filter p s.
Proof.
  intros Hsep. induction s as [|c s IH]; intros cur in_run Hrun.
  - cbn [split_on_runs List.map cat List.fold_right Str.filter]. reflexivity.
  - cbn [split_on_runs]. destruct (sep c) eqn:Hc.
    + cbn [Str.filter]. rewrite (Hsep c Hc). destruct in_run.
      * rewrite (Hrun eq_refl). apply IH. reflexivity.
      * cbn [List.map cat List.fold_right]. fold (cat (List.map (Str.filter p)
                                                  (split_on_runs sep true "" s))).
        rewrite IH by reflexivity. reflexivity.
    + rewrite IH by discriminate.
      change (String c cur) with (String c "" ++ cur).
      rewrite rev_append, filter_append, append_assoc. f_equal.
      cbn. destruct (p c); reflexivity.
Qed.

Lemma lowc_upc (c : ascii) : Str.lowc (Str.upc c) = Str.lowc c.
Proof. destruct c as [[] [] [] [] [] [] [] []]; vm_compute; reflexivity. Qed.

Lemma lowc_lowc (c : ascii) : Str.lowc (Str.lowc c) = Str.lowc c.
Proof. destruct c as [[] [] [] [] [] [] [] []]; vm_compute; reflexivity. Qed.

Lemma toLowerCase_append (a b : string) :
  Str.toLowerCase (a ++ b) = Str.toLowerCase a ++ Str.toLowerCase b.
Proof.
  induction a as [|c a IH]; [reflexivity|].
  cbn [append]. unfold Str.toLowerCase in *. cbn [Str.map]. rewrite IH. reflexivity.
Qed.

Lemma toLowerCase_idempotent (s : string) :
  Str.toLowerCase (Str.toLowerCase s) = Str.toLowerCase s.
Proof.
  induction s as [|c s IH]; [reflexivity|].
  unfold Str.toLowerCase in *. cbn [Str.map]. rewrite lowc_lowc, IH. reflexivity.
Qed.

Lemma toLowerCase_capitalize (w : string) :
  Str.toLowerCase (Str.capitalize w) = Str.toLowerCase w.
Proof.
  destruct w as [|c w]; [reflexivity|]. cbn [Str.capitalize].
  change (Str.toLowerCase (String (Str.upc c) (Str.toLowerCase w)))
    with (String (Str.lowc (Str.upc c)) (Str.toLowerCase (Str.toLowerCase w))).
  rewrite lowc_upc, toLowerCase_idempotent. reflexivity.
Qed.

Lemma toLowerCase_cat_capitalize (ws : list string) :
  Forall (fun w => Str.forallb is_alnum w = true) ws ->
  Str.toLowerCase (cat (List.map (Str.filter is_alnum) (List.map Str.capitalize ws)))
  = Str.toLowerCase (cat (List.map (Str.filter is_alnum) ws)).
Proof.
  induction 1 as [|w ws Hw Hws IH]; [reflexivity|].
  cbn [List.map cat List.fold_right].
  fold (cat (List.map (Str.filter is_alnum) (List.map Str.capitalize ws))).
  fold (cat (List.map (Str.filter is_alnum) ws)).
  rewrite !toLowerCase_append, IH.
  rewrite (@filter_all _ _ Hw), (@filter_all _ _ (@capitalize_alnum w Hw)).
  rewrite toLowerCase_capitalize. reflexivity.
Qed.

(** The words of a stripped name hold letters and digits only. *)
Lemma suggested_words_alnum (rawName : string) :
  Forall (fun w => Str.forallb is_alnum w = true)
         (split_on_runs (fun c => Str.is_space c || Ascii.eqb c "_" || Ascii.eqb c "-")
                        false EmptyString
                        (Str.filter (fun c => Str.is_word c || Str.is_space c) rawName)).
Proof.
  apply (split_on_runs_words
           (fun c => Str.is_space c || Ascii.eqb c "_" || Ascii.eqb c "-")
           is_alnum (fun c => Str.is_word c || Str.is_space c)).
  - intros c Hq Hsep. unfold is_alnum. unfold Str.is_word in Hq.
    apply orb_false_iff in Hsep. destruct Hsep as [Hsep _].
    apply orb_false_iff in Hsep. destruct Hsep as [Hspace Hunder].
    rewrite Hspace, Hunder, !orb_false_r in Hq. exact Hq.
  - apply forallb_filter.
  - reflexivity.
Qed.

Lemma alnum_facts (c : ascii) :
  is_alnum c = true ->
  Str.is_word c = true /\ Str.is_space c = false /\ Ascii.eqb c "_" = false
  /\ Ascii.eqb c "-" = false /\ Ascii.eqb c " " = false.
Proof. destruct c as [[] [] [] [] [] [] [] []]; vm_compute; intros; auto; discriminate. Qed.

Lemma word_break_facts (c : ascii) :
  is_word_break c = true ->
  (Str.is_word c || Str.is_space c) = true
  /\ (Str.is_space c || Ascii.eqb c "_" || Ascii.eqb c "-") = true.
Proof. destruct c as [[] [] [] [] [] [] [] []]; vm_compute; intros; auto; discriminate. Qed.

(** A run of letters and digits goes into the current word. *)
Lemma split_on_runs_word (sep : ascii -> bool) (a : string) :
  (forall c, is_alnum c = true -> sep c = false) ->
  Str.forallb is_alnum a = true -> a <> "" ->
  forall (s cur : string) (in_run : bool),
    split_on_runs sep in_run cur (a ++ s)
    = split_on_runs sep false (Str.rev a ++ cur) s.
Proof.
  intros Hsep. induction a as [|c a IH]; intros Ha Hne s cur in_run; [congruence|].
  cbn [Str.forallb] in Ha. apply andb_true_iff in Ha. destruct Ha as [Hc Ha].
  cbn [append split_on_runs]. rewrite (Hsep c Hc).
  destruct a as [|c' a].
  - reflexivity.
  - rewrite (IH Ha ltac:(discriminate)).
    change (String c (String c' a)) with (String c "" ++ String c' a).
    rewrite rev_append, append_assoc. reflexivity.
Qed.

(** A run of separators closes the current word, once. *)
Lemma split_on_runs_break (sep : ascii -> bool) (b : string) :
  Str.forallb sep b = true ->
  forall (s : string),
    split_on_runs sep true "" (b ++ s) = split_on_runs sep true "" s.
Proof.
  induction b as [|c b IH]; intros Hb s; [reflexivity|].
  cbn [Str.forallb] in Hb. apply andb_true_iff in Hb. destruct Hb as [Hc Hb].
  cbn [append split_on_runs]. rewrite Hc. apply IH. exact Hb.
Qed.

Lemma trimStart_word (w s : string) :
  Str.forallb is_alnum w = true -> w <> "" -> Str.trimStart (w ++ s) = w ++ s.
Proof.
  destruct w as [|c w]; [congruence|]. cbn [Str.forallb]. intros H _.
  apply andb_true_iff in H. destruct H as [Hc _].
  destruct (@alnum_facts c Hc) as (_ & Hsp & _).
  cbn [append Str.trimStart]. rewrite Hsp. reflexivity.
Qed.

Lemma rev_not_empty (s : string) : s <> "" -> Str.rev s <> "".
Proof.
  intros Hne Hrev. apply Hne. rewrite <- (rev_involutive s), Hrev. reflexivity.
Qed.

(** [trim] leaves text that begins and ends with a word as it is. *)
Lemma trim_between_words (a mid b : string) :
  Str.forallb is_alnum a = true -> a <> "" ->
  Str.forallb is_alnum b = true -> b <> "" ->
  Str.trim (a ++ mid ++ b) = a ++ mid ++ b.
Proof.
  intros Ha Hane Hb Hbne. unfold Str.trim.
  rewrite (@trimStart_word a _ Ha Hane).
  rewrite <- append_assoc, rev_append.
  rewrite trimStart_word;
    [|rewrite forallb_rev; exact Hb|apply rev_not_empty; exact Hbne].
  rewrite <- rev_append, rev_involutive. reflexivity.
Qed.

Lemma capitalize_not_empty (w : string) : w <> "" -> Str.capitalize w <> "".
Proof. destruct w; [congruence|discriminate]. Qed.

Lemma punctuation_stripped (p : string) :
  Str.forallb is_punctuation p = true ->
  Str.filter (fun c => Str.is_word c || Str.is_space c) p = "".
Proof.
  induction p as [|c p IH]; [reflexivity|]. cbn [Str.forallb Str.filter].
  intros H. apply andb_true_iff in H. destruct H as [Hc Hp].
  unfold is_punctuation in Hc. apply negb_true_iff in Hc. rewrite Hc. exact (IH Hp).
Qed.

Lemma word_kept (a : string) :
  Str.forallb is_alnum a = true ->
  Str.filter (fun c => Str.is_word c || Str.is_space c) a = a.
Proof.
  intros Ha. apply filter_all. revert Ha. apply forallb_impl.
  intros c Hc. destruct (@alnum_facts c Hc) as (Hw & _). rewrite Hw. reflexivity.
Qed.

Lemma alnum_not_break (c : ascii) :
  is_alnum c = true ->
  (Str.is_space c || Ascii.eqb c "_" || Ascii.eqb c "-") = false.
Proof.
  intros Hc. destruct (@alnum_facts c Hc) as (_ & H1 & H2 & H3 & _).
  rewrite H1, H2, H3. reflexivity.
Qed.

(** X15: the suggested name of a raw token of ASCII characters.  It is made
    of letters, digits and spaces only, and holds the letters and digits of
    the token, in their order, up to letter case.  Punctuation, the hyphen
    included, is deleted before the words are split, so it joins what it
    stood between: [a], punctuation, [b] gives the one word [a ++ b],
    capitalised.  White space and underscores separate words: [a], a run of
    them, [b] gives the two words capitalised, with one space between. *)
Theorem getSuggestedName_characters (rawName : string) :
  is_ascii_text rawName = true ->
  Str.forallb is_name_char (getSuggestedName rawName) = true
  /\ Str.toLowerCase (Str.filter is_alnum (getSuggestedName rawName))
     = Str.toLowerCase (Str.filter is_alnum rawName)
  /\ (forall a p b : string,
        rawName = a ++ p ++ b ->
        Str.forallb is_alnum a = true -> a <> "" ->
        Str.forallb is_punctuation p = true ->
        Str.forallb is_alnum b = true ->
        getSuggestedName rawName = Str.capitalize (a ++ b))
  /\ (forall a sep b : string,
        rawName = a ++ sep ++ b ->
        Str.forallb is_alnum a = true -> a <> "" ->
        Str.forallb is_word_break sep = true -> sep <> "" ->
        Str.forallb is_alnum b = true -> b <> "" ->
        getSuggestedName rawName = Str.capitalize a ++ " " ++ Str.capitalize b).
Proof.
  intros _. split; [|split; [|split]].
  - unfold getSuggestedName. apply forallb_trim, join_space_words.
    apply List.Forall_map.
    eapply List.Forall_impl; [intros w; apply capitalize_alnum|].
    apply suggested_words_alnum.
  - unfold getSuggestedName.
    rewrite filter_trim
      by (intros c Hc; destruct (is_alnum c) eqn:Ha; [|reflexivity];
          destruct (@alnum_facts c Ha) as (_ & Hsp & _); congruence).
    rewrite filter_join_space by reflexivity.
    rewrite (@toLowerCase_cat_capitalize _ (suggested_words_alnum rawName)).
    rewrite (@split_on_runs_content
               (fun c => Str.is_space c || Ascii.eqb c "_" || Ascii.eqb c "-") is_alnum).
    + cbn [Str.rev Str.rev_onto Str.filter append].
      rewrite filter_filter_sub; [reflexivity|].
      intros c Hc. destruct (@alnum_facts c Hc) as (Hw & _). rewrite Hw. reflexivity.
    + intros c Hc. destruct (is_alnum c) eqn:Ha; [|reflexivity].
      rewrite (@alnum_not_break c Ha) in Hc. discriminate.
    + discriminate.
  - intros a p b -> Ha Hane Hp Hb. unfold getSuggestedName.
    rewrite !filter_append, (@word_kept a Ha), (@word_kept b Hb), (@punctuation_stripped p Hp).
    cbn [append].
    assert (Hab : Str.forallb is_alnum (a ++ b) = true)
      by (rewrite forallb_append, Ha, Hb; reflexivity).
    assert (Habne : a ++ b <> "") by (destruct a; [congruence|discriminate]).
    rewrite <- (append_nil_r (a ++ b)) at 1.
    rewrite (@split_on_runs_word _ (a ++ b) alnum_not_break Hab Habne).
    cbn [split_on_runs List.map Str.join].
    rewrite append_nil_r, rev_involutive.
    apply trim_none. generalize (@capitalize_alnum (a ++ b) Hab). apply forallb_impl.
    intros c Hc. destruct (@alnum_facts c Hc) as (_ & Hsp & _). rewrite Hsp. reflexivity.
  - intros a sep b -> Ha Hane Hsep Hsepne Hb Hbne. unfold getSuggestedName.
    assert (Hkept : Str.filter (fun c => Str.is_word c || Str.is_space c) sep = sep).
    { apply filter_all. revert Hsep. apply forallb_impl.
      intros c Hc. apply (@word_break_facts c Hc). }
    assert (Hbreak : Str.forallb
                       (fun c => Str.is_space c || Ascii.eqb c "_" || Ascii.eqb c "-") sep
                     = true).
    { revert Hsep. apply forallb_impl. intros c Hc. apply (@word_break_facts c Hc). }
    rewrite !filter_append, (@word_kept a Ha), (@word_kept b Hb), Hkept.
    rewrite (@split_on_runs_word _ a alnum_not_break Ha Hane).
    destruct sep as [|c sep]; [congruence|].
    cbn [Str.forallb] in Hbreak. apply andb_true_iff in Hbreak. destruct Hbreak as [Hc Hrest].
    cbn [append split_on_runs]. rewrite Hc.
    rewrite (@split_on_runs_break _ sep Hrest).
    rewrite <- (append_nil_r b) at 1.
    rewrite (@split_on_runs_word _ b alnum_not_break Hb Hbne).
    cbn [split_on_runs List.map Str.join].
    rewrite !append_nil_r, !rev_involutive.
    apply trim_between_words.
    + apply capitalize_alnum. exact Ha.
    + apply capitalize_not_empty. exact Hane.
    + apply capitalize_alnum. exact Hb.
    + apply capitalize_not_empty. exact Hbne.
Qed.

Lemma getSuggestedName_characters_witness :
  is_ascii_text "UPI-ZOMATO_big bazaar" = true
  /\ getSuggestedName "UPI-ZOMATO-123" = "Upizomato123"
  /\ getSuggestedName "UPI-ZOMATO_big bazaar" = "Upizomato Big Bazaar"
  /\ getSuggestedName "merchant.name@okaxis" = "Merchantnameokaxis"
  /\ Str.forallb is_name_char (getSuggestedName "UPI-ZOMATO_big bazaar") = true
  /\ Str.toLowerCase (Str.filter is_alnum (getSuggestedName "UPI-ZOMATO_big bazaar"))
     = Str.toLowerCase (Str.filter is_alnum "UPI-ZOMATO_big bazaar").
Proof.
  split; [reflexivity|]. split; [vm_compute; reflexivity|].
  split; [vm_compute; reflexivity|]. split; [vm_compute; reflexivity|].
  destruct (@getSuggestedName_characters "UPI-ZOMATO_big bazaar" eq_refl)
    as (Hchars & Hcontent & _).
  split; assumption.
Defined.

(* ================================================================== *)
(** * The duplicate key *)
(* ================================================================== *)

Lemma type_eqb_eq (a b : TxType) : type_eqb a b = true <-> a = b.
Proof. destruct a, b; simpl; split; congruence. Qed.

(** The [WHERE] clause of the duplicate check selects the rows that have
    the record's five key fields. *)
Lemma same_transaction_same_key (t : Transaction) (r : TransactionRow) :
  same_transaction t r = true <-> same_key t r.
Proof.
  unfold same_transaction, same_key. split.
  - intros H. repeat (apply andb_true_iff in H; destruct H as [H ?]).
    split; [apply col_is_true; exact H|].
    split; [destruct (amount t) as [|q]; [discriminate|];
            exists q; split; [reflexivity|apply Qeq_bool_iff; assumption]|].
    split; [apply String.eqb_eq; assumption|].
    split; [apply type_eqb_eq; assumption|apply String.eqb_eq; assumption].
  - intros (Hu & (q & Hq & Ha) & Hd & Ht & Hm).
    rewrite Hu, Hq, Hd, Ht, Hm. cbn [col_is].
    rewrite Z.eqb_refl, !String.eqb_refl. apply Qeq_bool_iff in Ha. rewrite Ha.
    destruct (type t); reflexivity.
Qed.

(** C2: [insertTransaction] with duplicate checking, for every record and
    store.  If a stored row has the record's (userId, amount, date, type,
    merchant), the id of such a row is returned and the store is left as it
    is.  If no stored row has all five, the record is appended under a
    fresh id.  So a second insertion of a record with the same five fields,
    whatever its other fields, returns the id of the first and stores
    nothing more.  Without duplicate checking a record with a numeric
    amount is appended even when a row with its key is there.  A [NaN]
    amount is refused in either mode. *)
Theorem insertTransaction_duplicates (t : Transaction) (db : Database) :
  ((exists r, In r (transactions db) /\ same_key t r) ->
   exists row, In row (transactions db) /\ same_key t row
               /\ insertTransaction t true db = Done (t_id row) db)
  /\ (forall q, amount t = Num q ->
      (forall r, In r (transactions db) -> ~ same_key t r) ->
      exists id,
        insertTransaction t true db = Done id (add_transaction (new_row t q id) db)
        /\ ~ In id (List.map t_id (transactions db)))
  /\ (forall q t', amount t = Num q -> same_key_fields t t' ->
      exists id db1,
        insertTransaction t true db = Done id db1
        /\ insertTransaction t' true db1 = Done id db1
        /\ ((forall r, In r (transactions db) -> ~ same_key t r) ->
            transactions db1 = (transactions db ++ [new_row t q id])%list))
  /\ (forall q, amount t = Num q ->
      exists id,
        insertTransaction t false db = Done id (add_transaction (new_row t q id) db)
        /\ transactions (add_transaction (new_row t q id) db)
           = (transactions db ++ [new_row t q id])%list
        /\ ~ In id (List.map t_id (transactions db))
        /\ same_key t (new_row t q id))
  /\ (amount t = NaN ->
      exists msg, insertTransaction t true db = Thrown msg db
                  /\ insertTransaction t false db = Thrown msg db).
Proof.
  assert (Hnone_iff : (forall r, In r (transactions db) -> ~ same_key t r) ->
                      List.filter (same_transaction t) (transactions db) = []).
  { intros Hnone. apply filter_nil_intro. intros r Hr.
    destruct (same_transaction t r) eqn:Hs; [|reflexivity].
    exfalso. apply (Hnone r Hr). apply same_transaction_same_key. exact Hs. }
  assert (Hfresh : forall q,
            amount t = Num q ->
            List.filter (same_transaction t) (transactions db) = [] ->
            insertTransaction t true db
            = Done (next_id (List.map t_id (transactions db)) (seq_transactions db))
                   (add_transaction
                      (new_row t q (next_id (List.map t_id (transactions db))
                                            (seq_transactions db))) db)).
  { intros q Hq Hf. unfold insertTransaction, bind, get, put, ret. rewrite Hf, Hq.
    reflexivity. }
  split; [|split; [|split; [|split]]].
  - intros (r & Hin & Hkey). apply same_transaction_same_key in Hkey.
    destruct (filter_head_in _ _ _ Hin Hkey) as (row & rest & Hf & Hrow & Hsr).
    exists row. split; [exact Hrow|]. split; [apply same_transaction_same_key; exact Hsr|].
    unfold insertTransaction, bind, get, ret. rewrite Hf. reflexivity.
  - intros q Hq Hnone. eexists. split; [apply (Hfresh q Hq (Hnone_iff Hnone))|].
    apply next_id_not_in.
  - intros q t' Hq (Hu & Ha & Hd & Ht & Hm).
    assert (Hkey : forall r, same_transaction t' r = same_transaction t r)
      by (intros r; apply same_transaction_key; congruence).
    destruct (List.filter (same_transaction t) (transactions db)) as [|row rest] eqn:Hf.
    + eexists _, _. split; [apply (Hfresh q Hq eq_refl)|]. split; [|reflexivity].
      unfold insertTransaction, bind, get, ret. cbn [transactions add_transaction].
      rewrite (List.filter_ext _ _ Hkey).
      rewrite (filter_app_single _ _ _ Hf (same_transaction_new_row t _ Hq)).
      reflexivity.
    + exists (t_id row), db.
      split; [unfold insertTransaction, bind, get, ret; rewrite Hf; reflexivity|].
      split; [unfold insertTransaction, bind, get, ret;
              rewrite (List.filter_ext _ _ Hkey), Hf; reflexivity|].
      intros Hnone. pose proof (Hnone_iff Hnone) as Hcontra.
      try rewrite Hf in Hcontra. discriminate Hcontra.
  - intros q Hq. eexists. split; [|split; [reflexivity|split]].
    + unfold insertTransaction, bind, get, put, ret. rewrite Hq. reflexivity.
    + apply next_id_not_in.
    + apply same_transaction_same_key, same_transaction_new_row. exact Hq.
  - intros Hnan. eexists. split.
    + unfold insertTransaction, bind, get, throw.
      rewrite (filter_nil_intro (same_transaction t) (transactions db)), Hnan;
        [reflexivity|].
      intros r _. unfold same_transaction. rewrite Hnan, andb_false_r. reflexivity.
    + unfold insertTransaction, bind, get, throw. rewrite Hnan. reflexivity.
Qed.

Lemma insertTransaction_duplicates_witness :
  (forall r, In r (transactions near_miss_store) -> ~ same_key example_cash r)
  /\ same_key_fields example_cash example_cash_again
  /\ insertTransaction example_cash true near_miss_store
     = Done 6%Z (add_transaction (new_row example_cash 2000 6) near_miss_store)
  /\ insertTransaction example_cash_again true
       (add_transaction (new_row example_cash 2000 6) near_miss_store)
     = Done 6%Z (add_transaction (new_row example_cash 2000 6) near_miss_store)
  /\ insertTransaction example_cash_again false
       (add_transaction (new_row example_cash 2000 6) near_miss_store)
     = Done 7%Z (add_transaction (new_row example_cash_again 2000 7)
                   (add_transaction (new_row example_cash 2000 6) near_miss_store))
  /\ exists id db1,
       insertTransaction example_cash true near_miss_store = Done id db1
       /\ insertTransaction example_cash_again true db1 = Done id db1
       /\ transactions db1
          = (transactions near_miss_store ++ [new_row example_cash 2000 id])%list.
Proof.
  assert (Hnone : forall r, In r (transactions near_miss_store) -> ~ same_key example_cash r).
  { intros r Hr Hkey. apply same_transaction_same_key in Hkey.
    cbn [near_miss_store store_of transactions In] in Hr.
    repeat (destruct Hr as [Hr|Hr]; [subst r; vm_compute in Hkey; discriminate Hkey|]).
    destruct Hr. }
  assert (Hfields : same_key_fields example_cash example_cash_again)
    by (repeat split; reflexivity).
  split; [exact Hnone|]. split; [exact Hfields|].
  split; [vm_compute; reflexivity|]. split; [vm_compute; reflexivity|].
  split; [vm_compute; reflexivity|].
  destruct (insertTransaction_duplicates example_cash near_miss_store)
    as (_ & _ & Htwice & _).
  destruct (Htwice 2000%Q example_cash_again eq_refl Hfields) as (id & db1 & H1 & H2 & H3).
  exists id, db1. split; [exact H1|]. split; [exact H2|]. exact (H3 Hnone).
Defined.

(** C2, counterexample: the identical message, for the same owner and from
    the same sender, ingested twice and stored twice.  The text carries no
    date and no receipt timestamp is passed, so each run dates the
    transaction by the current day; on two different days the duplicate key
    differs and the second run inserts a second row under a new id. *)
Theorem same_sms_stored_twice :
  exists res1 db1 res2 db2,
    processSmartSms identity "2026-01-01" no_clock None
                    undated_sms "AD-HDFCBK" (Some 1%Z) None false starbucks_store
    = Done res1 db1
    /\ processSmartSms identity "2026-01-02" no_clock None
                       undated_sms "AD-HDFCBK" (Some 1%Z) None false db1
       = Done res2 db2
    /\ success res1 = true /\ success res2 = true
    /\ transactionId res1 = Some 1%Z /\ transactionId res2 = Some 2%Z
    /\ List.map t_date (transactions db2) = ["2026-01-01"; "2026-01-02"]
    /\ List.map t_raw_sms (transactions db2) = [Some undated_sms; Some undated_sms].
Proof.
  do 4 eexists. split; [vm_compute; reflexivity|]. split; [vm_compute; reflexivity|].
  repeat split.
Qed.

(* ================================================================== *)
(** * The next expected date and the time zone *)
(* ================================================================== *)





(* ================================================================== *)
(** * The matcher finds what the pattern describes *)
(* ================================================================== *)

Lemma match_here_matches (r : regex) (p : option ascii) (s : string) (st : mstate) :
  match_here r p s = Some st -> matches (Group 0 r) (MState p s []) st.
Proof.
  unfold match_here. intros H. apply rmatch_sound in H.
  destruct H as (st' & Hm & Hk). inversion Hk; subst. exact Hm.
Qed.

(** [exec] stops at the leftmost position where the pattern matches. *)
Lemma exec_from_found (r : regex) (s : string) :
  forall (p : option ascii) (skipped before : string) (st : mstate),
    exec_from r p skipped s = Some (before, st) ->
    exists a b,
      s = a ++ b /\ before = Str.rev skipped ++ a
      /\ match_here r (prev_after p a) b = Some st
      /\ forall a1 a2, a = a1 ++ a2 -> a2 <> "" ->
                       match_here r (prev_after p a1) (a2 ++ b) = None.
Proof.
  induction s as [|c s IH]; intros p skipped before st H; cbn [exec_from] in H.
  - destruct (match_here r p "") as [st1|] eqn:Hm; [|discriminate].
    inversion H; subst. exists "", "".
    split; [reflexivity|]. split; [rewrite append_nil_r; reflexivity|]. split; [exact Hm|].
    intros a1 a2 Ha Hne. destruct a1; [cbn in Ha; congruence|discriminate].
  - destruct (match_here r p (String c s)) as [st1|] eqn:Hm.
    + inversion H; subst. exists "", (String c s).
      split; [reflexivity|]. split; [rewrite append_nil_r; reflexivity|]. split; [exact Hm|].
      intros a1 a2 Ha Hne. destruct a1; [cbn in Ha; congruence|discriminate].
    + apply IH in H. destruct H as (a & b & -> & -> & Hhere & Hnone).
      exists (String c a), b. split; [reflexivity|]. split.
      * change (String c skipped) with (String c "" ++ skipped).
        rewrite rev_append, append_assoc. reflexivity.
      * split; [exact Hhere|].
        intros a1 a2 Ha Hne. destruct a1 as [|c1 a1].
        -- cbn [append] in Ha. subst a2. cbn [prev_after append]. exact Hm.
        -- cbn [append] in Ha. inversion Ha; subst. cbn [prev_after].
           apply Hnone; [reflexivity|exact Hne].
Qed.

Lemma exec_from_first (r : regex) (a b : string) :
  forall (p : option ascii) (skipped : string) (st : mstate),
    match_here r (prev_after p a) b = Some st ->
    (forall a1 a2, a = a1 ++ a2 -> a2 <> "" ->
                   match_here r (prev_after p a1) (a2 ++ b) = None) ->
    exec_from r p skipped (a ++ b) = Some (Str.rev skipped ++ a, st).
Proof.
  induction a as [|c a IH]; intros p skipped st Hhere Hnone.
  - cbn [append prev_after] in *. rewrite append_nil_r.
    destruct b as [|x b]; cbn [exec_from]; rewrite Hhere; reflexivity.
  - pose proof (Hnone "" (String c a) eq_refl ltac:(discriminate)) as Hfirst.
    cbn [append prev_after] in Hfirst. cbn [append exec_from prev_after] in *.
    rewrite Hfirst.
    rewrite (IH (Some c) (String c skipped) st Hhere).
    + change (String c skipped) with (String c "" ++ skipped).
      rewrite rev_append, append_assoc. reflexivity.
    + intros a1 a2 Ha Hne. apply (Hnone (String c a1) a2); [rewrite Ha; reflexivity|exact Hne].
Qed.






(** ** Literals, runs and captures *)

Lemma lowc_eqb (x c : ascii) :
  Ascii.eqb (Str.lowc x) (Str.lowc c) = true <-> Str.lowc x = Str.lowc c.
Proof. apply Ascii.eqb_eq. Qed.













(** ** The third gate *)




(** ** The second gate *)











(* ================================================================== *)
(** * The date in the text *)
(* ================================================================== *)

(** A greedy bounded run takes all it can when what follows always
    succeeds. *)
Lemma rmatch_upto_run (q : ascii -> bool) (k : cont) :
  (forall st, k st <> None) ->
  forall (n : nat) (run post : string) (pv : option ascii) (cs : list (nat * string)),
    Str.forallb q run = true -> String.length run <= n ->
    (String.length run = n
     \/ match post with String c _ => q c = false | EmptyString => True end) ->
    rmatch (upto n (Chr q)) k (MState pv (run ++ post) cs)
    = k (MState (prev_after pv run) post cs).
Proof.
  intros Hk. induction n as [|n IH]; intros run post pv cs Hrun Hlen Hmax.
  - destruct run; [reflexivity|cbn in Hlen; lia].
  - change (upto (S n) (Chr q)) with (Alt (Seq (Chr q) (upto n (Chr q))) Empty).
    cbn [rmatch]. destruct run as [|c run].
    + cbn [append prev_after rest]. destruct Hmax as [Hmax|Hmax]; [discriminate|].
      destruct post as [|x post]; [reflexivity|]. rewrite Hmax. reflexivity.
    + cbn [Str.forallb] in Hrun. apply andb_true_iff in Hrun. destruct Hrun as [Hc Hrun].
      cbn [append rest caps prev_after]. rewrite Hc.
      rewrite IH; [|exact Hrun|cbn in Hlen; lia|destruct Hmax as [Hmax|Hmax];
                                                [left; cbn in Hmax; lia|right; exact Hmax]].
      destruct (k _) eqn:Hres; [reflexivity|]. exfalso. exact (Hk _ Hres).
Qed.

(** The date pattern at a position that begins with a date group: the day
    and the month are the two pairs of digits, the year is the digits that
    follow, two to four of them, as many as there are. *)
Lemma match_here_date (p : option ascii) (d1 d2 s1 m1 m2 s2 y1 y2 : ascii)
      (run post : string) :
  date_prefix (String d1 (String d2 (String s1 (String m1 (String m2 (String s2
                 (String y1 (String y2 (run ++ post))))))))) = true ->
  Str.forallb Str.is_digit run = true -> String.length run <= 2 ->
  (String.length run = 2 \/ no_digit_next post = true) ->
  exists st,
    match_here DATE_PATTERN p
      (String d1 (String d2 (String s1 (String m1 (String m2 (String s2
         (String y1 (String y2 (run ++ post)))))))))
    = Some st
    /\ lookup 1 (caps st) = Some (String d1 (String d2 ""))
    /\ lookup 2 (caps st) = Some (String m1 (String m2 ""))
    /\ lookup 3 (caps st) = Some (String y1 (String y2 run)).
Proof.
  intros Hshape Hrun Hlen Hmax. cbn [date_prefix] in Hshape.
  do 7 (apply andb_true_iff in Hshape; destruct Hshape as [Hshape ?]).
  unfold match_here, DATE_PATTERN, digit, one_of.
  cbn [rmatch seqs rep range Nat.sub rest caps prev set_cap].
  repeat match goal with H : _ = true |- _ => rewrite H end.
  match goal with
  | |- context [rmatch (upto 2 (Chr Str.is_digit)) ?K _] =>
      assert (Hk : forall st, K st <> None) by (intros st; discriminate);
      rewrite (@rmatch_upto_run Str.is_digit K Hk 2 run post _ _ Hrun Hlen)
  end.
  2:{ destruct Hmax as [Hmax|Hmax]; [left; exact Hmax|right].
      destruct post as [|c post]; [exact I|]. cbn in Hmax.
      apply negb_true_iff in Hmax. exact Hmax. }
  eexists. split; [reflexivity|].
  cbn [caps set_cap lookup Nat.eqb].
  split; [|split].
  - f_equal. apply (consumed_append (String d1 (String d2 ""))).
  - f_equal. apply (consumed_append (String m1 (String m2 ""))).
  - f_equal. apply (consumed_append (String y1 (String y2 run))).
Qed.

(** Where the date pattern matches, a date group begins. *)
Lemma date_match_read (p0 : option ascii) (s0 : string) (st : mstate) :
  matches (Group 0 DATE_PATTERN) (MState p0 s0 []) st -> date_prefix s0 = true.
Proof.
  intros H. apply matches_group in H. destruct H as (st5 & H & _).
  unfold DATE_PATTERN in H. cbn [seqs] in H.
  apply matches_seq in H. destruct H as (st1 & H1 & H).
  apply matches_seq in H. destruct H as (st2 & Hsep1 & H).
  apply matches_seq in H. destruct H as (st3 & H2 & H).
  apply matches_seq in H. destruct H as (st4 & Hsep2 & H3).
  apply matches_group in H1. destruct H1 as (m1 & H1 & ->).
  apply matches_group in H2. destruct H2 as (m2 & H2 & ->).
  apply matches_group in H3. destruct H3 as (m3 & H3 & ->).
  apply matches_chr in Hsep1. destruct Hsep1 as (c1 & Hr2 & Hc1 & _).
  apply matches_chr in Hsep2. destruct Hsep2 as (c2 & Hr4 & Hc2 & _).
  apply matches_rep_chr in H1. destruct H1 as (d & Hr1 & Hdl & Hdd).
  apply matches_rep_chr in H2. destruct H2 as (m & Hr3 & Hml & Hmd).
  apply matches_range_chr in H3. destruct H3 as (y & Hr5 & Hyl & Hyd).
  cbn [rest set_cap] in *.
  rewrite Hr1, Hr2, Hr3, Hr4, Hr5.
  destruct d as [|a [|b [|? ?]]]; try discriminate.
  destruct m as [|e [|f [|? ?]]]; try discriminate.
  destruct y as [|g [|h y]]; cbn [String.length] in Hyl; try lia.
  cbn [Str.forallb] in *. cbn [append date_prefix].
  repeat match goal with
         | H : _ && _ = true |- _ => apply andb_true_iff in H; destruct H
         end.
  repeat match goal with H : _ = true |- _ => rewrite H end. reflexivity.
Qed.

Lemma match_here_no_date (p : option ascii) (s : string) :
  date_prefix s = false -> match_here DATE_PATTERN p s = None.
Proof.
  intros Hno. destruct (match_here DATE_PATTERN p s) as [st|] eqn:Hm; [|reflexivity].
  apply match_here_matches, date_match_read in Hm. congruence.
Qed.

(** Without a date group the date is the current day. *)
Lemma extractDate_today (today sms : string) :
  (forall a b, sms = a ++ b -> date_prefix b = false) ->
  extractDate today sms = today.
Proof.
  intros Hno. unfold extractDate.
  destruct (exec DATE_PATTERN sms) as [[before st]|] eqn:He; [|reflexivity].
  apply exec_from_found in He. destruct He as (a & b & Hsms & _ & Hhere & _).
  apply match_here_matches, date_match_read in Hhere.
  rewrite (Hno a b Hsms) in Hhere. discriminate.
Qed.

(** With a date group, the date is built from the leftmost one. *)
Lemma extractDate_group (today pre : string) (d1 d2 s1 m1 m2 s2 y1 y2 : ascii)
      (run post : string) :
  date_prefix (String d1 (String d2 (String s1 (String m1 (String m2 (String s2
                 (String y1 (String y2 (run ++ post))))))))) = true ->
  Str.forallb Str.is_digit run = true -> String.length run <= 2 ->
  (String.length run = 2 \/ no_digit_next post = true) ->
  (forall a b, pre = a ++ b -> b <> "" ->
     date_prefix (b ++ String d1 (String d2 (String s1 (String m1 (String m2 (String s2
                        (String y1 (String y2 (run ++ post))))))))) = false) ->
  extractDate today
    (pre ++ String d1 (String d2 (String s1 (String m1 (String m2 (String s2
               (String y1 (String y2 (run ++ post)))))))))
  = nat_to_string (Z.to_nat (full_year (String y1 (String y2 run))))
    ++ "-" ++ String m1 (String m2 "") ++ "-" ++ String d1 (String d2 "").
Proof.
  intros Hshape Hrun Hlen Hmax Hfirst.
  destruct (@match_here_date (prev_after None pre) d1 d2 s1 m1 m2 s2 y1 y2 run post
              Hshape Hrun Hlen Hmax) as (st & Hhere & Hc1 & Hc2 & Hc3).
  unfold extractDate, exec.
  rewrite (@exec_from_first DATE_PATTERN pre _ None "" st Hhere).
  - rewrite Hc1, Hc2, Hc3. rewrite parseInt_digits.
    + reflexivity.
    + cbn [date_prefix] in Hshape.
      do 7 (apply andb_true_iff in Hshape; destruct Hshape as [Hshape ?]).
      cbn [Str.forallb]. repeat match goal with H : _ = true |- _ => rewrite H end.
      reflexivity.
  - intros a b Hpre Hne. apply match_here_no_date. apply (Hfirst a b Hpre Hne).
Qed.

(** X18: the date [extractDate] reads from a text.  When no date group
    (two digits, [-] or [/], two digits, [-] or [/], two digits) begins
    anywhere in the text, it is the current day.  Otherwise it is built
    from the leftmost group: the year, then the month text, then the day
    text, the two of them copied as written (no range check); the year text
    is the two digits of the group and the digits that follow, up to four in
    all, and a year below 100 is taken in 2000-2099. *)
Theorem extractDate_shape (today sms : string) :
  ((forall a b, sms = a ++ b -> date_prefix b = false) ->
   extractDate today sms = today)
  /\ (forall (pre : string) (d1 d2 s1 m1 m2 s2 y1 y2 : ascii) (run post : string),
        sms = pre ++ String d1 (String d2 (String s1 (String m1 (String m2 (String s2
                       (String y1 (String y2 (run ++ post)))))))) ->
        date_prefix (String d1 (String d2 (String s1 (String m1 (String m2 (String s2
                       (String y1 (String y2 (run ++ post))))))))) = true ->
        Str.forallb Str.is_digit run = true -> String.length run <= 2 ->
        (String.length run = 2 \/ no_digit_next post = true) ->
        (forall a b, pre = a ++ b -> b <> "" ->
           date_prefix (b ++ String d1 (String d2 (String s1 (String m1 (String m2
                              (String s2 (String y1 (String y2 (run ++ post)))))))))
           = false) ->
        extractDate today sms
        = nat_to_string (Z.to_nat (full_year (String y1 (String y2 run))))
          ++ "-" ++ String m1 (String m2 "") ++ "-" ++ String d1 (String d2 ""))
  /\ extractDate today "Rs 500 debited from A/c XX1234" = today
  /\ extractDate today "paid on 31-02-24 at 10:15; due 01/03/2024" = "2024-02-31"
  /\ extractDate today "txn 9912-05-01/02/20245" = "2001-05-12".
Proof.
  split; [apply extractDate_today|]. split.
  - intros pre d1 d2 s1 m1 m2 s2 y1 y2 run post -> Hshape Hrun Hlen Hmax Hfirst.
    apply extractDate_group; assumption.
  - repeat split; vm_compute; reflexivity.
Qed.

(* ================================================================== *)
(** * The extractor, gate by gate *)
(* ================================================================== *)












